(** * Graph/workflow conversion layer of the workflow builder

    A shallow embedding of [lib/workflow/conversion.ts] (the graph codec and
    the executor factory), of the magentic scaffold handler of the canvas
    page, and of the validator contract, together with the properties the
    specification states about them; then of the rest of the canvas page
    (library tokens, node creation, edits, the undo history) and of the
    executor editors of the properties panel, with properties of their own.

    Conventions of the embedding.
    - TypeScript interfaces become records; an optional property [p?: T]
      becomes a field of type [option T] ([None] is [undefined]).
    - A property typed [Record<string, unknown>] (executor metadata, edge
      data, edge metadata) is a finite map from property names to untyped
      JavaScript values, [gmap string value]; two such maps are equal exactly
      when they have the same own properties.  The map holds the own
      properties only: what a plain object inherits from [Object.prototype]
      is not in it.  A read of a name that [Object.prototype] defines
      ([constructor], [toString], [__proto__], ...) and an assignment to
      [__proto__] therefore agree with the map only when that name is not
      involved; the properties that read or write a node id or an executor
      id as a property name say so in their hypotheses ([ordinary_name],
      [positions_writable] further down).
    - Screen coordinates are only ever copied by the codec, never computed
      with; they are integers here.
    - [new Date().toISOString()] is an input of the function that calls it.
    - Graphs and documents are values: a function returns the value of its
      result, and takes the values its arguments have when it is called.
      The one write of the codec into an object it did not create is the
      [position] entry of an executor's metadata, so the value of a result is
      as embedded here in everything but that entry when payloads are shared
      between nodes; properties of graphs that may share payloads are
      stated up to that entry.  Which objects a result shares with its
      input, and what a call changes in its input, is the subject of the
      heap model of [reactFlowToWorkflow] further down. *)

From stdpp Require Import gmap strings list fin_maps pretty.

Set Warnings "-register-all".
Set Default Proof Using "Type".

(** ** JavaScript values *)

Inductive value :=
| VUndefined
| VNull
| VBool (b : bool)
| VNum (n : Z)
| VStr (s : string)
| VArr (l : list value)
| VObj (o : gmap string value).

Abbreviation obj := (gmap string value).

(** [o.k]: an absent own property reads as [undefined]. *)
Definition get (o : obj) (k : string) : value := default VUndefined (o !! k).

(** [v.k] and [v?.k] for a property name [k] that no primitive or array
    carries: only objects answer. *)
Definition prop (v : value) (k : string) : value :=
  match v with
  | VObj o => get o k
  | _ => VUndefined
  end.

(** JavaScript truthiness, as tested by [if (v)] and [v || d]. *)
Definition truthy (v : value) : bool :=
  match v with
  | VUndefined | VNull => false
  | VBool b => b
  | VNum n => negb (n =? 0)%Z
  | VStr s => negb (String.eqb s "")
  | VArr _ | VObj _ => true
  end.

(** [a ?? b] *)
Definition nullish (v : value) : bool :=
  match v with
  | VUndefined | VNull => true
  | _ => false
  end.

Definition opt_str (s : option string) : value :=
  match s with
  | Some s => VStr s
  | None => VUndefined
  end.

(** [s || d] for an optional string: the empty string is falsy. *)
Definition str_or (s : option string) (d : string) : string :=
  match s with
  | Some s => if String.eqb s "" then d else s
  | None => d
  end.

(** ** Entity model *)

(** [XYPosition] *)
Record position := Position { px : Z; py : Z }.

Definition origin : position := Position 0 0.

Definition position_value (p : position) : value :=
  VObj (<["x" := VNum (px p)]> (<["y" := VNum (py p)]> ∅)).

(** Modelled from the spec: the [BaseExecutor] interface of [./types] (only
    imported by the conversion module).  [ex_fields] holds the own
    properties other than the five named ones, i.e. the type-specific fields
    of the executor kinds. *)
Record executor := Executor {
  ex_id : string;
  ex_type : string;
  ex_label : option string;
  ex_description : option string;
  ex_metadata : option obj;
  ex_fields : obj
}.

(** Modelled from the spec: the [EdgeCondition] union of [./types], a tagged
    variant [predicate] with an expression or [case] with a match value.
    The codec copies both payloads without inspecting them. *)
Inductive edge_condition :=
| CPredicate (expression : value)
| CCase (caseValue : value).

(** Modelled from the spec: the [BaseEdge] interface of [./types]. *)
Record base_edge := BaseEdge {
  e_id : string;
  e_source : string;
  e_target : string;
  e_condition : option edge_condition;
  e_metadata : option obj
}.

(** Modelled from the spec: the [EdgeGroup] union of [./edges].  The
    conversion module imports the three routing variants and the single-edge
    group; the latter takes the default arm of every switch on [group.type]. *)
Inductive group_shape :=
| FanInShape (sources : list string) (target : string)
| FanOutShape (source : string) (targets : list string)
| SwitchCaseShape (source : string) (cases : list value)
| SingleShape.

Record edge_group := EdgeGroup {
  g_id : string;
  g_shape : group_shape;
  g_fields : obj
}.

(** [group.type] *)
Definition group_type (g : edge_group) : string :=
  match g_shape g with
  | FanInShape _ _ => "fan-in"
  | FanOutShape _ _ => "fan-out"
  | SwitchCaseShape _ _ => "switch-case"
  | SingleShape => "single"
  end.

Abbreviation pos_map := (gmap string position).

(** Modelled from the spec: the metadata block of a workflow document.
    [custom] is the canonical extension map; [nodePositions] is read from it
    and from the deprecated top level through type assertions, so both are
    typed fields here. *)
Record custom_meta := CustomMeta {
  cm_nodePositions : option pos_map;
  cm_other : obj
}.

Record wf_metadata := WfMetadata {
  m_createdAt : option string;
  m_custom : option custom_meta;
  m_nodePositions : option pos_map;
  m_other : obj
}.

(** Modelled from the spec: the [Workflow] interface of [./workflow]. *)
Record workflow := Workflow {
  w_id : string;
  w_name : option string;
  w_version : option string;
  w_description : option string;
  w_executors : list executor;
  w_edges : list base_edge;
  w_edgeGroups : option (list edge_group);
  w_metadata : option wf_metadata
}.

(** ** Canvas graph *)

Record handles := Handles {
  h_target : bool;
  h_source : bool;
  h_sourceCount : option nat;
  h_targetCount : option nat;
  h_caseCount : option nat
}.

(** [WorkflowNodeData]: a union discriminated by [variant] and probed by
    property name; the properties the codec touches are fields, the rest of
    the payload is [d_other]. *)
Record node_data := NodeData {
  d_variant : string;
  d_handles : option handles;
  d_executor : option executor;
  d_executorType : option string;
  d_label : option string;
  d_description : option string;
  d_group : option edge_group;
  d_other : obj
}.

(** [WorkflowReactFlowNode] *)
Record rf_node := RfNode {
  n_id : string;
  n_type : option string;
  n_position : position;
  n_data : node_data
}.

(** [WorkflowReactFlowEdge] *)
Record rf_edge := RfEdge {
  re_id : string;
  re_source : string;
  re_target : string;
  re_type : option string;
  re_data : option obj
}.

(** ** Graph codec *)

Definition isExecutorNodeData (data : node_data) : bool :=
  String.eqb (d_variant data) "executor" ||
  String.eqb (d_variant data) "function-executor" ||
  String.eqb (d_variant data) "agent-executor" ||
  String.eqb (d_variant data) "workflow-executor" ||
  String.eqb (d_variant data) "request-info-executor".

Definition isEdgeGroupNode (data : node_data) : bool :=
  String.eqb (d_variant data) "fan-in" ||
  String.eqb (d_variant data) "fan-out" ||
  String.eqb (d_variant data) "switch-case".

(** [{ ...data.executor }] is a copy of the payload executor; as a value
    it is the executor itself. *)
Definition nodeToExecutor (node : rf_node) : option executor :=
  let data := n_data node in
  if negb (isExecutorNodeData data) then None
  else match d_executor data with
       | Some executor => Some executor
       | None =>
           Some {| ex_id := n_id node;
                   ex_type := str_or (d_executorType data) "executor";
                   ex_label := d_label data;
                   ex_description := d_description data;
                   ex_metadata := None;
                   ex_fields := ∅ |}
       end.

(** [if (!executor.metadata) executor.metadata = {};
     executor.metadata.position = node.position]: the executor as the loop
    pushes it.  [executor] is a copy one level deep, so an existing
    metadata object is the payload's own, and a later iteration over a node
    sharing that payload writes its [position] again: the entry of the
    pushed executor is this one when no later node shares the payload. *)
Definition stamp_position (p : position) (e : executor) : executor :=
  {| ex_id := ex_id e;
     ex_type := ex_type e;
     ex_label := ex_label e;
     ex_description := ex_description e;
     ex_metadata := Some (<["position" := position_value p]> (default ∅ (ex_metadata e)));
     ex_fields := ex_fields e |}.

(** The first loop of [reactFlowToWorkflow], one iteration: the position is
    recorded for every node, an executor is pushed for executor payloads.
    [nodePositions] is a plain object: [nodePositions[node.id] = ...]
    creates or overwrites the own property named by the id, for every id
    but [__proto__], which sets the prototype and records nothing. *)
Definition collect_node (acc : list executor * pos_map) (node : rf_node)
  : list executor * pos_map :=
  let '(executors, nodePositions) := acc in
  let nodePositions := <[n_id node := n_position node]> nodePositions in
  if isExecutorNodeData (n_data node) then
    match nodeToExecutor node with
    | Some executor => (executors ++ [stamp_position (n_position node) executor], nodePositions)
    | None => (executors, nodePositions)
    end
  else (executors, nodePositions).

Definition collect_nodes (nodes : list rf_node) : list executor * pos_map :=
  foldl collect_node ([], ∅) nodes.

(** The condition rebuilt from [edge.data?.condition]. *)
Definition read_condition (data : option obj) : option edge_condition :=
  let condition := match data with Some d => get d "condition" | None => VUndefined end in
  if truthy condition then
    match prop condition "type" with
    | VStr t =>
        if String.eqb t "predicate" then Some (CPredicate (prop condition "expression"))
        else if String.eqb t "case" then Some (CCase (prop condition "caseValue"))
        else None
    | _ => None
    end
  else None.

Definition edge_to_workflow (edge : rf_edge) : base_edge :=
  {| e_id := re_id edge;
     e_source := re_source edge;
     e_target := re_target edge;
     e_condition := read_condition (re_data edge);
     e_metadata := Some (<["type" := opt_str (re_type edge)]> (default ∅ (re_data edge))) |}.

Definition nodeDataToEdgeGroup (data : node_data) : option edge_group :=
  if String.eqb (d_variant data) "fan-in" then d_group data
  else if String.eqb (d_variant data) "fan-out" then d_group data
  else if String.eqb (d_variant data) "switch-case" then d_group data
  else None.

(** The second loop of [reactFlowToWorkflow], one iteration. *)
Definition collect_group (acc : list edge_group) (node : rf_node) : list edge_group :=
  if isEdgeGroupNode (n_data node) then
    match nodeDataToEdgeGroup (n_data node) with
    | Some group => acc ++ [group]
    | None => acc
    end
  else acc.

Definition collect_groups (nodes : list rf_node) : list edge_group :=
  foldl collect_group [] nodes.

(** [Object.keys(metadata.custom).length === 0] *)
Definition custom_is_empty (c : custom_meta) : bool :=
  match cm_nodePositions c with
  | Some _ => false
  | None => Nat.eqb (size (cm_other c)) 0
  end.

(** The metadata block built by the immediately-invoked function at the end
    of [reactFlowToWorkflow]; [now] is [new Date().toISOString()]. *)
Definition build_metadata (now : string) (nodePositions : pos_map) : wf_metadata :=
  let metadata := {| m_createdAt := Some now;
                     m_custom := Some (CustomMeta None ∅);
                     m_nodePositions := None;
                     m_other := ∅ |} in
  let metadata :=
    if Nat.ltb 0 (size nodePositions) then
      {| m_createdAt := m_createdAt metadata;
         m_custom := Some (CustomMeta (Some nodePositions) ∅);
         m_nodePositions := Some nodePositions;
         m_other := m_other metadata |}
    else metadata in
  match m_custom metadata with
  | Some c =>
      if custom_is_empty c then
        {| m_createdAt := m_createdAt metadata;
           m_custom := None;
           m_nodePositions := m_nodePositions metadata;
           m_other := m_other metadata |}
      else metadata
  | None => metadata
  end.

Definition reactFlowToWorkflow (now : string) (nodes : list rf_node) (edges : list rf_edge)
    (workflowId : option string) (workflowName : option string) : workflow :=
  let '(executors, nodePositions) := collect_nodes nodes in
  let workflowEdges := edge_to_workflow <$> edges in
  let edgeGroups := collect_groups nodes in
  {| w_id := default "workflow-1" workflowId;
     w_name := workflowName;
     w_version := None;
     w_description := None;
     w_executors := executors;
     w_edges := workflowEdges;
     w_edgeGroups := match edgeGroups with [] => None | _ => Some edgeGroups end;
     w_metadata := Some (build_metadata now nodePositions) |}.

(** [workflow.metadata?.custom] *)
Definition custom_block (w : workflow) : option custom_meta :=
  match w_metadata w with
  | Some metadata => m_custom metadata
  | None => None
  end.

(** [workflow.metadata?.custom?.nodePositions] *)
Definition custom_positions (w : workflow) : option pos_map :=
  match custom_block w with
  | Some custom => cm_nodePositions custom
  | None => None
  end.

(** [workflow.metadata?.nodePositions] *)
Definition top_positions (w : workflow) : option pos_map :=
  match w_metadata w with
  | Some metadata => m_nodePositions metadata
  | None => None
  end.

(** [workflow.metadata?.custom?.nodePositions ?? workflow.metadata?.nodePositions] *)
Definition stored_positions (w : workflow) : option pos_map :=
  match custom_positions w with
  | Some positions => Some positions
  | None => top_positions w
  end.

(** [nodePositions?.[id] || { x: 0, y: 0 }], for an id that names no member
    of [Object.prototype]: the own entry, the origin without one. *)
Definition read_position (w : workflow) (id : string) : position :=
  match stored_positions w with
  | Some positions => default origin (positions !! id)
  | None => origin
  end.

Definition plain_handles : handles := Handles true true None None None.

Definition executor_payload (variant : string) (executorType : option string)
    (e : executor) : node_data :=
  {| d_variant := variant;
     d_handles := Some plain_handles;
     d_executor := Some e;
     d_executorType := executorType;
     d_label := ex_label e;
     d_description := ex_description e;
     d_group := None;
     d_other := ∅ |}.

Definition executorToNodeData (e : executor) : option node_data :=
  let executorType := ex_type e in
  if String.eqb executorType "function-executor" then
    Some (executor_payload "function-executor" None e)
  else if String.eqb executorType "agent-executor" then
    Some (executor_payload "agent-executor" None e)
  else if String.eqb executorType "magentic-agent-executor" then
    Some (executor_payload "agent-executor" None e)
  else if String.eqb executorType "workflow-executor" then
    Some (executor_payload "workflow-executor" None e)
  else if String.eqb executorType "request-info-executor" then
    Some (executor_payload "request-info-executor" None e)
  else if String.eqb executorType "magentic-orchestrator-executor" then
    Some (executor_payload "executor" (Some "magentic-orchestrator-executor") e)
  else
    (* default arm: the two magentic tests are repeated there *)
    if String.eqb (ex_type e) "magentic-agent-executor" then
      Some (executor_payload "agent-executor" None e)
    else if String.eqb (ex_type e) "magentic-orchestrator-executor" then
      Some (executor_payload "executor" (Some "magentic-orchestrator-executor") e)
    else
      Some (executor_payload "executor" (Some (str_or (Some executorType) "executor")) e).

Definition getNodeTypeFromExecutor (e : executor) : string :=
  let executorType := ex_type e in
  if String.eqb executorType "function-executor" then "function-executor"
  else if String.eqb executorType "agent-executor" then "agent-executor"
  else if String.eqb executorType "magentic-agent-executor" then "magentic-agent-executor"
  else if String.eqb executorType "workflow-executor" then "workflow-executor"
  else if String.eqb executorType "request-info-executor" then "request-info-executor"
  else if String.eqb executorType "magentic-orchestrator-executor" then
    "magentic-orchestrator-executor"
  else "executor".

Definition group_payload (variant : string) (h : handles) (g : edge_group) : node_data :=
  {| d_variant := variant;
     d_handles := Some h;
     d_executor := None;
     d_executorType := None;
     d_label := None;
     d_description := None;
     d_group := Some g;
     d_other := ∅ |}.

Definition edgeGroupToNodeData (g : edge_group) : option node_data :=
  match g_shape g with
  | FanInShape sources _ =>
      Some (group_payload "fan-in" (Handles true true (Some (length sources)) None None) g)
  | FanOutShape _ targets =>
      Some (group_payload "fan-out" (Handles true true None (Some (length targets)) None) g)
  | SwitchCaseShape _ cases =>
      Some (group_payload "switch-case" (Handles true true None None (Some (length cases))) g)
  | SingleShape => None
  end.

Definition getNodeTypeFromEdgeGroup (g : edge_group) : string :=
  if String.eqb (group_type g) "fan-in" then "fan-in"
  else if String.eqb (group_type g) "fan-out" then "fan-out"
  else if String.eqb (group_type g) "switch-case" then "switch-case"
  else "executor".

Definition executor_node (w : workflow) (e : executor) : list rf_node :=
  let position := read_position w (ex_id e) in
  match executorToNodeData e with
  | Some nodeData =>
      [ {| n_id := ex_id e;
           n_type := Some (getNodeTypeFromExecutor e);
           n_position := position;
           n_data := nodeData |} ]
  | None => []
  end.

Definition group_node (g : edge_group) : list rf_node :=
  match edgeGroupToNodeData g with
  | Some nodeData =>
      [ {| n_id := g_id g;
           n_type := Some (getNodeTypeFromEdgeGroup g);
           n_position := origin;
           n_data := nodeData |} ]
  | None => []
  end.

Definition condition_value (c : option edge_condition) : value :=
  match c with
  | Some (CPredicate expression) =>
      VObj (<["type" := VStr "predicate"]> (<["expression" := expression]> ∅))
  | Some (CCase caseValue) =>
      VObj (<["type" := VStr "case"]> (<["caseValue" := caseValue]> ∅))
  | None => VUndefined
  end.

(** [{ condition: edge.condition, ...edge.metadata }]: the spread comes
    second, so a [condition] entry of the metadata wins. *)
Definition edge_to_graph (e : base_edge) : rf_edge :=
  {| re_id := e_id e;
     re_source := e_source e;
     re_target := e_target e;
     re_type := Some "animated";
     re_data := Some (default ∅ (e_metadata e) ∪ {["condition" := condition_value (e_condition e)]}) |}.

Definition workflowToReactFlow (w : workflow) : list rf_node * list rf_edge :=
  let nodes := w_executors w ≫= executor_node w in
  let nodes :=
    match w_edgeGroups w with
    | Some groups => nodes ++ (groups ≫= group_node)
    | None => nodes
    end in
  (nodes, edge_to_graph <$> w_edges w).

(** ** The loops of the codec as list functions *)

Definition node_executors (node : rf_node) : list executor :=
  if isExecutorNodeData (n_data node) then
    match nodeToExecutor node with
    | Some executor => [stamp_position (n_position node) executor]
    | None => []
    end
  else [].

Definition node_groups (node : rf_node) : list edge_group :=
  if isEdgeGroupNode (n_data node) then
    match nodeDataToEdgeGroup (n_data node) with
    | Some group => [group]
    | None => []
    end
  else [].

Definition record_position (positions : pos_map) (node : rf_node) : pos_map :=
  <[n_id node := n_position node]> positions.


(** The position map collected by the first loop of [reactFlowToWorkflow]. *)
Definition collected_positions (nodes : list rf_node) : pos_map :=
  (collect_nodes nodes).2.


(** ** Round trips and the comparisons used to state them *)


(** Graph to document and back. *)
Definition graph_roundtrip (now : string) (nodes : list rf_node) (edges : list rf_edge)
    (id : option string) : list rf_node * list rf_edge :=
  workflowToReactFlow (reactFlowToWorkflow now nodes edges id None).




(** The same executor, the [position] entry of its metadata apart (an absent
    metadata block counts as an empty one). *)
Definition same_executor_up_to_position (e e' : executor) : Prop :=
  ex_id e' = ex_id e ∧
  ex_type e' = ex_type e ∧
  ex_label e' = ex_label e ∧
  ex_description e' = ex_description e ∧
  ex_fields e' = ex_fields e ∧
  delete "position" (default ∅ (ex_metadata e')) = delete "position" (default ∅ (ex_metadata e)).



(** The groups that [workflowToReactFlow] turns into a node. *)
Definition is_routing_group (g : edge_group) : bool :=
  match g_shape g with
  | SingleShape => false
  | _ => true
  end.

(** Two graph edges that the codec reads alike: identity, endpoints, the
    condition it rebuilds and the other data entries. *)
Definition same_graph_edge (e e' : rf_edge) : Prop :=
  re_id e' = re_id e ∧
  re_source e' = re_source e ∧
  re_target e' = re_target e ∧
  read_condition (re_data e') = read_condition (re_data e) ∧
  ∀ k, k ≠ "type" → k ≠ "condition" →
    default ∅ (re_data e') !! k = default ∅ (re_data e) !! k.


(** ** Plain objects and inherited property names *)

(** The property names that every plain object inherits from
    [Object.prototype].  The position maps of a document are plain objects:
    reading one of these names from a map that does not have it as an own
    property gives the inherited member instead of [undefined], and
    assigning to [__proto__] sets the prototype instead of creating an own
    property.  A map of this development holds the own properties of the
    object; it answers as the object does for every name that is an own
    property or is not in this list, as long as no assignment to
    [__proto__] was made. *)
Definition object_prototype_names : list string :=
  [ "__defineGetter__"; "__defineSetter__"; "__lookupGetter__"; "__lookupSetter__";
    "__proto__"; "constructor"; "hasOwnProperty"; "isPrototypeOf";
    "propertyIsEnumerable"; "toLocaleString"; "toString"; "valueOf" ].

Definition ordinary_name (k : string) : Prop := k ∉ object_prototype_names.

(** No node of the graph is named [__proto__]: every assignment
    [nodePositions[node.id] = node.position] creates or overwrites an own
    property. *)
Definition positions_writable (nodes : list rf_node) : Prop :=
  "__proto__" ∉ n_id <$> nodes.

(** ** The entities of a canvas graph, after the specification

    These definitions follow the words of the specification (sections 3
    and 4.2) and use nothing of the codec: they say what a graph stands
    for, whatever the codec extracts from it. *)











(** The position of an executor as a reader would take it who looks the
    executor's id up in [custom.nodePositions] first, then in the top-level
    map, and falls back to the origin: the preference read executor by
    executor. *)
Definition position_by_executor (w : workflow) (id : string) : position :=
  match custom_positions w ≫= (.!! id) with
  | Some p => p
  | None =>
      match top_positions w ≫= (.!! id) with
      | Some p => p
      | None => origin
      end
  end.

(** ** Magentic agent presets ([lib/workflow/magentic-presets.ts]) *)

Record MagenticAgentPreset := Preset {
  key : string;
  label : string;
  description : string;
  agentRole : string;
  capabilities : list string;
  systemPrompt : string;
  toolIds : option (list string)
}.

Definition MAGENTIC_AGENT_PRESETS : list MagenticAgentPreset :=
  [ {| key := "planner";
       label := "Planner Agent";
       description := "Creates task plans, updates task ledger, assigns agents.";
       agentRole := "planner";
       capabilities := ["planning"; "fact-gathering"; "assignment"];
       systemPrompt :=
         "You are the planning specialist. Break down the task into actionable steps, keep the facts and plan ledgers updated, and assign the next best agent.";
       toolIds := Some ["magentic-task-ledger"; "magentic-progress-ledger"] |};
    {| key := "web";
       label := "Web Surfer Agent";
       description := "Searches and summarizes web sources to gather external facts.";
       agentRole := "web-surfer";
       capabilities := ["web-search"; "summarization"];
       systemPrompt :=
         "You are the web research specialist. Use browsing tools to gather and summarise authoritative information that helps the team.";
       toolIds := Some ["web-browser"; "http-client"] |};
    {| key := "coder";
       label := "Coder Agent";
       description := "Writes and runs code to fulfil assigned subtasks.";
       agentRole := "coder";
       capabilities := ["code-generation"; "code-execution"];
       systemPrompt :=
         "You are responsible for writing and executing code to achieve the assigned goal. Produce correct, well-tested programs and explain results.";
       toolIds := Some ["hosted-code-interpreter"] |};
    {| key := "critic";
       label := "Critic Agent";
       description := "Reviews work-in-progress and ensures quality before completion.";
       agentRole := "critic";
       capabilities := ["review"; "quality-assurance"];
       systemPrompt :=
         "Review teammate output for accuracy, completeness, and adherence to plan. Flag issues and suggest improvements.";
       toolIds := Some ["analysis-notes"] |} ].

(** [MAGENTIC_AGENT_PRESETS.reduce((acc, preset) => { acc[preset.key] = preset; ... }, {})] *)
Definition MAGENTIC_AGENT_PRESET_MAP : gmap string MagenticAgentPreset :=
  foldl (λ acc preset, <[key preset := preset]> acc) ∅ MAGENTIC_AGENT_PRESETS.

(** ** Executor factory *)

Record CreateExecutorOptions := Options {
  o_label : option string;
  o_presetKey : option string
}.

Definition strings_value (l : list string) : value := VArr (VStr <$> l).

(** [{ toolId, enabled: true }] *)
Definition tool_reference (toolId : string) : value :=
  VObj (<["toolId" := VStr toolId]> (<["enabled" := VBool true]> ∅)).

(** [x?.map(f)] and friends on an optional preset property. *)
Definition opt_value {A} (f : A → value) (x : option A) : value :=
  match x with
  | Some a => f a
  | None => VUndefined
  end.

(** [options?.presetKey && MAP[options.presetKey] ? MAP[options.presetKey] : undefined];
    the empty key is falsy. *)
Definition lookup_preset (options : option CreateExecutorOptions) : option MagenticAgentPreset :=
  match options with
  | Some o =>
      match o_presetKey o with
      | Some k => if String.eqb k "" then None else MAGENTIC_AGENT_PRESET_MAP !! k
      | None => None
      end
  | None => None
  end.

Definition orchestrator_metadata : obj :=
  <["source" := VStr "agent-framework"]>
    (<["magentic" :=
        VObj (<["presetKey" := VStr "orchestrator"]>
             (<["planningStrategy" := VStr "adaptive"]>
             (<["progressTracking" := VBool true]>
             (<["humanInTheLoop" := VBool false]> ∅))))]> ∅).

Definition agent_metadata (preset : option MagenticAgentPreset) : obj :=
  <["source" := VStr "agent-framework"]>
    (<["magentic" :=
        VObj (<["presetKey" := match preset with Some p => VStr (key p) | None => VNull end]>
             (<["agentRole" := VStr (str_or (agentRole <$> preset) "generalist")]>
             (<["capabilities" := strings_value (default [] (capabilities <$> preset))]>
             (<["toolIds" := strings_value (default [] (preset ≫= toolIds))]> ∅))))]> ∅).

Definition createExecutorFromNodeType (nodeType : string) (id : string)
    (label_ : option string) (options : option CreateExecutorOptions) : executor :=
  if String.eqb nodeType "function-executor" then
    {| ex_id := id;
       ex_type := "function-executor";
       ex_label := Some (str_or label_ "Function Executor");
       ex_description := Some "Execute a function as a workflow node";
       ex_metadata := None;
       ex_fields := ∅ |}
  else if String.eqb nodeType "agent-executor" then
    {| ex_id := id;
       ex_type := "agent-executor";
       ex_label := Some (str_or label_ "Agent Executor");
       ex_description := Some "Use an AI agent to process messages";
       ex_metadata := None;
       ex_fields := ∅ |}
  else if String.eqb nodeType "workflow-executor" then
    {| ex_id := id;
       ex_type := "workflow-executor";
       ex_label := Some (str_or label_ "Workflow Executor");
       ex_description := Some "Nest another workflow as an executor";
       ex_metadata := None;
       ex_fields := <["workflowId" := VStr ""]> ∅ |}
  else if String.eqb nodeType "request-info-executor" then
    {| ex_id := id;
       ex_type := "request-info-executor";
       ex_label := Some (str_or label_ "Request Info Executor");
       ex_description := Some "Gateway for external information requests";
       ex_metadata := None;
       ex_fields := <["requestType" := VStr ""]> ∅ |}
  else if String.eqb nodeType "magentic-orchestrator-executor" then
    {| ex_id := id;
       ex_type := "magentic-orchestrator-executor";
       ex_label := Some (str_or label_ "Magentic Orchestrator");
       ex_description := Some "Coordinates Magentic agents, planning and routing messages";
       ex_metadata := Some orchestrator_metadata;
       ex_fields :=
         <["planningStrategy" := VStr "adaptive"]>
           (<["progressTracking" := VBool true]>
           (<["humanInTheLoop" := VBool false]> ∅)) |}
  else if String.eqb nodeType "magentic-agent-executor" then
    let preset := lookup_preset options in
    {| ex_id := id;
       ex_type := "magentic-agent-executor";
       ex_label := Some (str_or label_ (str_or (label <$> preset) "Magentic Agent"));
       ex_description :=
         Some (str_or (description <$> preset)
                 "Specialised Magentic agent that collaborates under the orchestrator");
       ex_metadata := Some (agent_metadata preset);
       ex_fields :=
         <["agentRole" := VStr (str_or (agentRole <$> preset) "generalist")]>
           (<["capabilities" := opt_value strings_value (capabilities <$> preset)]>
           (<["systemPrompt" := opt_value VStr (systemPrompt <$> preset)]>
           (<["tools" := opt_value (λ ids, VArr (tool_reference <$> ids)) (preset ≫= toolIds)]> ∅))) |}
  else
    {| ex_id := id;
       ex_type := "executor";
       ex_label := Some (str_or label_ "Executor");
       ex_description := Some "Base executor for processing messages";
       ex_metadata := None;
       ex_fields := ∅ |}.

(** The node types with an arm of their own in [createExecutorFromNodeType]. *)
Definition known_node_types : list string :=
  [ "function-executor"; "agent-executor"; "workflow-executor";
    "request-info-executor"; "magentic-orchestrator-executor";
    "magentic-agent-executor" ].

Definition createNodeDataFromExecutorType (executorType : string) (e : executor) : node_data :=
  let payload variant etype :=
    {| d_variant := variant;
       d_handles := Some plain_handles;
       d_executor := Some e;
       d_executorType := etype;
       d_label := None;
       d_description := None;
       d_group := None;
       d_other := ∅ |} in
  if String.eqb executorType "function-executor" then payload "function-executor" None
  else if String.eqb executorType "agent-executor" then payload "agent-executor" None
  else if String.eqb executorType "magentic-agent-executor" then payload "agent-executor" None
  else if String.eqb executorType "workflow-executor" then payload "workflow-executor" None
  else if String.eqb executorType "request-info-executor" then
    payload "request-info-executor" None
  else if String.eqb executorType "magentic-orchestrator-executor" then
    payload "executor" (Some "magentic-orchestrator-executor")
  else payload "executor" (Some "executor").

(** ** Magentic scaffold ([handleAddMagenticScaffold] of the canvas page) *)

Section Scaffold.

(** [nanoid()]: the identifier returned by the [k]-th call. *)
Variable nanoid : nat → string.

(** [{ x: origin.x + radius * Math.cos(angleStep * index),
       y: origin.y + radius * Math.sin(angleStep * index) }] with
    [radius = 280] and [angleStep = 2π / count] (0 for no preset): a
    floating-point computation, kept abstract. *)
Variable circle_point : position → nat → nat → position.

(** [Map<string, Node>]: entries in insertion order; [set] on a present
    key replaces the value in place, on a fresh key appends. *)
Fixpoint map_set (id : string) (node : rf_node) (m : list (string * rf_node))
  : list (string * rf_node) :=
  match m with
  | [] => [(id, node)]
  | (k, v) :: m' =>
      if String.eqb k id then (k, node) :: m' else (k, v) :: map_set id node m'
  end.

Definition map_values (m : list (string * rf_node)) : list rf_node := m.*2.

(** [magentic?.presetKey ?? magentic?.preset ?? undefined] *)
Definition findPresetKey (node : rf_node) : value :=
  match d_executor (n_data node) with
  | Some executor =>
      match ex_metadata executor with
      | Some metadata =>
          let magentic := get metadata "magentic" in
          if nullish (prop magentic "presetKey") then
            if nullish (prop magentic "preset") then VUndefined
            else prop magentic "preset"
          else prop magentic "presetKey"
      | None => VUndefined
      end
  | None => VUndefined
  end.

Definition has_type (node : rf_node) (t : string) : bool :=
  match n_type node with
  | Some t' => String.eqb t' t
  | None => false
  end.

(** [v === s] for a string [s] *)
Definition is_string (v : value) (s : string) : bool :=
  match v with
  | VStr s' => String.eqb s' s
  | _ => false
  end.

(** [node.type === "magentic-agent-executor" && findPresetKey(node) === preset.key] *)
Definition is_preset_agent (preset : MagenticAgentPreset) (node : rf_node) : bool :=
  has_type node "magentic-agent-executor" && is_string (findPresetKey node) (key preset).

Definition preset_tools (preset : MagenticAgentPreset) : value :=
  opt_value (λ ids, VArr (tool_reference <$> ids)) (toolIds preset).

(** The executor of an agent that already exists, refreshed from the preset. *)
Definition refresh_executor (preset : MagenticAgentPreset) (e : executor) : executor :=
  {| ex_id := ex_id e;
     ex_type := ex_type e;
     ex_label := Some (label preset);
     ex_description := Some (description preset);
     ex_metadata :=
       Some (<["source" := VStr "agent-framework"]>
            (<["magentic" :=
                VObj (<["presetKey" := VStr (key preset)]>
                     (<["capabilities" := strings_value (capabilities preset)]> ∅))]>
            (default ∅ (ex_metadata e))));
     ex_fields :=
       <["tools" := preset_tools preset]>
         (<["systemPrompt" := VStr (systemPrompt preset)]>
         (<["capabilities" := strings_value (capabilities preset)]> (ex_fields e))) |}.

Definition refresh_node (preset : MagenticAgentPreset) (targetPosition : position)
    (existing : rf_node) : rf_node :=
  let data := n_data existing in
  {| n_id := n_id existing;
     n_type := n_type existing;
     n_position := targetPosition;
     n_data :=
       {| d_variant := d_variant data;
          d_handles := d_handles data;
          d_executor := refresh_executor preset <$> d_executor data;
          d_executorType := d_executorType data;
          d_label := Some (label preset);
          d_description := Some (description preset);
          d_group := d_group data;
          d_other := d_other data |} |}.

Definition new_agent_node (preset : MagenticAgentPreset) (targetPosition : position)
    (agentId : string) : rf_node :=
  let agentExecutor :=
    createExecutorFromNodeType "magentic-agent-executor" agentId (Some (label preset))
      (Some (Options None (Some (key preset)))) in
  {| n_id := agentId;
     n_type := Some "magentic-agent-executor";
     n_position := targetPosition;
     n_data := createNodeDataFromExecutorType "magentic-agent-executor" agentExecutor |}.

(** One step of [presets.map((preset, index) => ...)]: the agent node of the
    preset, the updated node map and the number of ids drawn so far. *)
Definition ensure_agent (origin_ : position) (count index : nat)
    (preset : MagenticAgentPreset) (m : list (string * rf_node)) (k : nat)
  : rf_node * list (string * rf_node) * nat :=
  let targetPosition := circle_point origin_ count index in
  match find (is_preset_agent preset) (map_values m) with
  | Some existing =>
      let updatedNode := refresh_node preset targetPosition existing in
      (updatedNode, map_set (n_id updatedNode) updatedNode m, k)
  | None =>
      let agentId := nanoid k in
      let newNode := new_agent_node preset targetPosition agentId in
      (newNode, map_set agentId newNode m, S k)
  end.

Fixpoint ensure_agents (origin_ : position) (count index : nat)
    (presets : list MagenticAgentPreset) (m : list (string * rf_node)) (k : nat)
  : list rf_node * list (string * rf_node) * nat :=
  match presets with
  | [] => ([], m, k)
  | preset :: presets =>
      let '(agent, m, k) := ensure_agent origin_ count index preset m k in
      let '(agents, m, k) := ensure_agents origin_ count (S index) presets m k in
      (agent :: agents, m, k)
  end.

Definition ensureEdge (source target : string) (st : list rf_edge * nat)
  : list rf_edge * nat :=
  let '(nextEdges, k) := st in
  if existsb (λ edge, String.eqb (re_source edge) source && String.eqb (re_target edge) target)
       nextEdges
  then (nextEdges, k)
  else (nextEdges ++ [RfEdge (nanoid k) source target (Some "animated") None], S k).

Definition ensure_agent_edges (orchestratorId : string) (st : list rf_edge * nat)
    (agentNode : rf_node) : list rf_edge * nat :=
  ensureEdge (n_id agentNode) orchestratorId (ensureEdge orchestratorId (n_id agentNode) st).

Definition new_orchestrator_node (centerPosition : position) (orchestratorId : string)
  : rf_node :=
  let orchestratorExecutor :=
    createExecutorFromNodeType "magentic-orchestrator-executor" orchestratorId
      (Some "Magentic Orchestrator") None in
  {| n_id := orchestratorId;
     n_type := Some "magentic-orchestrator-executor";
     n_position := centerPosition;
     n_data :=
       createNodeDataFromExecutorType "magentic-orchestrator-executor" orchestratorExecutor |}.

Definition with_position (p : position) (node : rf_node) : rf_node :=
  {| n_id := n_id node; n_type := n_type node; n_position := p; n_data := n_data node |}.

(** The canvas state the handler reads ([getNodes], [getEdges]) and writes
    ([setNodes], [setEdges]), with the number of ids drawn so far.
    [center] is the viewport centre, [None] when the canvas wrapper is not
    mounted (the handler then returns at once). *)
Definition handleAddMagenticScaffold (center : option position)
    (st : list rf_node * list rf_edge * nat) : list rf_node * list rf_edge * nat :=
  let '(currentNodes, currentEdges, k) := st in
  match center with
  | None => st
  | Some centerPosition =>
      let '(orchestratorNode, k) :=
        match find (λ node, has_type node "magentic-orchestrator-executor") currentNodes with
        | Some node => (node, k)
        | None => (new_orchestrator_node centerPosition (nanoid k), S k)
        end in
      let orchestratorId := n_id orchestratorNode in
      (* [position] is a required property of a node: the [?? centerPosition]
         fallback never fires *)
      let origin_ := n_position orchestratorNode in
      let presets := MAGENTIC_AGENT_PRESETS in
      let nextNodesMap := foldl (λ m node, map_set (n_id node) node m) [] currentNodes in
      let nextNodesMap :=
        map_set (n_id orchestratorNode) (with_position origin_ orchestratorNode) nextNodesMap in
      let '(agentNodes, nextNodesMap, k) :=
        ensure_agents origin_ (length presets) 0 presets nextNodesMap k in
      let '(nextEdges, k) :=
        foldl (ensure_agent_edges orchestratorId) (currentEdges, k) agentNodes in
      (map_values nextNodesMap, nextEdges, k)
  end.

(** The next [n] identifiers are new: distinct from each other and from
    the identifiers in use. *)
Definition fresh_ids (k n : nat) (taken : list string) : Prop :=
  NoDup ((nanoid <$> seq k n) ++ taken).

End Scaffold.

(** What the scaffold handler looks at in a node: its id, its type and the
    preset key found in its executor metadata. *)
Definition agent_key (node : rf_node) : option string :=
  match findPresetKey node with
  | VStr s => Some s
  | _ => None
  end.

Definition skeleton (node : rf_node) : string * option string * option string :=
  (n_id node, n_type node, agent_key node).

Definition skeleton_is_agent (preset_key : string)
    (s : string * option string * option string) : bool :=
  match s.1.2, s.2 with
  | Some t, Some a => String.eqb t "magentic-agent-executor" && String.eqb a preset_key
  | _, _ => false
  end.

Definition skeleton_is_orchestrator (s : string * option string * option string) : bool :=
  match s.1.2 with
  | Some t => String.eqb t "magentic-orchestrator-executor"
  | None => false
  end.

(** [nextEdges.some((edge) => edge.source === source && edge.target === target)] *)
Definition has_edge (source target : string) (edges : list rf_edge) : bool :=
  existsb (λ edge, String.eqb (re_source edge) source && String.eqb (re_target edge) target) edges.

(** Every orchestrator/agent pair is joined in both directions. *)
Definition agents_joined (orchestratorId : string) (agentIds : list string)
    (edges : list rf_edge) : Prop :=
  Forall (λ agentId,
            has_edge orchestratorId agentId edges = true ∧
            has_edge agentId orchestratorId edges = true) agentIds.

(** The agent found for each preset is the first node carrying the preset's
    key. *)
Definition agents_found (presets : list MagenticAgentPreset) (agents : list rf_node)
    (skeletons : list (string * option string * option string)) : Prop :=
  Forall2 (λ preset agent,
             ∃ s, find (skeleton_is_agent (key preset)) skeletons = Some s ∧
                  s.1.1 = n_id agent) presets agents.

(** The node map is keyed by node id, without repetition. *)
Definition map_keyed (m : list (string * rf_node)) : Prop :=
  m.*1 = n_id <$> m.*2 ∧ NoDup m.*1.

(** ** The codec over a heap of shared objects

    [reactFlowToWorkflow] once more, this time with the objects and arrays
    of the JavaScript heap made explicit: a value is a primitive or a
    reference, object literals and spreads allocate, property assignment
    updates the referenced object in place.  This is the model for
    questions of aliasing and mutation, which the value model above cannot
    express. *)

Module Heap.

Inductive val :=
| Undefined
| Null
| Bool (b : bool)
| Num (n : Z)
| Str (s : string)
| Ref (l : nat).

Inductive cell :=
| Object (fields : gmap string val)
| Array (items : list val).

(** Locations are indices into the heap; allocation appends. *)
Abbreviation heap := (list cell).

(** A computation reads and updates the heap and may throw. *)
Definition M (A : Type) : Type := heap → option (A * heap).

Definition ret {A} (a : A) : M A := λ h, Some (a, h).

Definition bind {A B} (m : M A) (f : A → M B) : M B :=
  λ h, match m h with
       | Some (a, h') => f a h'
       | None => None
       end.

(** [throw new TypeError(...)] *)
Definition throw {A} : M A := λ _, None.

Declare Scope heap_scope.
Delimit Scope heap_scope with heap.
Notation "'let!' x := m 'in' k" := (bind m (λ x, k))
  (at level 10, x name, m at level 100, k at level 200) : heap_scope.
Notation "'run!' m 'in' k" := (bind m (λ _, k))
  (at level 10, m at level 100, k at level 200) : heap_scope.
Local Open Scope heap_scope.

Definition alloc (c : cell) : M val := λ h, Some (Ref (length h), h ++ [c]).

Definition read (l : nat) : M cell :=
  λ h, match h !! l with
       | Some c => Some (c, h)
       | None => None
       end.

Definition write (l : nat) (c : cell) : M unit := λ h, Some (tt, <[l := c]> h).

Definition truthy (v : val) : bool :=
  match v with
  | Undefined | Null => false
  | Bool b => b
  | Num n => negb (n =? 0)%Z
  | Str s => negb (String.eqb s "")
  | Ref _ => true
  end.

(** [v === s] for a string literal [s] *)
Definition is_str (v : val) (s : string) : bool :=
  match v with
  | Str s' => String.eqb s' s
  | _ => false
  end.

(** [v.k] for a property name [k] other than an array index: reading a
    property of [undefined] or [null] throws. *)
Definition get_prop (v : val) (k : string) : M val :=
  match v with
  | Undefined | Null => throw
  | Ref l =>
      let! c := read l in
      match c with
      | Object fields => ret (default Undefined (fields !! k))
      | Array items =>
          ret (if String.eqb k "length" then Num (Z.of_nat (length items)) else Undefined)
      end
  | Str s =>
      ret (if String.eqb k "length" then Num (Z.of_nat (String.length s)) else Undefined)
  | Bool _ | Num _ => ret Undefined
  end.

(** [v?.k] *)
Definition opt_prop (v : val) (k : string) : M val :=
  match v with
  | Undefined | Null => ret Undefined
  | _ => get_prop v k
  end.

(** [v.k = x] in strict mode: assigning to a property of a primitive
    throws.  The codec assigns to plain objects only. *)
Definition set_prop (v : val) (k : string) (x : val) : M unit :=
  match v with
  | Ref l =>
      let! c := read l in
      match c with
      | Object fields => write l (Object (<[k := x]> fields))
      | Array _ => throw
      end
  | _ => throw
  end.

(** [delete v.k] *)
Definition delete_prop (v : val) (k : string) : M unit :=
  match v with
  | Ref l =>
      let! c := read l in
      match c with
      | Object fields => write l (Object (delete k fields))
      | Array _ => ret tt
      end
  | _ => throw
  end.

(** ["k" in v] for an object *)
Definition has_prop (v : val) (k : string) : M bool :=
  match v with
  | Ref l =>
      let! c := read l in
      match c with
      | Object fields => ret (bool_decide (is_Some (fields !! k)))
      | Array _ => ret (String.eqb k "length")
      end
  | _ => throw
  end.

(** [arr.push(x)] *)
Definition push (arr : val) (x : val) : M unit :=
  match arr with
  | Ref l =>
      let! c := read l in
      match c with
      | Array items => write l (Array (items ++ [x]))
      | Object _ => throw
      end
  | _ => throw
  end.

(** The elements visited by [for (const x of v)] and [v.map(...)]. *)
Definition elements (v : val) : M (list val) :=
  match v with
  | Ref l =>
      let! c := read l in
      match c with
      | Array items => ret items
      | Object _ => throw
      end
  | _ => throw
  end.

Definition index_fields (items : list val) : gmap string val :=
  list_to_map (imap (λ i x, (pretty i, x)) items).

(** The own enumerable properties copied by [{ ...v }]. *)
Definition spread (v : val) : M (gmap string val) :=
  match v with
  | Undefined | Null | Bool _ | Num _ => ret ∅
  | Str s => ret (index_fields ((λ c, Str (String c "")) <$> String.list_ascii_of_string s))
  | Ref l =>
      let! c := read l in
      match c with
      | Object fields => ret fields
      | Array items => ret (index_fields items)
      end
  end.

(** [Object.keys(v).length] for an object *)
Definition key_count (v : val) : M nat :=
  match v with
  | Ref l =>
      let! c := read l in
      match c with
      | Object fields => ret (size fields)
      | Array items => ret (length items)
      end
  | _ => throw
  end.

(** The property key of [o[v]] for a string [v]; ids are strings. *)
Definition property_key (v : val) : M string :=
  match v with
  | Str s => ret s
  | _ => throw
  end.

Fixpoint for_each {A} (f : A → M unit) (l : list A) : M unit :=
  match l with
  | [] => ret tt
  | x :: l => run! f x in for_each f l
  end.

Fixpoint map_each {A B} (f : A → M B) (l : list A) : M (list B) :=
  match l with
  | [] => ret []
  | x :: l => let! y := f x in let! ys := map_each f l in ret (y :: ys)
  end.

Definition isExecutorNodeData (data : val) : M bool :=
  let! variant := get_prop data "variant" in
  ret (is_str variant "executor" ||
       is_str variant "function-executor" ||
       is_str variant "agent-executor" ||
       is_str variant "workflow-executor" ||
       is_str variant "request-info-executor").

Definition isEdgeGroupNode (data : val) : M bool :=
  let! variant := get_prop data "variant" in
  ret (is_str variant "fan-in" || is_str variant "fan-out" || is_str variant "switch-case").

Definition nodeToExecutor (node : val) : M val :=
  let! data := get_prop node "data" in
  let! isExecutor := isExecutorNodeData data in
  if negb isExecutor then ret Null
  else
    let! executor := get_prop data "executor" in
    if truthy executor then
      (* return { ...data.executor } *)
      let! fields := spread executor in
      alloc (Object fields)
    else
      let! id := get_prop node "id" in
      let! executorType := get_prop data "executorType" in
      let! label_ := get_prop data "label" in
      let! description_ := get_prop data "description" in
      alloc (Object (<["id" := id]>
                    (<["type" := if truthy executorType then executorType else Str "executor"]>
                    (<["label" := label_]>
                    (<["description" := description_]> ∅))))).

(** The body of the first loop. *)
Definition visit_node (executors nodePositions : val) (node : val) : M unit :=
  let! id := get_prop node "id" in
  let! position_ := get_prop node "position" in
  let! k := property_key id in
  run! set_prop nodePositions k position_ in
  let! data := get_prop node "data" in
  let! isExecutor := isExecutorNodeData data in
  if isExecutor then
    let! executor := nodeToExecutor node in
    if truthy executor then
      let! metadata := get_prop executor "metadata" in
      run! (if negb (truthy metadata) then
              let! fresh_ := alloc (Object ∅) in
              set_prop executor "metadata" fresh_
            else ret tt) in
      let! metadata := get_prop executor "metadata" in
      let! position_ := get_prop node "position" in
      run! set_prop metadata "position" position_ in
      push executors executor
    else ret tt
  else ret tt.

Definition convert_edge (edge : val) : M val :=
  let! data := get_prop edge "data" in
  let! condition := opt_prop data "condition" in
  let! edgeCondition :=
    (if truthy condition then
       let! type_ := get_prop condition "type" in
       if is_str type_ "predicate" then
         let! expression := get_prop condition "expression" in
         alloc (Object (<["type" := Str "predicate"]> (<["expression" := expression]> ∅)))
       else if is_str type_ "case" then
         let! caseValue := get_prop condition "caseValue" in
         alloc (Object (<["type" := Str "case"]> (<["caseValue" := caseValue]> ∅)))
       else ret Undefined
     else ret Undefined) in
  let! id := get_prop edge "id" in
  let! source := get_prop edge "source" in
  let! target := get_prop edge "target" in
  let! copied := spread data in
  let! type_ := get_prop edge "type" in
  let! metadata := alloc (Object (<["type" := type_]> copied)) in
  alloc (Object (<["id" := id]>
                (<["source" := source]>
                (<["target" := target]>
                (<["condition" := edgeCondition]>
                (<["metadata" := metadata]> ∅)))))).

Definition nodeDataToEdgeGroup (data : val) : M val :=
  let! variant := get_prop data "variant" in
  if is_str variant "fan-in" || is_str variant "fan-out" || is_str variant "switch-case"
  then
    let! hasGroup := has_prop data "group" in
    if hasGroup then get_prop data "group" else ret Null
  else ret Null.

(** The body of the second loop. *)
Definition visit_group (edgeGroups : val) (node : val) : M unit :=
  let! data := get_prop node "data" in
  let! isGroup := isEdgeGroupNode data in
  if isGroup then
    let! group := nodeDataToEdgeGroup data in
    if truthy group then push edgeGroups group else ret tt
  else ret tt.

Definition build_metadata (now : string) (nodePositions : val) : M val :=
  let! custom := alloc (Object ∅) in
  let! metadata := alloc (Object (<["createdAt" := Str now]> (<["custom" := custom]> ∅))) in
  let! count := key_count nodePositions in
  run! (if Nat.ltb 0 count then
          let! custom := get_prop metadata "custom" in
          run! set_prop custom "nodePositions" nodePositions in
          set_prop metadata "nodePositions" nodePositions
        else ret tt) in
  let! custom := get_prop metadata "custom" in
  let! customCount := (if truthy custom then key_count custom else ret 0) in
  run! (if negb (truthy custom) || Nat.eqb customCount 0
        then delete_prop metadata "custom"
        else ret tt) in
  ret metadata.

Definition reactFlowToWorkflow (now : string) (nodes edges : val)
    (workflowId workflowName : val) : M val :=
  let workflowId := match workflowId with Undefined => Str "workflow-1" | _ => workflowId end in
  let! executors := alloc (Array []) in
  let! nodePositions := alloc (Object ∅) in
  let! nodeList := elements nodes in
  run! for_each (visit_node executors nodePositions) nodeList in
  let! edgeList := elements edges in
  let! converted := map_each convert_edge edgeList in
  let! workflowEdges := alloc (Array converted) in
  let! edgeGroups := alloc (Array []) in
  run! for_each (visit_group edgeGroups) nodeList in
  let! groupCount := key_count edgeGroups in
  let! metadata := build_metadata now nodePositions in
  alloc (Object (<["id" := workflowId]>
                (<["name" := workflowName]>
                (<["executors" := executors]>
                (<["edges" := workflowEdges]>
                (<["edgeGroups" := if Nat.ltb 0 groupCount then edgeGroups else Undefined]>
                (<["metadata" := metadata]> ∅))))))).

(** The value found by following a path of property names from [v]. *)
Fixpoint follow (h : heap) (v : val) (path : list string) : option val :=
  match path with
  | [] => Some v
  | k :: path =>
      match get_prop v k h with
      | Some (v', _) => follow h v' path
      | None => None
      end
  end.

(** The [i]-th element of the array [v]. *)
Definition element (h : heap) (v : val) (i : nat) : option val :=
  match elements v h with
  | Some (items, _) => items !! i
  | None => None
  end.

(** The value a heap value stands for, objects and arrays read through
    their references ([fuel] bounds the nesting depth). *)
Fixpoint reify (fuel : nat) (h : heap) (v : val) : option value :=
  match fuel with
  | 0 => None
  | S fuel =>
      match v with
      | Undefined => Some VUndefined
      | Null => Some VNull
      | Bool b => Some (VBool b)
      | Num n => Some (VNum n)
      | Str s => Some (VStr s)
      | Ref l =>
          match h !! l with
          | Some (Object fields) =>
              entries ← mapM (λ entry, (λ x, (entry.1, x)) <$> reify fuel h entry.2)
                             (map_to_list fields);
              Some (VObj (list_to_map entries))
          | Some (Array items) => VArr <$> mapM (reify fuel h) items
          | None => None
          end
      end
  end.

(** A canvas with one executor node whose executor carries a metadata
    object, laid out in the heap: the position (0), the metadata (1), the
    executor (2), the node payload (3), the node (4), the node list (5) and
    the empty edge list (6). *)
Definition sample_heap : heap :=
  [ Object (<["x" := Num 200]> (<["y" := Num 300]> ∅));
    Object (<["model" := Str "GPT-5"]> ∅);
    Object (<["id" := Str "executor-1"]>
           (<["type" := Str "executor"]>
           (<["metadata" := Ref 1]> ∅)));
    Object (<["variant" := Str "executor"]>
           (<["executor" := Ref 2]>
           (<["executorType" := Str "executor"]> ∅)));
    Object (<["id" := Str "executor-1"]>
           (<["type" := Str "executor"]>
           (<["position" := Ref 0]>
           (<["data" := Ref 3]> ∅))));
    Array [Ref 4];
    Array [] ].

End Heap.

(** ** Validator ([lib/workflow/export/validator], outside the sources at
    hand: only its callers are) *)

Section Validator.

(** [validateWorkflowSchema]: the structural errors of a document, one
    message each.  The extended validator runs it first and keeps its
    errors; which shapes it rejects plays no part below. *)
Variable validateSchema : workflow → list string.

(** The required type-specific fields of each executor type, e.g.
    [workflowId] for ["workflow-executor"]. *)
Variable required_fields : string → list string.

(** The structural warnings of a document; they never affect [valid]. *)
Variable structural_warnings : workflow → list string.

Inductive validation_error :=
| SchemaViolation (message : string)
| ConnectivityError (edgeId : string) (missing : list string).

Inductive type_error :=
| MissingField (executorId : string) (field : string).

Inductive connectivity_warning :=
| IsolatedExecutor (executorId : string).

Record validation_report := Report {
  valid : bool;
  errors : list validation_error;
  typeErrors : list type_error;
  warnings : list string;
  connectivityWarnings : list connectivity_warning
}.

Definition executor_ids (w : workflow) : list string := ex_id <$> w_executors w.

(** The endpoints of an edge that reference no executor of the document. *)
Definition dangling_endpoints (ids : list string) (e : base_edge) : list string :=
  filter (λ id, id ∉ ids) [e_source e; e_target e].

Definition edge_connectivity_errors (ids : list string) (e : base_edge)
  : list validation_error :=
  match dangling_endpoints ids e with
  | [] => []
  | missing => [ConnectivityError (e_id e) missing]
  end.

Definition connectivity_errors (w : workflow) : list validation_error :=
  w_edges w ≫= edge_connectivity_errors (executor_ids w).

(** An executor that no edge leaves and no edge reaches. *)
Definition is_isolated (w : workflow) (e : executor) : bool :=
  forallb (λ edge, negb (String.eqb (e_source edge) (ex_id e)) &&
                   negb (String.eqb (e_target edge) (ex_id e))) (w_edges w).

Definition isolated_warnings (w : workflow) : list connectivity_warning :=
  (λ e, IsolatedExecutor (ex_id e)) <$> filter (λ e, is_isolated w e = true) (w_executors w).

(** A required field counts as missing when absent, nullish or empty. *)
Definition field_missing (e : executor) (field : string) : bool :=
  match ex_fields e !! field with
  | None | Some VUndefined | Some VNull => true
  | Some (VStr s) => String.eqb s ""
  | Some _ => false
  end.

Definition executor_type_errors (e : executor) : list type_error :=
  MissingField (ex_id e) <$>
    filter (λ field, field_missing e field = true) (required_fields (ex_type e)).

Definition is_nil {A} (l : list A) : bool :=
  match l with
  | [] => true
  | _ => false
  end.

(** Modelled from the spec: [validateExtended] runs the schema validation
    and adds the semantic checks: a connectivity error for every edge whose
    source or target references no executor of the document, a
    connectivity warning for every isolated executor, a type error for
    every missing required field.  [valid] holds exactly when [errors] and
    [typeErrors] are both empty. *)
Definition validateExtended (w : workflow) : validation_report :=
  let errors := (SchemaViolation <$> validateSchema w) ++ connectivity_errors w in
  let typeErrors := w_executors w ≫= executor_type_errors in
  {| valid := is_nil errors && is_nil typeErrors;
     errors := errors;
     typeErrors := typeErrors;
     warnings := structural_warnings w;
     connectivityWarnings := isolated_warnings w |}.

Definition is_connectivity_error (e : validation_error) : bool :=
  match e with
  | ConnectivityError _ _ => true
  | SchemaViolation _ => false
  end.

(** The document with its edge list replaced. *)
Definition with_edges (edges : list base_edge) (w : workflow) : workflow :=
  {| w_id := w_id w;
     w_name := w_name w;
     w_version := w_version w;
     w_description := w_description w;
     w_executors := w_executors w;
     w_edges := edges;
     w_edgeGroups := w_edgeGroups w;
     w_metadata := w_metadata w |}.

End Validator.

(** ** Canvas page: library tokens, node creation, edits and history *)

Definition isEdgeGroupNodeType (nodeType : string) : bool :=
  String.eqb nodeType "fan-in" || String.eqb nodeType "fan-out" ||
  String.eqb nodeType "switch-case".

(** [value.split(sep)] for a one-character separator: the pieces between
    the separators, at least one. *)
Fixpoint split_on (sep : Ascii.ascii) (s : string) : list string :=
  match s with
  | EmptyString => [EmptyString]
  | String c s' =>
      if Ascii.eqb c sep then EmptyString :: split_on sep s'
      else match split_on sep s' with
           | piece :: pieces => String c piece :: pieces
           | [] => [String c EmptyString]
           end
  end.

(** The character [:] (code 58). *)
Definition colon : Ascii.ascii := Ascii.ascii_of_nat 58.

(** [const [baseType, preset] = value.split(":")]: the first two pieces,
    the second one [undefined] when there is no colon.  ([split] returns at
    least one piece, so [baseType] is always a string.) *)
Definition parseNodeTypeToken (value : string) : string * option string :=
  match split_on colon value with
  | baseType :: preset :: _ => (baseType, Some preset)
  | [baseType] => (baseType, None)
  | [] => (EmptyString, None)
  end.

Definition createDefaultFanInGroup (id : string) : edge_group :=
  EdgeGroup id (FanInShape [] "") (<["edges" := VArr []]> ∅).

Definition createDefaultFanOutGroup (id : string) : edge_group :=
  EdgeGroup id (FanOutShape "" [])
    (<["edges" := VArr []]> (<["broadcastMode" := VStr "parallel"]> ∅)).

Definition createDefaultSwitchCaseGroup (id : string) : edge_group :=
  EdgeGroup id (SwitchCaseShape "" []) (<["switchExpression" := VStr "message.type"]> ∅).

(** [group.sources], [group.targets] and [group.cases] *)
Definition group_sources (g : edge_group) : list string :=
  match g_shape g with
  | FanInShape sources _ => sources
  | _ => []
  end.

Definition group_targets (g : edge_group) : list string :=
  match g_shape g with
  | FanOutShape _ targets => targets
  | _ => []
  end.

Definition group_cases (g : edge_group) : list value :=
  match g_shape g with
  | SwitchCaseShape _ cases => cases
  | _ => []
  end.

(** [createEdgeGroupNode(nodeType, position)]; [suffix] is the [nanoid()]
    drawn for the id.  A node type other than the first two takes the
    switch-case arm. *)
Definition createEdgeGroupNode (nodeType : string) (p : position) (suffix : string) : rf_node :=
  let id := nodeType +:+ "-" +:+ suffix in
  if String.eqb nodeType "fan-in" then
    let group := createDefaultFanInGroup id in
    RfNode id (Some nodeType) p
      (NodeData "fan-in"
         (Some (Handles true true (Some (length (group_sources group))) None None))
         None None None None (Some group) ∅)
  else if String.eqb nodeType "fan-out" then
    let group := createDefaultFanOutGroup id in
    RfNode id (Some nodeType) p
      (NodeData "fan-out"
         (Some (Handles true true None (Some (length (group_targets group))) None))
         None None None None (Some group) ∅)
  else
    let group := createDefaultSwitchCaseGroup id in
    RfNode id (Some nodeType) p
      (NodeData "switch-case"
         (Some (Handles true true None None (Some (length (group_cases group)))))
         None None None None (Some group) ∅).

(** [presetKey ? MAGENTIC_AGENT_PRESETS.find((item) => item.key === presetKey) : undefined] *)
Definition find_preset (presetKey : option string) : option MagenticAgentPreset :=
  match presetKey with
  | Some k =>
      if String.eqb k "" then None
      else find (λ item, String.eqb (key item) k) MAGENTIC_AGENT_PRESETS
  | None => None
  end.

(** The executor arm shared by [handleDrop], [handleAddNode] and
    [handleInsertNodeOnEdge]: the executor is built by the factory with the
    label [preset?.label || `New ${baseType}`] and the options
    [{ presetKey }], and the node takes the token's base type. *)
Definition new_executor_node (baseType : string) (presetKey : option string)
    (p : position) (executorId : string) : rf_node :=
  let preset := find_preset presetKey in
  let executor :=
    createExecutorFromNodeType baseType executorId
      (Some (str_or (label <$> preset) ("New " +:+ baseType)))
      (Some (Options None presetKey)) in
  RfNode executorId (Some baseType) p (createNodeDataFromExecutorType baseType executor).

(** [Partial<BaseExecutor>]: the own properties of an update object.  A
    named property is [None] when the object does not have it and [Some v]
    when it has it with value [v] ([Some None] is a property holding
    [undefined]); [u_fields] holds the properties other than the five named
    ones. *)
Record executor_updates := Updates {
  u_id : option string;
  u_type : option string;
  u_label : option (option string);
  u_description : option (option string);
  u_metadata : option (option obj);
  u_fields : obj
}.

Definition no_updates : executor_updates := Updates None None None None None ∅.

(** [{ ...executor, ...updates }] *)
Definition apply_updates (updates : executor_updates) (e : executor) : executor :=
  {| ex_id := default (ex_id e) (u_id updates);
     ex_type := default (ex_type e) (u_type updates);
     ex_label := default (ex_label e) (u_label updates);
     ex_description := default (ex_description e) (u_description updates);
     ex_metadata := default (ex_metadata e) (u_metadata updates);
     ex_fields := u_fields updates ∪ ex_fields e |}.

(** [a ?? b] for an optional property of an update object. *)
Definition update_or (a : option (option string)) (b : option string) : option string :=
  match a with
  | Some (Some s) => Some s
  | _ => b
  end.

(** The page's own [isExecutorNode]. *)
Definition isExecutorNode (node : rf_node) : bool :=
  String.eqb (d_variant (n_data node)) "executor" ||
  String.eqb (d_variant (n_data node)) "function-executor" ||
  String.eqb (d_variant (n_data node)) "agent-executor" ||
  String.eqb (d_variant (n_data node)) "workflow-executor" ||
  String.eqb (d_variant (n_data node)) "request-info-executor".

(** The callback that [handleNodeUpdate] maps over the nodes. *)
Definition update_node (nodeId : string) (updates : executor_updates) (node : rf_node)
  : rf_node :=
  if String.eqb (n_id node) nodeId && isExecutorNode node then
    let currentData := n_data node in
    match d_executor currentData with
    | Some executor =>
        let updatedExecutor := apply_updates updates executor in
        {| n_id := n_id node;
           n_type := n_type node;
           n_position := n_position node;
           n_data :=
             {| d_variant := d_variant currentData;
                d_handles := d_handles currentData;
                d_executor := Some updatedExecutor;
                d_executorType := d_executorType currentData;
                d_label := update_or (u_label updates) (d_label currentData);
                d_description := update_or (u_description updates) (d_description currentData);
                d_group := d_group currentData;
                d_other := d_other currentData |} |}
    | None => node
    end
  else node.

(** The state of the page component: the graph, the undo history with its
    cursor, the edge under the insertion dropdown, and the number of ids
    drawn from [nanoid] so far.  Every handler runs against the state of
    the last render, which is the state it is given here. *)
Record canvas := Canvas {
  c_nodes : list rf_node;
  c_edges : list rf_edge;
  c_history : list (list rf_node * list rf_edge);
  c_historyIndex : nat;
  c_dropdown : option (string * position);
  c_ids : nat
}.

(** The state of the first render. *)
Definition initial_canvas (initialNodes : list rf_node) (initialEdges : list rf_edge)
  : canvas :=
  Canvas initialNodes initialEdges [(initialNodes, initialEdges)] 0 None 0.

Definition canUndo (c : canvas) : bool := Nat.ltb 0 (c_historyIndex c).

Definition canRedo (c : canvas) : bool :=
  Nat.ltb (c_historyIndex c) (length (c_history c) - 1).

(** [saveToHistory]: the snapshots after the cursor are cut off, the new
    one (a [structuredClone], the same value) is pushed, the last 50 are
    kept, and the cursor moves one step up to at most 49. *)
Definition saveToHistory (newNodes : list rf_node) (newEdges : list rf_edge) (c : canvas)
  : canvas :=
  let newHistory := take (S (c_historyIndex c)) (c_history c) ++ [(newNodes, newEdges)] in
  {| c_nodes := c_nodes c;
     c_edges := c_edges c;
     c_history := drop (length newHistory - 50) newHistory;
     c_historyIndex := Nat.min (S (c_historyIndex c)) 49;
     c_dropdown := c_dropdown c;
     c_ids := c_ids c |}.

Definition set_graph (nodes : list rf_node) (edges : list rf_edge) (c : canvas) : canvas :=
  {| c_nodes := nodes;
     c_edges := edges;
     c_history := c_history c;
     c_historyIndex := c_historyIndex c;
     c_dropdown := c_dropdown c;
     c_ids := c_ids c |}.

Definition set_dropdown (d : option (string * position)) (c : canvas) : canvas :=
  {| c_nodes := c_nodes c;
     c_edges := c_edges c;
     c_history := c_history c;
     c_historyIndex := c_historyIndex c;
     c_dropdown := d;
     c_ids := c_ids c |}.

Definition drawn (n : nat) (c : canvas) : canvas :=
  {| c_nodes := c_nodes c;
     c_edges := c_edges c;
     c_history := c_history c;
     c_historyIndex := c_historyIndex c;
     c_dropdown := c_dropdown c;
     c_ids := n + c_ids c |}.

Definition set_cursor (i : nat) (c : canvas) : canvas :=
  {| c_nodes := c_nodes c;
     c_edges := c_edges c;
     c_history := c_history c;
     c_historyIndex := i;
     c_dropdown := c_dropdown c;
     c_ids := c_ids c |}.

(** [onUndo] and [onRedo]: the cursor moves and the snapshot under it is
    put on the canvas.  Reading [state.nodes] of a missing snapshot throws
    a [TypeError], which is [None]. *)
Definition onUndo (c : canvas) : option canvas :=
  if canUndo c then
    let newIndex := c_historyIndex c - 1 in
    match c_history c !! newIndex with
    | Some state => Some (set_graph state.1 state.2 (set_cursor newIndex c))
    | None => None
    end
  else Some c.

Definition onRedo (c : canvas) : option canvas :=
  if canRedo c then
    let newIndex := c_historyIndex c + 1 in
    match c_history c !! newIndex with
    | Some state => Some (set_graph state.1 state.2 (set_cursor newIndex c))
    | None => None
    end
  else Some c.

(** [handleEdgeHover] *)
Definition handleEdgeHover (edgeId : string) (p : position) (c : canvas) : canvas :=
  set_dropdown (Some (edgeId, p)) c.

(** [handleNodeUpdate]: no snapshot is saved. *)
Definition handleNodeUpdate (nodeId : string) (updates : executor_updates) (c : canvas)
  : canvas :=
  set_graph (update_node nodeId updates <$> c_nodes c) (c_edges c) c.

(** [handleImport] *)
Definition handleImport (importedNodes : list rf_node) (importedEdges : list rf_edge)
    (c : canvas) : canvas :=
  set_graph importedNodes importedEdges c.

(** [onDelete] of the properties panel: the nodes are filtered, the edges
    are those of the last render. *)
Definition onDelete (nodeId : string) (c : canvas) : canvas :=
  let newNodes := filter (λ n, n_id n ≠ nodeId) (c_nodes c) in
  saveToHistory newNodes (c_edges c) (set_graph newNodes (c_edges c) c).

(** [handleNodesChangeWrapper]; [nextNodes] is the result of the library's
    [applyNodeChanges], [significant] tells whether some change is neither
    a selection nor a move. *)
Definition handleNodesChangeWrapper (nextNodes : list rf_node) (significant : bool)
    (c : canvas) : canvas :=
  let c := set_graph nextNodes (c_edges c) c in
  if significant then saveToHistory nextNodes (c_edges c) c else c.

(** [handleConnect]; [newEdges] is the result of the library's [addEdge]. *)
Definition handleConnect (newEdges : list rf_edge) (c : canvas) : canvas :=
  saveToHistory (c_nodes c) newEdges (set_graph (c_nodes c) newEdges c).

Section Page.

Variable nanoid : nat → string.

Variable circle_point : position → nat → nat → position.

(** [{ x: position.x + 50, y: position.y + 50 }], a floating-point sum. *)
Variable offset_position : position → position.

(** Modelled from the spec: the payload builders of the legacy node kinds,
    [defaultTextBlockData()], [defaultAttributeNodeData()] and
    [defaultWorkflowStepData({ label, description, content })] of [./types],
    which the page only imports. *)
Variable defaultTextBlockData : node_data.
Variable defaultAttributeNodeData : node_data.
Variable defaultWorkflowStepData : string → option string → option string → node_data.

(** The node that [handleInsertNodeOnEdge] creates for a token. *)
Definition inserted_node (baseType : string) (presetKey : option string) (p : position)
    (k : nat) : rf_node :=
  if isEdgeGroupNodeType baseType then createEdgeGroupNode baseType p (nanoid k)
  else new_executor_node baseType presetKey p (nanoid k).

(** [handleInsertNodeOnEdge]: the edge under the dropdown is replaced by a
    new node and two edges through it.  The node id is drawn first, then
    the ids of the two edges. *)
Definition handleInsertNodeOnEdge (nodeType : string) (c : canvas) : canvas :=
  match c_dropdown c with
  | None => c
  | Some (edgeId, p) =>
      match find (λ e, String.eqb (re_id e) edgeId) (c_edges c) with
      | None => set_dropdown None c
      | Some edge =>
          let '(baseType, presetKey) := parseNodeTypeToken nodeType in
          let k := c_ids c in
          let newNode := inserted_node baseType presetKey p k in
          let newNodes := c_nodes c ++ [newNode] in
          let filtered := filter (λ e, re_id e ≠ edgeId) (c_edges c) in
          let newEdges :=
            filtered ++
            [ RfEdge (nanoid (S k)) (re_source edge) (n_id newNode) (Some "animated") None;
              RfEdge (nanoid (S (S k))) (n_id newNode) (re_target edge) (Some "animated")
                None ] in
          set_dropdown None
            (saveToHistory newNodes newEdges (drawn 3 (set_graph newNodes newEdges c)))
      end
  end.

(** The node that [handleDrop] creates for a token. *)
Definition dropped_node (nds : list rf_node) (baseType : string)
    (presetKey : option string) (p : position) (k : nat) : rf_node :=
  if String.eqb baseType "textBlock" then
    RfNode (nanoid k) (Some baseType) p defaultTextBlockData
  else if String.eqb baseType "attribute" then
    RfNode (nanoid k) (Some baseType) p defaultAttributeNodeData
  else if String.eqb baseType "workflow" then
    RfNode (nanoid k) (Some baseType) p
      (defaultWorkflowStepData ("New Step " +:+ pretty (length nds + 1)) None None)
  else if isEdgeGroupNodeType baseType then createEdgeGroupNode baseType p (nanoid k)
  else new_executor_node baseType presetKey p (nanoid k).

(** [handleDrop]; [nodeType] is the dragged token and [p] the drop point in
    flow coordinates. *)
Definition handleDrop (nodeType : string) (p : position) (c : canvas) : canvas :=
  if String.eqb nodeType "" then c
  else
    let '(baseType, presetKey) := parseNodeTypeToken nodeType in
    let newNodes := c_nodes c ++ [dropped_node (c_nodes c) baseType presetKey p (c_ids c)] in
    saveToHistory newNodes (c_edges c) (drawn 1 (set_graph newNodes (c_edges c) c)).

(** The node that [handleAddNode] creates for a token. *)
Definition added_node (nds : list rf_node) (baseType : string)
    (presetKey : option string) (p : position) (k : nat) : rf_node :=
  if String.eqb baseType "workflow" then
    RfNode (nanoid k) (Some baseType) p
      (defaultWorkflowStepData ("New Step " +:+ pretty (length nds + 1))
         (Some "Added from panel")
         (Some "Start connecting this step to build out the workflow."))
  else if isEdgeGroupNodeType baseType then createEdgeGroupNode baseType p (nanoid k)
  else new_executor_node baseType presetKey p (nanoid k).

(** [handleAddNode]; [center] is the viewport centre, [None] when the
    canvas wrapper is not mounted. *)
Definition handleAddNode (nodeType : string) (center : option position) (c : canvas)
  : canvas :=
  match center with
  | None => c
  | Some centerPosition =>
      let '(baseType, presetKey) := parseNodeTypeToken nodeType in
      let newNodes :=
        c_nodes c ++ [added_node (c_nodes c) baseType presetKey centerPosition (c_ids c)] in
      saveToHistory newNodes (c_edges c) (drawn 1 (set_graph newNodes (c_edges c) c))
  end.

(** [onDuplicate] of the properties panel: [{ ...nodeToDuplicate, id: newId,
    position }], the payload object being the one of the original. *)
Definition duplicate_of (node : rf_node) (newId : string) : rf_node :=
  {| n_id := newId;
     n_type := n_type node;
     n_position := offset_position (n_position node);
     n_data := n_data node |}.

Definition onDuplicate (nodeId : string) (c : canvas) : canvas :=
  match find (λ n, String.eqb (n_id n) nodeId) (c_nodes c) with
  | Some nodeToDuplicate =>
      let newNodes := c_nodes c ++ [duplicate_of nodeToDuplicate (nanoid (c_ids c))] in
      saveToHistory newNodes (c_edges c) (drawn 1 (set_graph newNodes (c_edges c) c))
  | None => c
  end.

(** The scaffold handler on the page state; it saves no snapshot. *)
Definition addMagenticScaffold (center : option position) (c : canvas) : canvas :=
  let '(nodes, edges, k) :=
    handleAddMagenticScaffold nanoid circle_point center (c_nodes c, c_edges c, c_ids c) in
  {| c_nodes := nodes;
     c_edges := edges;
     c_history := c_history c;
     c_historyIndex := c_historyIndex c;
     c_dropdown := c_dropdown c;
     c_ids := k |}.

(** One user action on the page. *)
Inductive page_step : canvas → canvas → Prop :=
| step_drop nodeType p c : page_step c (handleDrop nodeType p c)
| step_add nodeType center c : page_step c (handleAddNode nodeType center c)
| step_hover edgeId p c : page_step c (handleEdgeHover edgeId p c)
| step_insert nodeType c : page_step c (handleInsertNodeOnEdge nodeType c)
| step_scaffold center c : page_step c (addMagenticScaffold center c)
| step_update nodeId updates c : page_step c (handleNodeUpdate nodeId updates c)
| step_delete nodeId c : page_step c (onDelete nodeId c)
| step_duplicate nodeId c : page_step c (onDuplicate nodeId c)
| step_change nextNodes significant c :
    page_step c (handleNodesChangeWrapper nextNodes significant c)
| step_connect newEdges c : page_step c (handleConnect newEdges c)
| step_import nodes edges c : page_step c (handleImport nodes edges c)
| step_undo c c' : onUndo c = Some c' → page_step c c'
| step_redo c c' : onRedo c = Some c' → page_step c c'.

End Page.

(** The history invariant: the cursor points at a snapshot and at most 50
    snapshots are kept. *)
Definition history_ok (c : canvas) : Prop :=
  c_historyIndex c < length (c_history c) ∧ length (c_history c) ≤ 50.

(** [reactFlowToWorkflow(nodes, edges, "workflow-1", "Agentic Fabric")], the
    document the page derives from its graph. *)
Definition currentWorkflow (now : string) (c : canvas) : workflow :=
  reactFlowToWorkflow now (c_nodes c) (c_edges c) (Some "workflow-1") (Some "Agentic Fabric").

(** The payload executor of every executor node carries the node's id. *)
Definition ids_consistent (nodes : list rf_node) : Prop :=
  ∀ node e, node ∈ nodes → nodeToExecutor node = Some e → ex_id e = n_id node.

(** ** Executor editors of the properties panel *)

(** [metadata.magentic ?? {}] as far as its properties are read or spread:
    the declared type of [magentic] is an object, and reading a property of
    anything else gives [undefined]. *)
Definition magentic_block (metadata : obj) : obj :=
  match get metadata "magentic" with
  | VObj magentic => magentic
  | _ => ∅
  end.

(** [mergeMetadata(executor, patch)], the same function in the agent editor
    and in the orchestrator editor: a later spread wins, so the patch
    overrides the current [magentic] entries. *)
Definition mergeMetadata (e : executor) (patch : obj) : obj :=
  let current := default ∅ (ex_metadata e) in
  let currentMagentic := magentic_block current in
  <["magentic" := VObj (patch ∪ currentMagentic)]>
    (<["source" := VStr "agent-framework"]> current).

(** The value of the preset selector of the agent editor. *)
Definition presetValue (e : executor) : value :=
  let magenticMeta := magentic_block (default ∅ (ex_metadata e)) in
  if truthy (get magenticMeta "presetKey") then get magenticMeta "presetKey"
  else
    match find (λ preset, is_string (get (ex_fields e) "agentRole") (agentRole preset))
            MAGENTIC_AGENT_PRESETS with
    | Some match_ => VStr (key match_)
    | None => VStr "custom"
    end.

(** [handlePresetChange] of the agent editor: the update object passed to
    [onChange], [None] when the handler returns without calling it. *)
Definition handlePresetChange (value : string) (e : executor) : option executor_updates :=
  if String.eqb value "custom" then
    Some {| u_id := None; u_type := None; u_label := None; u_description := None;
            u_metadata := Some (Some (mergeMetadata e (<["presetKey" := VNull]> ∅)));
            u_fields := ∅ |}
  else
    match MAGENTIC_AGENT_PRESET_MAP !! value with
    | None => None
    | Some preset =>
        Some {| u_id := None; u_type := None;
                u_label := Some (Some (label preset));
                u_description := Some (Some (description preset));
                u_metadata :=
                  Some (Some (mergeMetadata e
                    (<["presetKey" := VStr (key preset)]>
                    (<["agentRole" := VStr (agentRole preset)]>
                    (<["capabilities" := strings_value (capabilities preset)]>
                    (<["toolIds" := strings_value (default [] (toolIds preset))]> ∅))))));
                u_fields :=
                  <["agentRole" := VStr (agentRole preset)]>
                    (<["capabilities" := strings_value (capabilities preset)]>
                    (<["systemPrompt" := VStr (systemPrompt preset)]>
                    (<["tools" := preset_tools preset]> ∅))) |}
    end.

(** [handleAgentRoleChange] of the agent editor. *)
Definition handleAgentRoleChange (value : string) (e : executor) : executor_updates :=
  {| u_id := None; u_type := None; u_label := None; u_description := None;
     u_metadata := Some (Some (mergeMetadata e (<["agentRole" := VStr value]> ∅)));
     u_fields := <["agentRole" := VStr value]> ∅ |}.

(** The handlers of the orchestrator editor: the executor's own field and
    its mirror under [metadata.magentic] are written together. *)
Definition handlePlanningStrategy (value : string) (e : executor) : executor_updates :=
  {| u_id := None; u_type := None; u_label := None; u_description := None;
     u_metadata := Some (Some (mergeMetadata e (<["planningStrategy" := VStr value]> ∅)));
     u_fields := <["planningStrategy" := VStr value]> ∅ |}.

Definition handleProgressTracking (value : string) (e : executor) : executor_updates :=
  let enabled := String.eqb value "true" in
  {| u_id := None; u_type := None; u_label := None; u_description := None;
     u_metadata := Some (Some (mergeMetadata e (<["progressTracking" := VBool enabled]> ∅)));
     u_fields := <["progressTracking" := VBool enabled]> ∅ |}.

Definition handleHumanLoop (value : string) (e : executor) : executor_updates :=
  let enabled := String.eqb value "true" in
  {| u_id := None; u_type := None; u_label := None; u_description := None;
     u_metadata := Some (Some (mergeMetadata e (<["humanInTheLoop" := VBool enabled]> ∅)));
     u_fields := <["humanInTheLoop" := VBool enabled]> ∅ |}.

(** What the orchestrator editor displays. *)
Definition shown_planningStrategy (e : executor) : value :=
  if truthy (get (ex_fields e) "planningStrategy") then get (ex_fields e) "planningStrategy"
  else VStr "adaptive".

(** [executor.progressTracking !== false] *)
Definition shown_progressTracking (e : executor) : bool :=
  match get (ex_fields e) "progressTracking" with
  | VBool false => false
  | _ => true
  end.

(** [executor.humanInTheLoop === true] *)
Definition shown_humanInTheLoop (e : executor) : bool :=
  match get (ex_fields e) "humanInTheLoop" with
  | VBool true => true
  | _ => false
  end.

(** The properties panel: [selectedNode.data.executorType || executor.type] *)
Definition panel_executorType (data : node_data) (e : executor) : string :=
  str_or (d_executorType data) (ex_type e).

(** [handleNameChange] *)
Definition handleNameChange (value : string) : executor_updates :=
  {| u_id := None; u_type := None; u_label := Some (Some value); u_description := None;
     u_metadata := None; u_fields := ∅ |}.

(** [handleInstructionsChange]: the update passed to [onUpdate], [None]
    when neither branch is taken. *)
Definition handleInstructionsChange (value : string) (data : node_data) (e : executor)
  : option executor_updates :=
  let executorType := panel_executorType data e in
  if String.eqb executorType "agent-executor" ||
     String.eqb executorType "magentic-agent-executor" then
    Some {| u_id := None; u_type := None; u_label := None; u_description := None;
            u_metadata := None; u_fields := <["systemPrompt" := VStr value]> ∅ |}
  else if String.eqb executorType "magentic-orchestrator-executor" then
    Some {| u_id := None; u_type := None; u_label := None;
            u_description := Some (Some value);
            u_metadata := None; u_fields := ∅ |}
  else None.

(** [systemPrompt || instructions || executor.description ||
     "You are a helpful assistant."] *)
Definition getInstructionsValue (e : executor) : value :=
  if truthy (get (ex_fields e) "systemPrompt") then get (ex_fields e) "systemPrompt"
  else if truthy (get (ex_fields e) "instructions") then get (ex_fields e) "instructions"
  else if truthy (opt_str (ex_description e)) then opt_str (ex_description e)
  else VStr "You are a helpful assistant.".

(** ** Comma-separated lists of the agent editor

    [trim] removes the white space and line terminators of ECMAScript, a
    set of code points, so the strings of this part are sequences of UTF-16
    code units. *)

Abbreviation code_units := (list N).

Definition comma : N := 44.

Definition blank : N := 32.

(** The code units that [String.prototype.trim] strips: the [WhiteSpace]
    and [LineTerminator] productions. *)
Definition is_white_space (c : N) : bool :=
  ((9 <=? c) && (c <=? 13) || (c =? 32) || (c =? 160) || (c =? 5760) ||
   (8192 <=? c) && (c <=? 8202) || (c =? 8232) || (c =? 8233) || (c =? 8239) ||
   (c =? 8287) || (c =? 12288) || (c =? 65279))%N.

Fixpoint trim_start (s : code_units) : code_units :=
  match s with
  | c :: s' => if is_white_space c then trim_start s' else s
  | [] => []
  end.

Definition trim (s : code_units) : code_units :=
  reverse (trim_start (reverse (trim_start s))).

(** [value.split(",")] *)
Fixpoint split_units (sep : N) (s : code_units) : list code_units :=
  match s with
  | [] => [[]]
  | c :: s' =>
      if (c =? sep)%N then [] :: split_units sep s'
      else match split_units sep s' with
           | piece :: pieces => (c :: piece) :: pieces
           | [] => [[c]]
           end
  end.

(** [values.join(sep)] *)
Fixpoint join (sep : code_units) (values : list code_units) : code_units :=
  match values with
  | [] => []
  | [v] => v
  | v :: values => v ++ sep ++ join sep values
  end.

(** [Boolean(s)] for a string *)
Definition non_empty (s : code_units) : bool :=
  match s with
  | [] => false
  | _ => true
  end.

Definition toCommaSeparated (values : option (list code_units)) : code_units :=
  match values with
  | Some (v :: vs) => join [comma; blank] (v :: vs)
  | _ => []
  end.

Definition fromCommaSeparated (value : code_units) : list code_units :=
  List.filter non_empty (trim <$> split_units comma value).

(** A list entry that survives the editor unchanged: not empty, without a
    comma, without white space at either end. *)
Definition plain_entry (s : code_units) : Prop :=
  s ≠ [] ∧ (comma ∉ s) ∧ trim s = s.

(** ** Sample data for the examples *)

(** The document of the unit test for stored positions, with the map moved
    under [custom] for the first executor only. *)
Definition positioned_document : workflow :=
  {| w_id := "workflow-1";
     w_name := Some "Test Workflow";
     w_version := None;
     w_description := None;
     w_executors :=
       [ Executor "executor-1" "executor" (Some "Test Executor") None None ∅;
         Executor "executor-2" "agent-executor" (Some "Test Agent") None None ∅ ];
     w_edges := [ BaseEdge "edge-1" "executor-1" "executor-2" None None ];
     w_edgeGroups := None;
     w_metadata :=
       Some {| m_createdAt := None;
               m_custom := Some (CustomMeta (Some {[ "executor-1" := Position 100 100 ]}) ∅);
               m_nodePositions :=
                 Some (<["executor-1" := Position 7 7]> {[ "executor-2" := Position 300 100 ]});
               m_other := ∅ |} |}.

(** A legacy text-block node between an executor node and nothing else. *)
Definition legacy_node : rf_node :=
  RfNode "textBlock" (Some "textBlock") (Position 350 250)
    (NodeData "text-block" None None None None None None
       (<["title" := VStr "Creative brief"]> ∅)).

Definition executor_node_1 : rf_node :=
  RfNode "executor-1" (Some "executor") (Position 200 300)
    (NodeData "executor" (Some plain_handles)
       (Some (Executor "executor-1" "executor" None None None ∅))
       (Some "executor") None None None ∅).

(** The document of the specification's concrete scenario: executors [A] and
    [B] joined by the edge [e1]. *)
Definition scenario_document : workflow :=
  {| w_id := "workflow-1";
     w_name := Some "Scenario";
     w_version := None;
     w_description := None;
     w_executors :=
       [ Executor "A" "executor" None None None ∅;
         Executor "B" "executor" None None None ∅ ];
     w_edges := [ BaseEdge "e1" "A" "B" None None ];
     w_edgeGroups := None;
     w_metadata := None |}.



(** An identifier generator for the examples: the [k]-th id is ["agent-"]
    followed by [k] in decimal. *)
Definition sample_nanoid (k : nat) : string :=
  "agent-" +:+ pretty k.

Definition sample_circle (origin_ : position) (count index : nat) : position :=
  Position (px origin_ + 280 - 70 * Z.of_nat index) (py origin_ + 70 * Z.of_nat index).

(** The graph of the conversion unit tests: one executor node and one edge
    to an executor that is not on the canvas. *)
Definition test_nodes : list rf_node :=
  [ RfNode "executor-1" (Some "executor") (Position 100 100)
      (NodeData "executor" (Some plain_handles)
         (Some (Executor "executor-1" "executor" (Some "Test Executor") None None ∅))
         (Some "executor") None None None ∅) ].

Definition test_edges : list rf_edge :=
  [ RfEdge "edge-1" "executor-1" "executor-2" (Some "animated") None ].

(** The document of the import unit test, with its positions at the
    deprecated top level only. *)
Definition test_document : workflow :=
  {| w_id := "workflow-1";
     w_name := Some "Test Workflow";
     w_version := None;
     w_description := None;
     w_executors :=
       [ Executor "executor-1" "executor" (Some "Test Executor") None None ∅;
         Executor "executor-2" "agent-executor" (Some "Test Agent") None None
           (<["agentId" := VStr "agent-1"]> ∅);
         Executor "orch-1" "magentic-orchestrator-executor" (Some "Orchestrator") None None ∅ ];
     w_edges :=
       [ BaseEdge "edge-1" "executor-1" "executor-2" None None;
         BaseEdge "edge-2" "orch-1" "executor-2" None None ];
     w_edgeGroups := None;
     w_metadata :=
       Some {| m_createdAt := None;
               m_custom := None;
               m_nodePositions :=
                 Some (<["executor-1" := Position 100 100]>
                      (<["executor-2" := Position 300 100]>
                      {[ "orch-1" := Position 200 (-50) ]}));
               m_other := ∅ |} |}.

(** The fan-out group of the specification's scenario. *)
Definition fan_out_group : edge_group :=
  EdgeGroup "fan-out-1" (FanOutShape "A" ["B"; "C"]) (<["broadcastMode" := VStr "parallel"]> ∅).

(** ** Views of a graph used to state the page and codec properties *)

(** Where the nodes of a graph sit: id and position, in order. *)
Definition node_places (nodes : list rf_node) : list (string * position) :=
  (λ node, (n_id node, n_position node)) <$> nodes.



(** A graph with an executor node and a switch-case node, both away from
    the origin. *)
Definition placed_graph_nodes : list rf_node :=
  [ RfNode "A" (Some "executor") (Position 100 100)
      (NodeData "executor" (Some plain_handles)
         (Some (Executor "A" "executor" (Some "Test Executor") None None ∅))
         (Some "executor") None None None ∅);
    RfNode "switch-1" (Some "switch-case") (Position 40 60)
      (NodeData "switch-case" (Some (Handles true true None None (Some 0))) None None None None
         (Some (EdgeGroup "switch-1" (SwitchCaseShape "A" []) ∅))
         ∅) ].

(** [s.includes(c)] for a character [c]. *)
Fixpoint contains (c : Ascii.ascii) (s : string) : bool :=
  match s with
  | EmptyString => false
  | String c' s' => Ascii.eqb c' c || contains c s'
  end.

(** The snapshot under the history cursor. *)
Definition current_snapshot (c : canvas) : option (list rf_node * list rf_edge) :=
  c_history c !! c_historyIndex c.

(** A canvas with two executor nodes joined by one edge, after one more
    snapshot than the initial one. *)
Definition joined_nodes : list rf_node :=
  [ new_executor_node "agent-executor" None (Position 0 0) "a";
    new_executor_node "function-executor" None (Position 200 0) "b" ].

Definition joined_edges : list rf_edge :=
  [ RfEdge "e1" "a" "b" (Some "animated") None ].

Definition joined_canvas : canvas := initial_canvas joined_nodes joined_edges.

Definition sample_offset (p : position) : position :=
  Position (px p + 50) (py p + 50).

Definition sample_payload : node_data :=
  NodeData "workflow" None None None None None None ∅.

(** A string that does not begin with white space. *)
Definition starts_clean (s : code_units) : Prop :=
  match s with
  | [] => True
  | c :: _ => is_white_space c = false
  end.

(** The capabilities [plan] and [web], as code units. *)
Definition sample_capabilities : list code_units :=
  [[112; 108; 97; 110]; [119; 101; 98]]%N.
(** * Properties of the graph codec *)

Lemma collect_node_fold nodes executors positions :
  foldl collect_node (executors, positions) nodes =
  (executors ++ (nodes ≫= node_executors), foldl record_position positions nodes).
Proof.
  revert executors positions.
  induction nodes as [|node nodes IH]; intros executors positions; simpl.
  - by rewrite app_nil_r.
  - unfold node_executors at 1.
    destruct (isExecutorNodeData (n_data node)) eqn:Hexec; simpl.
    + destruct (nodeToExecutor node) as [executor|]; simpl.
      * rewrite IH. by rewrite <- app_assoc.
      * by rewrite IH.
    + by rewrite IH.
Qed.

Lemma collect_nodes_spec nodes :
  collect_nodes nodes = (nodes ≫= node_executors, foldl record_position ∅ nodes).
Proof. unfold collect_nodes. by rewrite collect_node_fold. Qed.

Lemma collect_group_fold nodes groups :
  foldl collect_group groups nodes = groups ++ (nodes ≫= node_groups).
Proof.
  revert groups.
  induction nodes as [|node nodes IH]; intros groups; simpl.
  - by rewrite app_nil_r.
  - unfold node_groups at 1, collect_group at 2.
    destruct (isEdgeGroupNode (n_data node)); simpl; [|by rewrite IH].
    destruct (nodeDataToEdgeGroup (n_data node)); simpl; rewrite IH; [|done].
    by rewrite <- app_assoc.
Qed.

Lemma collect_groups_spec nodes : collect_groups nodes = nodes ≫= node_groups.
Proof. unfold collect_groups. by rewrite collect_group_fold. Qed.

Lemma record_position_other nodes positions id :
  id ∉ n_id <$> nodes →
  foldl record_position positions nodes !! id = positions !! id.
Proof.
  revert positions.
  induction nodes as [|node nodes IH]; intros positions Hid; simpl; [done|].
  rewrite fmap_cons, not_elem_of_cons in Hid. destruct Hid as [Hne Hid].
  rewrite IH by done. unfold record_position. by rewrite lookup_insert_ne.
Qed.

Lemma record_position_last before node after positions :
  n_id node ∉ n_id <$> after →
  foldl record_position positions (before ++ node :: after) !! n_id node
  = Some (n_position node).
Proof.
  intros Hid. rewrite foldl_app. simpl.
  rewrite record_position_other by done.
  unfold record_position at 1. by rewrite lookup_insert_eq.
Qed.

Lemma record_position_size nodes positions :
  nodes ≠ [] → 0 < size (foldl record_position positions nodes).
Proof.
  revert positions.
  induction nodes as [|node nodes IH]; intros positions Hne; [done|]. simpl.
  destruct nodes as [|node' nodes].
  - simpl. unfold record_position.
    destruct (positions !! n_id node) eqn:Hlook.
    + assert (Hpos : size positions ≠ 0).
      { intros Hz. apply map_size_empty_inv in Hz. subst. by rewrite lookup_empty in Hlook. }
      rewrite map_size_insert_Some by eauto. lia.
    + rewrite map_size_insert_None by done. lia.
  - by apply IH.
Qed.

Lemma isExecutor_not_group data :
  isExecutorNodeData data = true → isEdgeGroupNode data = false.
Proof.
  unfold isExecutorNodeData, isEdgeGroupNode.
  rewrite !orb_true_iff, !String.eqb_eq.
  intros H. repeat destruct H as [H|H]; by rewrite H.
Qed.

Lemma reactFlowToWorkflow_unfold now nodes edges id name :
  reactFlowToWorkflow now nodes edges id name =
  {| w_id := default "workflow-1" id;
     w_name := name;
     w_version := None;
     w_description := None;
     w_executors := nodes ≫= node_executors;
     w_edges := edge_to_workflow <$> edges;
     w_edgeGroups := match nodes ≫= node_groups with
                     | [] => None
                     | groups => Some groups
                     end;
     w_metadata := Some (build_metadata now (collected_positions nodes)) |}.
Proof.
  unfold reactFlowToWorkflow, collected_positions.
  rewrite collect_nodes_spec, collect_groups_spec. simpl.
  by destruct (nodes ≫= node_groups).
Qed.

Lemma collected_positions_spec nodes :
  collected_positions nodes = foldl record_position ∅ nodes.
Proof. unfold collected_positions. by rewrite collect_nodes_spec. Qed.

Lemma build_metadata_some now positions :
  0 < size positions →
  build_metadata now positions =
  {| m_createdAt := Some now;
     m_custom := Some (CustomMeta (Some positions) ∅);
     m_nodePositions := Some positions;
     m_other := ∅ |}.
Proof.
  intros Hsize. unfold build_metadata.
  destruct (Nat.ltb_spec 0 (size positions)); [done | lia].
Qed.

Lemma build_metadata_none now positions :
  size positions = 0 →
  build_metadata now positions =
  {| m_createdAt := Some now;
     m_custom := None;
     m_nodePositions := None;
     m_other := ∅ |}.
Proof. intros Hsize. unfold build_metadata. by rewrite Hsize. Qed.

Lemma executorToNodeData_total e : is_Some (executorToNodeData e).
Proof. unfold executorToNodeData. repeat case_match; eauto. Qed.

Lemma executor_node_single w e :
  ∃ data, executorToNodeData e = Some data ∧
    executor_node w e =
      [ {| n_id := ex_id e;
           n_type := Some (getNodeTypeFromExecutor e);
           n_position := read_position w (ex_id e);
           n_data := data |} ].
Proof.
  destruct (executorToNodeData_total e) as [data Hdata].
  exists data. split; [done|]. unfold executor_node. by rewrite Hdata.
Qed.

Lemma executor_nodes_lookup w executors i e :
  executors !! i = Some e →
  ∃ data, executorToNodeData e = Some data ∧
    (executors ≫= executor_node w) !! i =
      Some {| n_id := ex_id e;
              n_type := Some (getNodeTypeFromExecutor e);
              n_position := read_position w (ex_id e);
              n_data := data |}.
Proof.
  revert i. induction executors as [|e' executors IH]; intros i Hi; [done|].
  destruct (executor_node_single w e') as (data' & Hdata' & Hnode').
  rewrite bind_cons, Hnode'. destruct i as [|i]; simpl in *.
  - injection Hi as ->. eauto.
  - by apply IH.
Qed.

Lemma executor_nodes_length w executors :
  length (executors ≫= executor_node w) = length executors.
Proof.
  induction executors as [|e executors IH]; [done|].
  destruct (executor_node_single w e) as (data & _ & Hnode).
  rewrite bind_cons, Hnode. simpl. by rewrite IH.
Qed.

(** *** Nodes produced by [workflowToReactFlow], read back *)

Lemma executor_payload_is_executor e data :
  executorToNodeData e = Some data →
  isExecutorNodeData data = true ∧ d_executor data = Some e.
Proof.
  unfold executorToNodeData. intros Hdata.
  repeat case_match; injection Hdata as <-; by vm_compute.
Qed.











(** *** Conditions through the edge data *)

Lemma read_condition_value c data :
  data !! "condition" = Some (condition_value c) →
  read_condition (Some data) = c.
Proof.
  intros Hdata. unfold read_condition, get. rewrite Hdata.
  by destruct c as [[expression|caseValue]|].
Qed.

Lemma edge_data_condition (metadata : obj) c :
  metadata !! "condition" = None →
  (metadata ∪ {["condition" := condition_value c]}) !! "condition" = Some (condition_value c).
Proof.
  intros Hnone. rewrite lookup_union_r by done. by rewrite lookup_singleton_eq.
Qed.

(** *** Executors and groups carried by a graph *)




Lemma stamp_position_same p e : same_executor_up_to_position e (stamp_position p e).
Proof.
  unfold same_executor_up_to_position, stamp_position. simpl.
  repeat split. by rewrite delete_insert_eq.
Qed.




Lemma edge_roundtrip_same edge :
  same_graph_edge edge (edge_to_graph (edge_to_workflow edge)).
Proof.
  unfold same_graph_edge, edge_to_graph, edge_to_workflow. simpl.
  split; [done|]. split; [done|]. split; [done|]. split.
  - set (data := default ∅ (re_data edge)).
    assert (Hread : read_condition (re_data edge) = read_condition (Some data)).
    { subst data. unfold read_condition. destruct (re_data edge); [done|].
      simpl. unfold get. by rewrite lookup_empty. }
    destruct (data !! "condition") as [v|] eqn:Hcondition.
    + rewrite Hread. unfold read_condition, get.
      rewrite (lookup_union_Some_l _ _ _ v); [by rewrite Hcondition|].
      by rewrite lookup_insert_ne.
    + apply read_condition_value, edge_data_condition.
      by rewrite lookup_insert_ne.
  - intros k Htype Hcondition.
    rewrite lookup_union_l by (by rewrite lookup_singleton_ne).
    by rewrite lookup_insert_ne.
Qed.

(** *** The codec's extraction against the entities of the specification *)








Lemma same_executor_up_to_position_refl e : same_executor_up_to_position e e.
Proof. by repeat split. Qed.


(** *** Where the nodes of a round trip sit *)








(** *** Positions through the codec, and the round trip unfolded *)

Lemma positions_lookup_last nodes positions id :
  foldl record_position positions nodes !! id =
  match last (filter (λ node, n_id node = id) nodes) with
  | Some node => Some (n_position node)
  | None => positions !! id
  end.
Proof.
  induction nodes as [|node nodes IH] using rev_ind; [done|].
  rewrite foldl_app, filter_app. simpl. unfold record_position at 1.
  rewrite filter_cons.
  case_decide as Hid; rewrite filter_nil.
  - rewrite last_snoc. subst id. by rewrite lookup_insert_eq.
  - rewrite app_nil_r, lookup_insert_ne by done. apply IH.
Qed.

Lemma positions_lookup_unique nodes node :
  NoDup (n_id <$> nodes) → node ∈ nodes →
  collected_positions nodes !! n_id node = Some (n_position node).
Proof.
  intros Hnodup Hnode.
  apply list_elem_of_split in Hnode as (before & after & ->).
  rewrite collected_positions_spec. apply record_position_last.
  rewrite fmap_app, fmap_cons in Hnodup.
  apply NoDup_app in Hnodup as (_ & _ & Hafter).
  by apply NoDup_cons in Hafter as [? _].
Qed.

Lemma read_position_exported now nodes edges id name i :
  read_position (reactFlowToWorkflow now nodes edges id name) i =
  default origin (collected_positions nodes !! i).
Proof.
  rewrite reactFlowToWorkflow_unfold.
  unfold read_position, stored_positions, custom_positions, custom_block, top_positions.
  simpl. destruct nodes as [|node nodes].
  - by rewrite build_metadata_none.
  - rewrite build_metadata_some; [done|].
    rewrite collected_positions_spec. by apply record_position_size.
Qed.

Lemma positions_of_places nodes nodes' :
  node_places nodes = node_places nodes' →
  collected_positions nodes = collected_positions nodes'.
Proof.
  rewrite !collected_positions_spec. generalize (∅ : pos_map).
  revert nodes'. induction nodes as [|node nodes IH]; intros [|node' nodes'] positions Hplaces;
    try done.
  injection Hplaces as Hid Hposition Hplaces. simpl.
  unfold record_position at 2 4. rewrite Hid, Hposition. by apply IH.
Qed.

Lemma executor_nodes_places w executors :
  node_places (executors ≫= executor_node w) =
  (λ e, (ex_id e, read_position w (ex_id e))) <$> executors.
Proof.
  unfold node_places.
  induction executors as [|e executors IH]; [done|].
  destruct (executor_node_single w e) as (data & _ & Hnode).
  rewrite bind_cons, fmap_app, Hnode, IH. done.
Qed.

Lemma group_nodes_places groups :
  node_places (groups ≫= group_node) =
  (λ g, (g_id g, origin)) <$> filter (λ g, is_routing_group g = true) groups.
Proof.
  unfold node_places.
  induction groups as [|g groups IH]; [done|].
  rewrite bind_cons, fmap_app, IH, filter_cons.
  unfold group_node, edgeGroupToNodeData, is_routing_group.
  destruct (g_shape g); by case_decide.
Qed.

Lemma workflowToReactFlow_places w :
  node_places (workflowToReactFlow w).1 =
  ((λ e, (ex_id e, read_position w (ex_id e))) <$> w_executors w) ++
  ((λ g, (g_id g, origin)) <$>
     filter (λ g, is_routing_group g = true) (default [] (w_edgeGroups w))).
Proof.
  unfold workflowToReactFlow. simpl.
  destruct (w_edgeGroups w) as [groups|]; simpl.
  - unfold node_places. rewrite fmap_app.
    fold (node_places (w_executors w ≫= executor_node w)).
    fold (node_places (groups ≫= group_node)).
    by rewrite executor_nodes_places, group_nodes_places.
  - by rewrite executor_nodes_places, app_nil_r.
Qed.





Lemma factory_node_type nodeType id label_ options :
  getNodeTypeFromExecutor (createExecutorFromNodeType nodeType id label_ options) =
  if bool_decide (nodeType ∈ known_node_types) then nodeType else "executor".
Proof.
  unfold createExecutorFromNodeType.
  repeat (case_match; [match goal with H : String.eqb _ _ = true |- _ =>
                         apply String.eqb_eq in H; subst; by vm_compute end|]).
  rewrite bool_decide_eq_false_2; [by vm_compute|].
  unfold known_node_types. intros Hin.
  repeat (apply elem_of_cons in Hin as [->|Hin]; [by rewrite String.eqb_refl in *|]).
  by apply elem_of_nil in Hin.
Qed.

(** * Properties of the magentic scaffold *)

Lemma find_fmap {A B} (f : A → B) (P : B → bool) (l : list A) :
  find P (f <$> l) = f <$> find (λ x, P (f x)) l.
Proof.
  induction l as [|x l IH]; [done|]. simpl.
  destruct (P (f x)); [done | exact IH].
Qed.

Lemma find_app_Some {A} (P : A → bool) (l l' : list A) x :
  find P l = Some x → find P (l ++ l') = Some x.
Proof.
  induction l as [|y l IH]; [done|]. simpl.
  destruct (P y); [done | exact IH].
Qed.

Lemma find_app_None {A} (P : A → bool) (l l' : list A) :
  find P l = None → find P (l ++ l') = find P l'.
Proof.
  induction l as [|y l IH]; [done|]. simpl.
  destruct (P y); [done | exact IH].
Qed.

Lemma find_Some_elem {A} (P : A → bool) (l : list A) x :
  find P l = Some x → x ∈ l ∧ P x = true.
Proof.
  induction l as [|y l IH]; [done|]. simpl.
  destruct (P y) eqn:HP.
  - intros [= ->]. split; [apply list_elem_of_here | done].
  - intros Hfind. destruct (IH Hfind) as [Hin HPx].
    split; [by apply list_elem_of_further | done].
Qed.

(** *** The node map *)

Lemma map_set_fresh id node m :
  id ∉ m.*1 → map_set id node m = m ++ [(id, node)].
Proof.
  induction m as [|[k v] m IH]; [done|]. simpl.
  rewrite not_elem_of_cons. intros [Hne Hnotin].
  destruct (String.eqb_spec k id) as [->|_]; [done|].
  by rewrite IH.
Qed.

Lemma map_set_replace node existing m :
  map_keyed m →
  existing ∈ m.*2 →
  skeleton node = skeleton existing →
  map_keyed (map_set (n_id node) node m) ∧
  skeleton <$> (map_set (n_id node) node m).*2 = skeleton <$> m.*2.
Proof.
  intros [Hkeys Hnodup] Hin Hskeleton.
  assert (Hid : n_id node = n_id existing) by (by injection Hskeleton).
  induction m as [|[k v] m IH]; [by apply elem_of_nil in Hin|].
  csimpl in *. injection Hkeys as Hk Hkeys.
  apply NoDup_cons in Hnodup as [Hnotin Hnodup].
  destruct (String.eqb_spec k (n_id node)) as [Heq|Hne].
  - assert (v = existing) as ->.
    { apply elem_of_cons in Hin as [->|Hin]; [done|].
      exfalso. apply Hnotin.
      pose proof (list_elem_of_fmap_2 n_id _ _ Hin) as Hin'.
      congruence. }
    unfold map_keyed. csimpl. split; [|by rewrite Hskeleton].
    split; [by rewrite Hkeys, Heq | by apply NoDup_cons].
  - assert (Hin' : existing ∈ m.*2).
    { apply elem_of_cons in Hin as [->|Hin]; [|done]. congruence. }
    destruct (IH Hkeys Hnodup Hin') as [[Hkeys' Hnodup'] Hskeletons].
    unfold map_keyed. csimpl. split; [|by rewrite Hskeletons].
    assert (Hids : n_id <$> (map_set (n_id node) node m).*2 = n_id <$> m.*2).
    { apply (f_equal (fmap (λ s, s.1.1))) in Hskeletons.
      by rewrite <- !(list_fmap_compose skeleton) in Hskeletons. }
    assert (Hdom : (map_set (n_id node) node m).*1 = m.*1) by congruence.
    split; [congruence|].
    apply NoDup_cons. by rewrite Hdom.
Qed.

Lemma map_set_append id node m :
  map_keyed m → n_id node = id → id ∉ m.*1 →
  map_keyed (map_set id node m) ∧
  skeleton <$> (map_set id node m).*2 = (skeleton <$> m.*2) ++ [skeleton node].
Proof.
  intros [Hkeys Hnodup] Hid Hfresh. rewrite map_set_fresh by done.
  unfold map_keyed. rewrite !fmap_app. csimpl. split; [|done]. split.
  - by rewrite Hkeys, Hid.
  - apply NoDup_app. split; [done|]. split; [|apply NoDup_singleton].
    intros x Hx Hx'. apply list_elem_of_singleton in Hx'. by subst.
Qed.

Lemma map_from_nodes nodes :
  NoDup (n_id <$> nodes) →
  foldl (λ m node, map_set (n_id node) node m) [] nodes = (λ node, (n_id node, node)) <$> nodes.
Proof.
  assert (Hgen : ∀ m,
    NoDup (m.*1 ++ (n_id <$> nodes)) →
    foldl (λ m node, map_set (n_id node) node m) m nodes
    = m ++ ((λ node, (n_id node, node)) <$> nodes)).
  { induction nodes as [|node nodes IH]; intros m Hnodup; simpl.
    - by rewrite app_nil_r.
    - rewrite map_set_fresh.
      + rewrite IH; [by rewrite <- app_assoc|].
        rewrite fmap_app. simpl. rewrite <- app_assoc. done.
      + apply NoDup_app in Hnodup as (_ & Hdisjoint & _).
        intros Hin. apply (Hdisjoint _ Hin). apply list_elem_of_here. }
  intros Hnodup. by rewrite Hgen.
Qed.

Lemma map_from_nodes_keyed nodes :
  NoDup (n_id <$> nodes) →
  map_keyed ((λ node, (n_id node, node)) <$> nodes) ∧
  ((λ node, (n_id node, node)) <$> nodes).*2 = nodes.
Proof.
  intros Hnodup.
  assert (Hvalues : ((λ node, (n_id node, node)) <$> nodes).*2 = nodes).
  { clear. induction nodes as [|node nodes IH]; [done|]. csimpl. by f_equal. }
  assert (Hkeys : ((λ node, (n_id node, node)) <$> nodes).*1 = n_id <$> nodes).
  { clear. induction nodes as [|node nodes IH]; [done|]. csimpl. by f_equal. }
  split; [|done]. unfold map_keyed. rewrite Hvalues, Hkeys. done.
Qed.

Lemma find_ext {A} (P Q : A → bool) (l : list A) :
  (∀ x, P x = Q x) → find P l = find Q l.
Proof.
  intros HPQ. induction l as [|x l IH]; [done|]. simpl.
  by rewrite HPQ, IH.
Qed.

(** *** What the handler sees of a node *)

Lemma is_preset_agent_skeleton preset node :
  is_preset_agent preset node = skeleton_is_agent (key preset) (skeleton node).
Proof.
  unfold is_preset_agent, skeleton_is_agent, skeleton, has_type, agent_key, is_string.
  simpl. destruct (n_type node) as [t|]; [|done].
  destruct (findPresetKey node); try done; by rewrite andb_false_r.
Qed.

Lemma has_type_orchestrator_skeleton node :
  has_type node "magentic-orchestrator-executor" = skeleton_is_orchestrator (skeleton node).
Proof. done. Qed.

Lemma find_agent_skeleton preset nodes :
  find (skeleton_is_agent (key preset)) (skeleton <$> nodes)
  = skeleton <$> find (is_preset_agent preset) nodes.
Proof.
  rewrite find_fmap. f_equal. apply find_ext.
  intros node. by rewrite is_preset_agent_skeleton.
Qed.

Lemma find_orchestrator_skeleton nodes :
  find skeleton_is_orchestrator (skeleton <$> nodes)
  = skeleton <$> find (λ node, has_type node "magentic-orchestrator-executor") nodes.
Proof. by rewrite find_fmap. Qed.

Lemma refresh_node_skeleton preset targetPosition existing :
  is_preset_agent preset existing = true →
  skeleton (refresh_node preset targetPosition existing) = skeleton existing.
Proof.
  unfold is_preset_agent. rewrite andb_true_iff. intros [_ Hkey].
  unfold skeleton, agent_key. simpl. do 2 f_equal.
  unfold is_string in Hkey.
  destruct (findPresetKey existing) as [| | | |s| |] eqn:Hfound; try done.
  apply String.eqb_eq in Hkey as ->.
  unfold findPresetKey in *. simpl.
  destruct (d_executor (n_data existing)) as [e|]; [|done]. simpl.
  unfold get. by rewrite lookup_insert_ne, lookup_insert_eq.
Qed.

Lemma new_agent_skeleton preset targetPosition agentId :
  preset ∈ MAGENTIC_AGENT_PRESETS →
  skeleton (new_agent_node preset targetPosition agentId)
  = (agentId, Some "magentic-agent-executor", Some (key preset)).
Proof.
  unfold MAGENTIC_AGENT_PRESETS. intros Hin.
  repeat (apply elem_of_cons in Hin as [->|Hin]; [by vm_compute|]).
  by apply elem_of_nil in Hin.
Qed.

Lemma new_orchestrator_skeleton centerPosition orchestratorId :
  skeleton (new_orchestrator_node centerPosition orchestratorId)
  = (orchestratorId, Some "magentic-orchestrator-executor", Some "orchestrator").
Proof. by vm_compute. Qed.

Lemma with_position_skeleton p node : skeleton (with_position p node) = skeleton node.
Proof. done. Qed.

(** *** Edges *)

Lemma has_edge_app source target edges edges' :
  has_edge source target (edges ++ edges')
  = has_edge source target edges || has_edge source target edges'.
Proof. unfold has_edge. apply existsb_app. Qed.

Section ScaffoldProperties.

Variable nanoid : nat → string.
Variable circle_point : position → nat → nat → position.

Lemma ensureEdge_has source target st :
  has_edge source target (ensureEdge nanoid source target st).1 = true.
Proof.
  destruct st as [edges k]. unfold ensureEdge. fold (has_edge source target edges).
  destruct (has_edge source target edges) eqn:Hhas; simpl; [done|].
  rewrite has_edge_app. simpl. by rewrite !String.eqb_refl, orb_true_r.
Qed.

Lemma ensureEdge_keeps source target source' target' st :
  has_edge source' target' st.1 = true →
  has_edge source' target' (ensureEdge nanoid source target st).1 = true.
Proof.
  destruct st as [edges k]. unfold ensureEdge. fold (has_edge source target edges).
  destruct (has_edge source target edges); simpl; [done|].
  intros Hhas. by rewrite has_edge_app, Hhas.
Qed.


Lemma ensure_agent_edges_keeps orchestratorId agents source target st :
  has_edge source target st.1 = true →
  has_edge source target (foldl (ensure_agent_edges nanoid orchestratorId) st agents).1 = true.
Proof.
  revert st. induction agents as [|agent agents IH]; intros st Hhas; [done|].
  simpl. apply IH. unfold ensure_agent_edges. by do 2 apply ensureEdge_keeps.
Qed.

Lemma ensure_agent_edges_joined orchestratorId agents st :
  agents_joined orchestratorId (n_id <$> agents)
    (foldl (ensure_agent_edges nanoid orchestratorId) st agents).1.
Proof.
  revert st. induction agents as [|agent agents IH]; intros st; [constructor|].
  csimpl. constructor; [|apply IH].
  split; apply ensure_agent_edges_keeps; unfold ensure_agent_edges.
  - apply ensureEdge_keeps, ensureEdge_has.
  - apply ensureEdge_has.
Qed.


(** *** Identifiers drawn from the generator *)

Lemma fresh_ids_head k n taken : fresh_ids nanoid k (S n) taken → nanoid k ∉ taken.
Proof.
  unfold fresh_ids. csimpl. intros Hfresh. apply NoDup_cons in Hfresh as [Hfresh _].
  intros Hin. apply Hfresh, elem_of_app. by right.
Qed.

Lemma fresh_ids_skip k n taken : fresh_ids nanoid k (S n) taken → fresh_ids nanoid k n taken.
Proof.
  unfold fresh_ids. rewrite seq_S, fmap_app. csimpl.
  intros Hfresh. apply (sublist_NoDup _ _ Hfresh).
  apply sublist_app; [|done]. by apply sublist_inserts_r.
Qed.

Lemma fresh_ids_take k n taken :
  fresh_ids nanoid k (S n) taken → fresh_ids nanoid (S k) n (taken ++ [nanoid k]).
Proof.
  unfold fresh_ids. csimpl. intros Hfresh.
  refine (proj1 (NoDup_Permutation_proper _ _ _) Hfresh).
  rewrite (assoc app). by rewrite <- Permutation_cons_append.
Qed.

Lemma skeleton_keys m m' :
  map_keyed m → map_keyed m' →
  skeleton <$> m'.*2 = skeleton <$> m.*2 → m'.*1 = m.*1.
Proof.
  intros [Hkeys _] [Hkeys' _] Hskeletons. rewrite Hkeys', Hkeys.
  apply (f_equal (fmap (λ s, s.1.1))) in Hskeletons.
  by rewrite <- !(list_fmap_compose skeleton) in Hskeletons.
Qed.

(** *** The agents of the presets *)

Lemma agents_found_app presets agents skeletons ext :
  agents_found presets agents skeletons →
  agents_found presets agents (skeletons ++ ext).
Proof.
  unfold agents_found. intros Hfound. eapply Forall2_impl; [exact Hfound|].
  intros preset agent (s & Hfind & Hid). exists s.
  split; [by apply find_app_Some | done].
Qed.


(** A first application: agents are found or created under new ids; the
    map only grows at its end. *)
Lemma ensure_agents_fresh origin_ count index presets m k agents m' k' :
  presets ⊆ MAGENTIC_AGENT_PRESETS →
  map_keyed m →
  fresh_ids nanoid k (length presets) m.*1 →
  ensure_agents nanoid circle_point origin_ count index presets m k = (agents, m', k') →
  map_keyed m' ∧
  (∃ ext, skeleton <$> m'.*2 = (skeleton <$> m.*2) ++ ext) ∧
  agents_found presets agents (skeleton <$> m'.*2).
Proof.
  revert index m k agents m' k'.
  induction presets as [|preset presets IH];
    intros index m k agents m' k' Hpresets Hkeyed Hfresh.
  - simpl. intros [= <- <- <-]. split; [done|]. split; [|constructor].
    exists []. by rewrite app_nil_r.
  - assert (Hpreset : preset ∈ MAGENTIC_AGENT_PRESETS).
    { apply Hpresets, list_elem_of_here. }
    assert (Hrest : presets ⊆ MAGENTIC_AGENT_PRESETS).
    { intros p Hp. by apply Hpresets, list_elem_of_further. }
    simpl. unfold ensure_agent, map_values.
    pose proof (find_agent_skeleton preset m.*2) as Hsk.
    destruct (find (is_preset_agent preset) m.*2) as [existing|] eqn:Hfind.
    + apply find_Some_elem in Hfind as [Hin Hmatch].
      pose proof (refresh_node_skeleton preset (circle_point origin_ count index)
                    existing Hmatch) as Hsame.
      destruct (map_set_replace _ _ m Hkeyed Hin Hsame) as [Hkeyed1 Hsk1].
      set (agent := refresh_node _ _ existing) in *.
      set (m1 := map_set _ _ m) in *.
      assert (Hfresh1 : fresh_ids nanoid k (length presets) m1.*1).
      { rewrite (skeleton_keys m m1) by done. by apply fresh_ids_skip. }
      destruct (ensure_agents nanoid circle_point origin_ count (S index) presets m1 k)
        as [[agents1 m2] k2] eqn:Hrun.
      intros [= <- <- <-].
      destruct (IH _ _ _ _ _ _ Hrest Hkeyed1 Hfresh1 Hrun) as (Hkeyed2 & [ext Hext] & Hfound).
      split; [done|]. split; [exists ext; by rewrite Hext, Hsk1|].
      constructor; [|done].
      exists (skeleton existing). rewrite Hext, Hsk1. split; [|by rewrite <- Hsame].
      apply find_app_Some. rewrite Hsk. done.
    + set (agent := new_agent_node preset _ (nanoid k)) in *.
      pose proof (new_agent_skeleton preset (circle_point origin_ count index)
                    (nanoid k) Hpreset) as Hnew.
      fold agent in Hnew.
      destruct (map_set_append (nanoid k) agent m Hkeyed eq_refl
                  (fresh_ids_head _ _ _ Hfresh)) as [Hkeyed1 Hsk1].
      assert (Hfresh1 : fresh_ids nanoid (S k) (length presets)
                          (map_set (nanoid k) agent m).*1).
      { rewrite map_set_fresh by (by eapply fresh_ids_head).
        rewrite fmap_app. by apply fresh_ids_take. }
      set (m1 := map_set _ _ m) in *.
      destruct (ensure_agents nanoid circle_point origin_ count (S index) presets m1 (S k))
        as [[agents1 m2] k2] eqn:Hrun.
      intros [= <- <- <-].
      destruct (IH _ _ _ _ _ _ Hrest Hkeyed1 Hfresh1 Hrun) as (Hkeyed2 & [ext Hext] & Hfound).
      split; [done|]. split.
      { exists ([skeleton agent] ++ ext). by rewrite Hext, Hsk1, <- app_assoc. }
      constructor; [|done].
      exists (skeleton agent). rewrite Hext, Hsk1. split; [|done].
      apply find_app_Some. rewrite find_app_None by (by rewrite Hsk).
      simpl. rewrite Hnew. unfold skeleton_is_agent. simpl.
      by rewrite String.eqb_refl.
Qed.



(** *** The handler *)

Local Arguments ensure_agents : simpl never.
Local Arguments MAGENTIC_AGENT_PRESETS : simpl never.
Local Arguments length : simpl never.

(** After a first application the graph is scaffolded: node ids are
    unique, an orchestrator is found, every preset has its agent and every
    agent is joined to the orchestrator in both directions. *)
Lemma scaffold_first center nodes edges k nodes1 edges1 k1 :
  fresh_ids nanoid k (S (length MAGENTIC_AGENT_PRESETS)) (n_id <$> nodes) →
  handleAddMagenticScaffold nanoid circle_point (Some center) (nodes, edges, k)
    = (nodes1, edges1, k1) →
  NoDup (n_id <$> nodes1) ∧
  ∃ o agents,
    find skeleton_is_orchestrator (skeleton <$> nodes1) = Some o ∧
    agents_found MAGENTIC_AGENT_PRESETS agents (skeleton <$> nodes1) ∧
    agents_joined o.1.1 (n_id <$> agents) edges1.
Proof.
  intros Hfresh.
  assert (Hnodup : NoDup (n_id <$> nodes)).
  { unfold fresh_ids in Hfresh. by apply NoDup_app in Hfresh as (_ & _ & ?). }
  unfold handleAddMagenticScaffold.
  rewrite map_from_nodes by done.
  destruct (map_from_nodes_keyed nodes Hnodup) as [Hkeyed0 Hvalues0].
  set (m0 := (λ node, (n_id node, node)) <$> nodes) in *.
  assert (Hkeys0 : m0.*1 = n_id <$> nodes).
  { pose proof Hkeyed0 as [Hk _]. by rewrite Hk, Hvalues0. }
  pose proof (find_orchestrator_skeleton nodes) as Horch.
  destruct (find (λ node, has_type node "magentic-orchestrator-executor") nodes)
    as [found|] eqn:Hfind.
  - apply find_Some_elem in Hfind as [Hin _]. rewrite <- Hvalues0 in Hin.
    destruct (map_set_replace (with_position (n_position found) found) found m0
                Hkeyed0 Hin eq_refl) as [Hkeyed1 Hsk1].
    simpl in Hkeyed1, Hsk1. simpl.
    set (m1 := map_set (n_id found) _ m0) in *.
    assert (Hfresh1 : fresh_ids nanoid k (length MAGENTIC_AGENT_PRESETS) m1.*1).
    { rewrite (skeleton_keys m0 m1), Hkeys0 by done. by apply fresh_ids_skip. }
    destruct (ensure_agents nanoid circle_point (n_position found)
                (length MAGENTIC_AGENT_PRESETS) 0 MAGENTIC_AGENT_PRESETS m1 k)
      as [[agents m2] k2] eqn:Hrun.
    destruct (ensure_agents_fresh _ _ _ _ _ _ _ _ _ (reflexivity _) Hkeyed1 Hfresh1 Hrun)
      as (Hkeyed2 & [ext Hext] & Hfound).
    destruct (foldl (ensure_agent_edges nanoid (n_id found)) (edges, k2) agents)
      as [edges' k'] eqn:Hedges.
    intros [= <- <- <-]. unfold map_values.
    split; [pose proof Hkeyed2 as [Hk2 ?]; by rewrite <- Hk2|].
    exists (skeleton found), agents. split; [|split; [done|]].
    + rewrite Hext, Hsk1, Hvalues0. by apply find_app_Some.
    + pose proof (ensure_agent_edges_joined (n_id found) agents (edges, k2)) as Hjoined.
      by rewrite Hedges in Hjoined.
  - set (orchestrator := new_orchestrator_node center (nanoid k)).
    assert (Hfreshk : nanoid k ∉ m0.*1).
    { rewrite Hkeys0. by eapply fresh_ids_head. }
    destruct (map_set_append (nanoid k)
                (with_position (n_position orchestrator) orchestrator) m0
                Hkeyed0 eq_refl Hfreshk) as [Hkeyed1 Hsk1].
    simpl in Hkeyed1, Hsk1. simpl.
    assert (Hfresh1 : fresh_ids nanoid (S k) (length MAGENTIC_AGENT_PRESETS)
                        (map_set (nanoid k) (with_position center orchestrator) m0).*1).
    { rewrite map_set_fresh by done. rewrite fmap_app, Hkeys0.
      by apply fresh_ids_take. }
    set (m1 := map_set (nanoid k) (with_position _ orchestrator) _) in *.
    destruct (ensure_agents nanoid circle_point center
                (length MAGENTIC_AGENT_PRESETS) 0 MAGENTIC_AGENT_PRESETS m1 (S k))
      as [[agents m2] k2] eqn:Hrun.
    destruct (ensure_agents_fresh _ _ _ _ _ _ _ _ _ (reflexivity _) Hkeyed1 Hfresh1 Hrun)
      as (Hkeyed2 & [ext Hext] & Hfound).
    destruct (foldl (ensure_agent_edges nanoid (nanoid k)) (edges, k2) agents)
      as [edges' k'] eqn:Hedges.
    intros [= <- <- <-]. unfold map_values.
    split; [pose proof Hkeyed2 as [Hk2 ?]; by rewrite <- Hk2|].
    exists (skeleton orchestrator), agents. split; [|split; [done|]].
    + rewrite Hext, Hsk1, Hvalues0.
      apply find_app_Some. rewrite find_app_None by (by rewrite Horch).
      done.
    + pose proof (ensure_agent_edges_joined (nanoid k) agents (edges, k2)) as Hjoined.
      by rewrite Hedges in Hjoined.
Qed.


End ScaffoldProperties.

(** * The unit tests of the conversion module, replayed *)

Example test_converts_graph :
  let w := reactFlowToWorkflow "2025-01-01T00:00:00.000Z" test_nodes test_edges
             (Some "workflow-1") (Some "Test Workflow") in
  w_id w = "workflow-1" ∧
  w_name w = Some "Test Workflow" ∧
  ex_id <$> w_executors w = ["executor-1"] ∧
  (λ e, (e_source e, e_target e)) <$> w_edges w = [("executor-1", "executor-2")].
Proof. by vm_compute. Qed.

Example test_preserves_positions :
  let w := reactFlowToWorkflow "2025-01-01T00:00:00.000Z" test_nodes [] (Some "workflow-1") None in
  (top_positions w ≫= λ positions, positions !! "executor-1") = Some (Position 100 100).
Proof. by vm_compute. Qed.

Example test_default_workflow_id :
  w_id (reactFlowToWorkflow "2025-01-01T00:00:00.000Z" [] [] None None) = "workflow-1".
Proof. by vm_compute. Qed.

Example test_converts_document :
  let graph := workflowToReactFlow test_document in
  n_id <$> graph.1 = ["executor-1"; "executor-2"; "orch-1"] ∧
  n_type <$> graph.1 =
    [Some "executor"; Some "agent-executor"; Some "magentic-orchestrator-executor"] ∧
  n_position <$> graph.1 = [Position 100 100; Position 300 100; Position 200 (-50)] ∧
  (λ e, (re_source e, re_target e, re_type e)) <$> graph.2 =
    [("executor-1", "executor-2", Some "animated"); ("orch-1", "executor-2", Some "animated")].
Proof. by vm_compute. Qed.

Example test_missing_positions_default :
  n_position <$> (workflowToReactFlow scenario_document).1 = [origin; origin].
Proof. by vm_compute. Qed.

Example test_node_data_variants :
  let variant t := d_variant (createNodeDataFromExecutorType t (Executor "e" t None None None ∅)) in
  variant "function-executor" = "function-executor" ∧
  variant "agent-executor" = "agent-executor" ∧
  variant "magentic-agent-executor" = "agent-executor" ∧
  variant "magentic-orchestrator-executor" = "executor" ∧
  variant "workflow-executor" = "workflow-executor" ∧
  variant "request-info-executor" = "request-info-executor".
Proof. by vm_compute. Qed.

(** The specification's scenario: a fan-out group converted to a graph node
    and back is the same group. *)
Example test_fan_out_roundtrip :
  group_node fan_out_group ≫= node_groups = [fan_out_group].
Proof. by vm_compute. Qed.

(** * Claims about the graph codec *)

(** C3 fails as stated for the reader: the preference between the two
    position maps is not taken executor by executor.  In the sample
    document [custom.nodePositions] exists and records the first executor
    only; the second executor is recorded at (300, 100) in the top-level
    map, which is where a lookup of its id in [custom] first and in the
    top-level map next finds it, yet its node is placed at the origin. *)
Lemma C3_counterexample :
  ∃ e node,
    w_executors positioned_document !! 1 = Some e ∧
    (workflowToReactFlow positioned_document).1 !! 1 = Some node ∧
    n_id node = ex_id e ∧
    (custom_positions positioned_document ≫= (.!! ex_id e)) = None ∧
    (top_positions positioned_document ≫= (.!! ex_id e)) = Some (Position 300 100) ∧
    position_by_executor positioned_document (ex_id e) = Position 300 100 ∧
    n_position node = origin.
Proof. eexists _, _. by repeat split. Qed.

(** C3, amended.  [reactFlowToWorkflow] writes the collected position map
    to both [metadata.custom.nodePositions] and the deprecated top-level
    [metadata.nodePositions], and writes neither (leaving no [custom] block)
    when the graph has no node; this for a graph none of whose nodes is
    named [__proto__], a name under which the plain object that collects
    the positions records nothing.  [workflowToReactFlow] chooses one map
    for the whole document, [metadata.custom.nodePositions] when it exists
    and the top-level [metadata.nodePositions] otherwise, and gives the
    node of every executor the position found under the executor's id in
    that map, and the origin when the map has no entry for the id or when
    there is no map; this for an executor id that names no member of
    [Object.prototype], which a lookup in a plain object would find
    instead of nothing. *)
Theorem C3_positions_written_to_both_read_custom_first :
  (∀ now nodes edges id name,
     positions_writable nodes →
     let w := reactFlowToWorkflow now nodes edges id name in
     match nodes with
     | [] => custom_block w = None ∧ top_positions w = None
     | _ =>
         custom_positions w = Some (collected_positions nodes) ∧
         top_positions w = Some (collected_positions nodes)
     end) ∧
  (∀ w i e,
     w_executors w !! i = Some e →
     ordinary_name (ex_id e) →
     ∃ node, (workflowToReactFlow w).1 !! i = Some node ∧
       n_id node = ex_id e ∧
       n_position node =
         match custom_positions w with
         | Some custom => default origin (custom !! ex_id e)
         | None =>
             match top_positions w with
             | Some top => default origin (top !! ex_id e)
             | None => origin
             end
         end).
Proof.
  split.
  - intros now nodes edges id name _. simpl. rewrite reactFlowToWorkflow_unfold.
    unfold custom_positions, custom_block, top_positions. simpl.
    destruct nodes as [|node nodes].
    + by rewrite build_metadata_none.
    + rewrite build_metadata_some; [done|].
      rewrite collected_positions_spec. by apply record_position_size.
  - intros w i e He _.
    destruct (executor_nodes_lookup w _ _ _ He) as (data & _ & Hnode).
    eexists. split.
    + unfold workflowToReactFlow. simpl.
      destruct (w_edgeGroups w); [|exact Hnode].
      apply lookup_app_l_Some, Hnode.
    + split; [done|]. simpl. unfold read_position, stored_positions.
      by destruct (custom_positions w).
Qed.

Lemma C3_positions_written_to_both_read_custom_first_witness :
  (custom_positions
     (reactFlowToWorkflow "2025-01-01T00:00:00.000Z" test_nodes [] (Some "workflow-1") None)
   = Some (collected_positions test_nodes)) ∧
  ∃ node1,
    (workflowToReactFlow positioned_document).1 !! 0 = Some node1 ∧
    n_position node1 = Position 100 100.
Proof.
  destruct C3_positions_written_to_both_read_custom_first as [Hwrite Hread].
  split.
  - refine (proj1 (Hwrite "2025-01-01T00:00:00.000Z" test_nodes [] (Some "workflow-1") None
                     _)).
    unfold positions_writable. apply (bool_decide_unpack _). by vm_compute.
  - destruct (Hread positioned_document 0 _ eq_refl) as (node1 & Hnode1 & _ & Hposition1).
    + unfold ordinary_name. apply (bool_decide_unpack _). by vm_compute.
    + exists node1. split; [exact Hnode1 | exact Hposition1].
Defined.

(** C10 fails as stated: what the document records under the id of a
    dropped node is the position of the last node with that id.  Of two
    legacy nodes with the same id, the first one at (350, 250) and the
    second one at (1, 2), the document records (1, 2) in both maps. *)
Lemma C10_counterexample :
  let first := legacy_node in
  let second := with_position (Position 1 2) legacy_node in
  let w := reactFlowToWorkflow "2025-01-01T00:00:00.000Z" [first; second] []
             (Some "workflow-1") None in
  isExecutorNodeData (n_data first) = false ∧
  isEdgeGroupNode (n_data first) = false ∧
  w_executors w = [] ∧
  (custom_positions w ≫= (.!! n_id first)) = Some (Position 1 2) ∧
  (top_positions w ≫= (.!! n_id first)) = Some (Position 1 2) ∧
  n_position first ≠ Position 1 2.
Proof. by repeat split. Qed.

(** C10, amended.  A graph node whose payload is neither an executor
    payload nor an edge-group payload adds no executor and no edge group to
    the document (the document has the executors and groups of the graph
    without that node), yet its position is recorded under its id in both
    position maps of the document, provided that no later node of the graph
    reuses the id and that the id is not [__proto__], a name under which
    the plain object that collects the positions records nothing. *)
Theorem C10_other_payload_dropped_position_recorded
    now before node after edges id name :
  isExecutorNodeData (n_data node) = false →
  isEdgeGroupNode (n_data node) = false →
  n_id node ≠ "__proto__" →
  n_id node ∉ n_id <$> after →
  let w := reactFlowToWorkflow now (before ++ node :: after) edges id name in
  let w' := reactFlowToWorkflow now (before ++ after) edges id name in
  w_executors w = w_executors w' ∧
  w_edgeGroups w = w_edgeGroups w' ∧
  ∃ positions,
    custom_positions w = Some positions ∧
    top_positions w = Some positions ∧
    positions !! n_id node = Some (n_position node).
Proof.
  intros Hexec Hgroup _ Hid w w'. subst w w'.
  rewrite !reactFlowToWorkflow_unfold. simpl.
  rewrite !bind_app, !bind_cons.
  unfold node_executors at 2. unfold node_groups at 2.
  rewrite Hexec, Hgroup. simpl.
  split; [done|]. split; [done|].
  exists (collected_positions (before ++ node :: after)).
  unfold custom_positions, custom_block, top_positions. simpl.
  rewrite build_metadata_some.
  - simpl. split; [done|]. split; [done|].
    rewrite collected_positions_spec. by apply record_position_last.
  - rewrite collected_positions_spec. apply record_position_size.
    by destruct before.
Qed.

Lemma C10_other_payload_dropped_position_recorded_witness :
  let w := reactFlowToWorkflow "2025-01-01T00:00:00.000Z"
             ([executor_node_1] ++ legacy_node :: []) [] (Some "workflow-1") None in
  length (w_executors w) = 1 ∧
  w_edgeGroups w = None ∧
  ∃ positions,
    custom_positions w = Some positions ∧
    top_positions w = Some positions ∧
    positions !! "textBlock" = Some (Position 350 250).
Proof.
  destruct (C10_other_payload_dropped_position_recorded
              "2025-01-01T00:00:00.000Z" [executor_node_1] legacy_node [] []
              (Some "workflow-1") None)
    as (Hexecutors & Hgroups & Hpositions).
  - reflexivity.
  - reflexivity.
  - discriminate.
  - apply not_elem_of_nil.
  - split; [exact (f_equal length Hexecutors)|]. split; [exact Hgroups|].
    exact Hpositions.
Defined.



(** * Claims about the executor factory *)

(** The unit tests of the factory. *)
Example factory_function_executor :
  let e := createExecutorFromNodeType "function-executor" "test-id" (Some "Test Function") None in
  ex_type e = "function-executor" ∧ ex_id e = "test-id" ∧ ex_label e = Some "Test Function".
Proof. by vm_compute. Qed.

Example factory_planner_preset :
  let e := createExecutorFromNodeType "magentic-agent-executor" "agent-role" None
             (Some (Options None (Some "planner"))) in
  ex_type e = "magentic-agent-executor" ∧
  get (ex_fields e) "agentRole" = VStr "planner" ∧
  ∃ caps, get (ex_fields e) "capabilities" = VArr caps ∧ VStr "planning" ∈ caps.
Proof.
  simpl. split; [done|]. split; [by vm_compute|].
  eexists. split; [by vm_compute|]. apply list_elem_of_here.
Qed.

Example factory_unknown_type :
  ex_type (createExecutorFromNodeType "unknown-type" "default-1" None None) = "executor".
Proof. by vm_compute. Qed.

(** C4. [createExecutorFromNodeType] is a total function: it returns an
    executor for every node-type string, label and option block.  The
    executor always carries the supplied id, and its type is the generic
    base type ["executor"] whenever the node type is outside the known set. *)
Theorem C4_factory_total_id_and_base_type nodeType id label_ options :
  ex_id (createExecutorFromNodeType nodeType id label_ options) = id ∧
  (nodeType ∉ known_node_types →
   ex_type (createExecutorFromNodeType nodeType id label_ options) = "executor").
Proof.
  unfold createExecutorFromNodeType, known_node_types.
  split.
  - by repeat case_match.
  - intros Hunknown.
    repeat (case_match;
            [match goal with
             | H : String.eqb _ _ = true |- _ =>
                 apply String.eqb_eq in H; subst; exfalso; apply Hunknown;
                 repeat first [apply list_elem_of_here | apply list_elem_of_further]
             end|]).
    done.
Qed.

Lemma C4_factory_total_id_and_base_type_witness :
  ex_id (createExecutorFromNodeType "textBlock" "n1" None None) = "n1" ∧
  ex_type (createExecutorFromNodeType "textBlock" "n1" None None) = "executor".
Proof.
  destruct (C4_factory_total_id_and_base_type "textBlock" "n1" None None) as [Hid Htype].
  split; [exact Hid|]. apply Htype.
  unfold known_node_types. intros Hin.
  repeat (apply elem_of_cons in Hin as [Hin|Hin]; [discriminate|]).
  by apply elem_of_nil in Hin.
Defined.

(** * Claims about the round trips *)







(** * Claims about the magentic scaffold *)

(** On an empty canvas the handler creates the orchestrator, one agent per
    preset and two edges per agent. *)
Example scaffold_empty_canvas :
  let result :=
    handleAddMagenticScaffold sample_nanoid sample_circle (Some origin) ([], [], 0) in
  n_type <$> result.1.1 =
    [ Some "magentic-orchestrator-executor"; Some "magentic-agent-executor";
      Some "magentic-agent-executor"; Some "magentic-agent-executor";
      Some "magentic-agent-executor" ] ∧
  agent_key <$> result.1.1 =
    [ Some "orchestrator"; Some "planner"; Some "web"; Some "coder"; Some "critic" ] ∧
  length result.1.2 = 8.
Proof. by vm_compute. Qed.




(** * Claims about sharing and mutation *)

(** On the sample canvas the heap model and the value model agree on the
    metadata of the converted executor. *)
Example heap_model_agrees_on_sample :
  ∃ document h',
    Heap.reactFlowToWorkflow "2025-01-01T00:00:00.000Z"
      (Heap.Ref 5) (Heap.Ref 6) (Heap.Str "workflow-1") Heap.Undefined Heap.sample_heap
    = Some (document, h') ∧
    Heap.reify 3 h' (Heap.Ref 1) =
    VObj <$> ex_metadata
      (stamp_position (Position 200 300)
         (Executor "executor-1" "executor" None None
            (Some (<["model" := VStr "GPT-5"]> ∅)) ∅)).
Proof. eexists _, _. split; by vm_compute. Qed.

(** C9, evaluated on a canvas with one executor node whose executor carries
    a metadata object.  The conversion succeeds; afterwards the metadata
    object of the input payload (location 1) has gained a [position] entry,
    so the input node is not left unchanged; the first executor of the
    returned document refers to that same metadata object, and the entry
    refers to the position object of the input node (location 0), so the
    document shares mutable nested objects with its input. *)
Theorem C9_input_metadata_mutated_and_shared :
  ∃ document h',
    Heap.reactFlowToWorkflow "2025-01-01T00:00:00.000Z"
      (Heap.Ref 5) (Heap.Ref 6) (Heap.Str "workflow-1") Heap.Undefined Heap.sample_heap
    = Some (document, h') ∧
    Heap.follow Heap.sample_heap (Heap.Ref 4) ["data"; "executor"; "metadata"; "position"]
    = Some Heap.Undefined ∧
    Heap.follow h' (Heap.Ref 4) ["data"; "executor"; "metadata"; "position"]
    = Some (Heap.Ref 0) ∧
    Heap.follow h' (Heap.Ref 4) ["data"; "executor"; "metadata"] = Some (Heap.Ref 1) ∧
    ∃ executors executor,
      Heap.follow h' document ["executors"] = Some executors ∧
      Heap.element h' executors 0 = Some executor ∧
      executor ≠ Heap.Ref 2 ∧
      Heap.follow h' executor ["metadata"] = Some (Heap.Ref 1) ∧
      Heap.follow h' document ["metadata"; "nodePositions"; "executor-1"] = Some (Heap.Ref 0).
Proof.
  eexists _, _. split; [by vm_compute|].
  split; [by vm_compute|]. split; [by vm_compute|]. split; [by vm_compute|].
  eexists _, _. split; [by vm_compute|]. split; [by vm_compute|].
  split; [discriminate|]. split; by vm_compute.
Qed.

(** * Claims about the validator *)

Section ValidatorProperties.

Variable validateSchema : workflow → list string.
Variable required_fields : string → list string.
Variable structural_warnings : workflow → list string.

Lemma filter_connectivity_schema messages :
  filter (λ e, is_connectivity_error e = true) (SchemaViolation <$> messages) = [].
Proof. by induction messages. Qed.

Lemma filter_connectivity_edge ids e :
  filter (λ e, is_connectivity_error e = true) (edge_connectivity_errors ids e)
  = edge_connectivity_errors ids e.
Proof. unfold edge_connectivity_errors. by destruct (dangling_endpoints ids e). Qed.

Lemma filter_connectivity_edges ids edges :
  filter (λ e, is_connectivity_error e = true) (edges ≫= edge_connectivity_errors ids)
  = edges ≫= edge_connectivity_errors ids.
Proof.
  induction edges as [|e edges IH]; [done|].
  by rewrite bind_cons, filter_app, filter_connectivity_edge, IH.
Qed.

Lemma valid_no_connectivity_errors w :
  valid (validateExtended validateSchema required_fields structural_warnings w) = true →
  connectivity_errors w = [].
Proof.
  unfold validateExtended. simpl. rewrite andb_true_iff. intros [Herrors _].
  destruct (validateSchema w); [|done]. simpl in Herrors.
  by destruct (connectivity_errors w).
Qed.

Lemma dangling_target ids e :
  e_target e ∉ ids →
  ∃ missing,
    edge_connectivity_errors ids e = [ConnectivityError (e_id e) missing] ∧
    e_target e ∈ missing.
Proof.
  intros Htarget. unfold edge_connectivity_errors.
  assert (Hin : e_target e ∈ dangling_endpoints ids e).
  { unfold dangling_endpoints. apply list_elem_of_filter. split; [done|].
    apply list_elem_of_further, list_elem_of_here. }
  destruct (dangling_endpoints ids e) as [|id missing]; [by apply elem_of_nil in Hin|].
  eauto.
Qed.

(** C5. When the extended validation of a document reports it valid,
    adding one edge whose target is not the id of any executor makes the
    report of the extended document invalid, and its errors hold exactly
    one connectivity error: it names the added edge and lists the missing
    target. *)
Theorem C5_dangling_target_one_connectivity_error d before after e :
  w_edges d = before ++ after →
  valid (validateExtended validateSchema required_fields structural_warnings d) = true →
  e_target e ∉ executor_ids d →
  let report :=
    validateExtended validateSchema required_fields structural_warnings (with_edges (before ++ e :: after) d) in
  valid report = false ∧
  ∃ missing,
    filter (λ e, is_connectivity_error e = true) (errors report)
    = [ConnectivityError (e_id e) missing] ∧
    e_target e ∈ missing.
Proof.
  intros Hedges Hvalid Htarget report.
  apply valid_no_connectivity_errors in Hvalid.
  unfold connectivity_errors in Hvalid. rewrite Hedges, bind_app in Hvalid.
  apply app_eq_nil in Hvalid as [Hbefore Hafter].
  destruct (dangling_target (executor_ids d) e Htarget) as (missing & Herror & Hmissing).
  assert (Hconnectivity :
    connectivity_errors (with_edges (before ++ e :: after) d)
    = [ConnectivityError (e_id e) missing]).
  { unfold connectivity_errors, with_edges, executor_ids in *. simpl.
    by rewrite bind_app, bind_cons, Hbefore, Hafter, Herror. }
  subst report. unfold validateExtended. simpl. rewrite Hconnectivity. split.
  - destruct (validateSchema _); done.
  - exists missing. split; [|done].
    by rewrite filter_app, filter_connectivity_schema.
Qed.

End ValidatorProperties.

(** The validator of the examples: no structural rule, and the one
    type-specific rule the specification names. *)
Example validator_scenario_valid :
  let report :=
    validateExtended (λ _, []) (λ t, if String.eqb t "workflow-executor" then ["workflowId"] else [])
      (λ _, [])
      scenario_document in
  valid report = true ∧ errors report = [] ∧ connectivityWarnings report = [].
Proof. by vm_compute. Qed.

Example validator_scenario_dangling :
  let report :=
    validateExtended (λ _, []) (λ t, if String.eqb t "workflow-executor" then ["workflowId"] else [])
      (λ _, [])
      (with_edges [BaseEdge "e1" "A" "C" None None] scenario_document) in
  valid report = false ∧ errors report = [ConnectivityError "e1" ["C"]].
Proof. by vm_compute. Qed.

Lemma C5_dangling_target_one_connectivity_error_witness :
  let report :=
    validateExtended (λ _, []) (λ t, if String.eqb t "workflow-executor" then ["workflowId"] else [])
      (λ _, [])
      (with_edges ([BaseEdge "e1" "A" "B" None None] ++ BaseEdge "e2" "B" "C" None None :: [])
         scenario_document) in
  valid report = false ∧
  ∃ missing,
    filter (λ e, is_connectivity_error e = true) (errors report)
    = [ConnectivityError "e2" missing] ∧
    "C" ∈ missing.
Proof.
  apply (C5_dangling_target_one_connectivity_error (λ _, [])
           (λ t, if String.eqb t "workflow-executor" then ["workflowId"] else []) (λ _, [])
           scenario_document [BaseEdge "e1" "A" "B" None None] []
           (BaseEdge "e2" "B" "C" None None)).
  - reflexivity.
  - by vm_compute.
  - unfold executor_ids. simpl. intros Hin.
    repeat (apply elem_of_cons in Hin as [Hin|Hin]; [discriminate|]).
    by apply elem_of_nil in Hin.
Defined.

(** * Further properties of the graph codec *)

(** X1. The node type read back from an executor built by the factory is
    the node type the executor was built for, when that type has an arm of
    its own in the factory; for every other node type it is ["executor"]. *)
Theorem factory_node_type_read_back nodeType id label_ options :
  getNodeTypeFromExecutor (createExecutorFromNodeType nodeType id label_ options) =
  if bool_decide (nodeType ∈ known_node_types) then nodeType else "executor".
Proof. apply factory_node_type. Qed.

(** X2. The payload the page builds for a new executor
    ([createNodeDataFromExecutorType], called with the executor's own type)
    and the payload the importer builds for the same executor
    ([executorToNodeData]) have the same variant, the same handles and the
    same embedded executor, and both are executor payloads.  They differ in
    that only the importer copies the label and the description. *)
Theorem payload_builders_agree e :
  ∃ data,
    executorToNodeData e = Some data ∧
    d_variant data = d_variant (createNodeDataFromExecutorType (ex_type e) e) ∧
    d_handles data = d_handles (createNodeDataFromExecutorType (ex_type e) e) ∧
    d_executor data = Some e ∧
    d_executor (createNodeDataFromExecutorType (ex_type e) e) = Some e ∧
    isExecutorNodeData data = true ∧
    isExecutorNodeData (createNodeDataFromExecutorType (ex_type e) e) = true ∧
    d_label data = ex_label e ∧
    d_label (createNodeDataFromExecutorType (ex_type e) e) = None.
Proof.
  unfold executorToNodeData, createNodeDataFromExecutorType.
  repeat case_match; eexists; (split; [reflexivity|]); by vm_compute.
Qed.

(** X3. The position map collected by [reactFlowToWorkflow] answers, for
    an id, with the position of the last node of the graph carrying that
    id, and with nothing for an id that no node carries.  This holds for a
    graph none of whose nodes is named [__proto__] (the assignment to that
    name records nothing) and for an id that some node carries or that
    names no member of [Object.prototype] (a read of such a name from the
    plain object finds the inherited member). *)
Theorem collected_positions_last_wins nodes id :
  positions_writable nodes →
  id ∈ n_id <$> nodes ∨ ordinary_name id →
  collected_positions nodes !! id =
  n_position <$> last (filter (λ node, n_id node = id) nodes).
Proof.
  intros _ _. rewrite collected_positions_spec, positions_lookup_last.
  by destruct (last _).
Qed.

Lemma collected_positions_last_wins_witness :
  collected_positions
    [ legacy_node; with_position (Position 1 2) legacy_node; executor_node_1 ] !! "textBlock"
  = Some (Position 1 2).
Proof.
  rewrite collected_positions_last_wins.
  - reflexivity.
  - unfold positions_writable. apply (bool_decide_unpack _). by vm_compute.
  - left. apply (bool_decide_unpack _). by vm_compute.
Defined.

(** X4. Graph to document and back puts every executor node where it was:
    when the node ids of the graph are distinct and the executor embedded in
    an executor node carries the node's id, which is not [__proto__], the
    returned graph has a node with the same id at the same position, whose
    payload embeds the executor, the [position] entry of its metadata
    apart (that entry is written through the metadata object of the
    payload, which other nodes may share). *)
Theorem graph_roundtrip_restores_executor_positions now nodes edges id node e :
  NoDup (n_id <$> nodes) →
  node ∈ nodes →
  n_id node ≠ "__proto__" →
  nodeToExecutor node = Some e →
  ex_id e = n_id node →
  ∃ node' e',
    node' ∈ (graph_roundtrip now nodes edges id).1 ∧
    n_id node' = n_id node ∧
    n_position node' = n_position node ∧
    d_executor (n_data node') = Some e' ∧
    same_executor_up_to_position e e'.
Proof.
  intros Hnodup Hnode _ Hexecutor Hid.
  unfold graph_roundtrip.
  set (d := reactFlowToWorkflow now nodes edges id None).
  set (e' := stamp_position (n_position node) e).
  assert (He' : e' ∈ w_executors d).
  { subst d. rewrite reactFlowToWorkflow_unfold. simpl.
    apply list_elem_of_bind. exists node. split; [|done].
    unfold node_executors. rewrite Hexecutor.
    unfold nodeToExecutor in Hexecutor.
    destruct (isExecutorNodeData (n_data node)); [|done]. apply list_elem_of_here. }
  destruct (executor_node_single d e') as (data & Hdata & Hsingle).
  apply executor_payload_is_executor in Hdata as [_ Hpayload].
  eexists _, e'. split; [|split; [|split; [|split]]].
  - unfold workflowToReactFlow. simpl.
    assert (Hin : ∀ x, x ∈ executor_node d e' → x ∈ w_executors d ≫= executor_node d).
    { intros x Hx. apply list_elem_of_bind. eauto. }
    destruct (w_edgeGroups d); [apply elem_of_app; left|];
      apply Hin; rewrite Hsingle; apply list_elem_of_here.
  - done.
  - simpl. subst d. rewrite read_position_exported. subst e'. simpl. rewrite Hid.
    by rewrite positions_lookup_unique.
  - done.
  - apply stamp_position_same.
Qed.

Lemma graph_roundtrip_restores_executor_positions_witness :
  ∃ node',
    node' ∈ (graph_roundtrip "2025-01-01T00:00:00.000Z" placed_graph_nodes [] None).1 ∧
    n_id node' = "A" ∧
    n_position node' = Position 100 100.
Proof.
  destruct (graph_roundtrip_restores_executor_positions "2025-01-01T00:00:00.000Z"
              placed_graph_nodes [] None
              (RfNode "A" (Some "executor") (Position 100 100)
                 (NodeData "executor" (Some plain_handles)
                    (Some (Executor "A" "executor" (Some "Test Executor") None None ∅))
                    (Some "executor") None None None ∅))
              (Executor "A" "executor" (Some "Test Executor") None None ∅))
    as (node' & e' & Hin & Hid & Hposition & _).
  - apply (bool_decide_unpack _); by vm_compute.
  - apply list_elem_of_here.
  - discriminate.
  - reflexivity.
  - reflexivity.
  - exists node'. split; [exact Hin|]. split; [exact Hid | exact Hposition].
Defined.

(** X5. [workflowToReactFlow] places every edge-group node at the origin:
    the position recorded for the group's id in the document, as
    [reactFlowToWorkflow] records it for every node, is not read. *)
Theorem edge_group_nodes_placed_at_origin w node :
  node ∈ (workflowToReactFlow w).1 →
  isEdgeGroupNode (n_data node) = true →
  n_position node = origin.
Proof.
  intros Hnode Hgroup.
  assert (Hexecutors : node ∈ w_executors w ≫= executor_node w → False).
  { intros Hin. apply list_elem_of_bind in Hin as (e & Hin & _).
    destruct (executor_node_single w e) as (data & Hdata & Hsingle).
    rewrite Hsingle in Hin. apply list_elem_of_singleton in Hin as ->.
    apply executor_payload_is_executor in Hdata as [Hexec _]. simpl in Hgroup.
    by rewrite (isExecutor_not_group _ Hexec) in Hgroup. }
  unfold workflowToReactFlow in Hnode. simpl in Hnode.
  destruct (w_edgeGroups w) as [groups|]; [|by destruct Hexecutors].
  apply elem_of_app in Hnode as [Hin|Hin]; [by destruct Hexecutors|].
  apply list_elem_of_bind in Hin as (g & Hin & _).
  unfold group_node in Hin. destruct (edgeGroupToNodeData g); [|by apply elem_of_nil in Hin].
  by apply list_elem_of_singleton in Hin as ->.
Qed.

Lemma edge_group_nodes_placed_at_origin_witness :
  ∃ node,
    (graph_roundtrip "2025-01-01T00:00:00.000Z" placed_graph_nodes [] None).1 !! 1
      = Some node ∧
    n_id node = "switch-1" ∧
    collected_positions placed_graph_nodes !! "switch-1" = Some (Position 40 60) ∧
    n_position node = origin.
Proof.
  eexists. split; [reflexivity|]. split; [reflexivity|]. split; [reflexivity|].
  eapply (edge_group_nodes_placed_at_origin
            (reactFlowToWorkflow "2025-01-01T00:00:00.000Z" placed_graph_nodes [] None None)).
  - apply list_elem_of_further, list_elem_of_here.
  - reflexivity.
Defined.

(** X6. The graph built from a document has one node per executor, in
    order, followed by one node per edge group of a routing type, each
    under the id of its executor or group; it has one edge per edge of the
    document, in order and under the same id, and every edge is rendered as
    an animated edge. *)
Theorem workflowToReactFlow_nodes_and_edges w :
  n_id <$> (workflowToReactFlow w).1 =
    (ex_id <$> w_executors w) ++
    (g_id <$> filter (λ g, is_routing_group g = true) (default [] (w_edgeGroups w))) ∧
  re_id <$> (workflowToReactFlow w).2 = e_id <$> w_edges w ∧
  Forall (λ edge, re_type edge = Some "animated") (workflowToReactFlow w).2.
Proof.
  split; [|split].
  - pose proof (workflowToReactFlow_places w) as Hplaces.
    apply (f_equal (fmap fst)) in Hplaces.
    unfold node_places in Hplaces.
    rewrite fmap_app, <- !list_fmap_compose in Hplaces. exact Hplaces.
  - unfold workflowToReactFlow. simpl. by rewrite <- list_fmap_compose.
  - unfold workflowToReactFlow. simpl. apply Forall_fmap, Forall_forall. by intros.
Qed.



(** * Properties of the canvas page *)

(** ** Library tokens *)

Lemma split_on_plain sep s : contains sep s = false → split_on sep s = [s].
Proof.
  induction s as [|c s IH]; [done|]. simpl. intros Hc.
  apply orb_false_iff in Hc as [Hc Hs]. by rewrite Hc, IH.
Qed.

Lemma split_on_app sep base rest :
  contains sep base = false →
  split_on sep (base +:+ String sep rest) = base :: split_on sep rest.
Proof.
  induction base as [|c base IH]; simpl.
  - intros _. by rewrite Ascii.eqb_refl.
  - intros Hc. apply orb_false_iff in Hc as [Hc Hbase]. by rewrite Hc, IH.
Qed.

(** X8. A library token is read back as it was written: the token
    [base:preset] parses to the base type [base] and the preset key
    [preset], the token [base] alone to [base] and no preset key, provided
    neither part contains a colon; whatever follows a second colon is
    dropped. *)
Theorem parseNodeTypeToken_reads_token base preset rest :
  contains colon base = false →
  contains colon preset = false →
  parseNodeTypeToken base = (base, None) ∧
  parseNodeTypeToken (base +:+ ":" +:+ preset) = (base, Some preset) ∧
  parseNodeTypeToken (base +:+ ":" +:+ preset +:+ ":" +:+ rest) = (base, Some preset).
Proof.
  intros Hbase Hpreset. unfold parseNodeTypeToken. split; [|split].
  - by rewrite split_on_plain.
  - change (":" +:+ preset) with (String colon preset).
    by rewrite split_on_app, split_on_plain.
  - change (":" +:+ preset +:+ ":" +:+ rest) with (String colon (preset +:+ String colon rest)).
    rewrite split_on_app by done. by rewrite split_on_app.
Qed.

Lemma parseNodeTypeToken_reads_token_witness :
  parseNodeTypeToken "magentic-agent-executor" = ("magentic-agent-executor", None) ∧
  parseNodeTypeToken "magentic-agent-executor:planner"
    = ("magentic-agent-executor", Some "planner") ∧
  parseNodeTypeToken "magentic-agent-executor:planner:x"
    = ("magentic-agent-executor", Some "planner").
Proof.
  apply (parseNodeTypeToken_reads_token "magentic-agent-executor" "planner" "x");
    reflexivity.
Defined.

(** ** New nodes *)

Lemma factory_id nodeType id label_ options :
  ex_id (createExecutorFromNodeType nodeType id label_ options) = id.
Proof. unfold createExecutorFromNodeType. by repeat case_match. Qed.

Lemma created_payload_is_executor executorType e :
  isExecutorNodeData (createNodeDataFromExecutorType executorType e) = true ∧
  d_executor (createNodeDataFromExecutorType executorType e) = Some e.
Proof. unfold createNodeDataFromExecutorType. by repeat case_match. Qed.

Lemma new_executor_node_executors baseType presetKey p id :
  ∃ e, node_executors (new_executor_node baseType presetKey p id) = [stamp_position p e] ∧
       nodeToExecutor (new_executor_node baseType presetKey p id) = Some e ∧
       ex_id e = id ∧
       e = createExecutorFromNodeType baseType id
             (Some (str_or (label <$> find_preset presetKey) ("New " +:+ baseType)))
             (Some (Options None presetKey)).
Proof.
  eexists. unfold node_executors, nodeToExecutor, new_executor_node. simpl.
  destruct (created_payload_is_executor baseType
              (createExecutorFromNodeType baseType id
                 (Some (str_or (label <$> find_preset presetKey) ("New " +:+ baseType)))
                 (Some (Options None presetKey)))) as [-> ->].
  simpl. split; [done|]. split; [done|]. split; [apply factory_id | done].
Qed.

Lemma created_variant_agrees baseType id label_ options p e data :
  executorToNodeData (stamp_position p (createExecutorFromNodeType baseType id label_ options))
    = Some data →
  d_variant data = d_variant (createNodeDataFromExecutorType baseType e).
Proof.
  unfold createExecutorFromNodeType, createNodeDataFromExecutorType.
  intros Hdata.
  repeat match goal with
         | H : context [String.eqb baseType ?s] |- _ =>
             destruct (String.eqb_spec baseType s) as [->|?];
               [vm_compute in H; by injection H as <-|]
         end.
  vm_compute in Hdata. by injection Hdata as <-.
Qed.

(** X9. An edge-group node made by the page goes through the codec
    unchanged but for its position.  The node created for one of the three
    edge-group types carries a default group whose id is the node's id and
    whose type is the node type; exporting it yields that group and no
    executor; importing the group again yields the same node, moved to the
    origin. *)
Theorem created_edge_group_node_roundtrip nodeType p suffix :
  isEdgeGroupNodeType nodeType = true →
  let node := createEdgeGroupNode nodeType p suffix in
  n_id node = nodeType +:+ "-" +:+ suffix ∧
  node_executors node = [] ∧
  ∃ g, node_groups node = [g] ∧
       g_id g = n_id node ∧
       group_type g = nodeType ∧
       group_node g = [with_position origin node].
Proof.
  unfold isEdgeGroupNodeType. rewrite !orb_true_iff, !String.eqb_eq.
  intros [[->| ->]| ->]; simpl; (split; [done|]); (split; [done|]);
    eexists; (split; [reflexivity|]); done.
Qed.

Lemma created_edge_group_node_roundtrip_witness :
  ∃ g, node_groups (createEdgeGroupNode "fan-out" (Position 10 20) "x") = [g] ∧
       g_id g = "fan-out-x" ∧
       group_node g = [with_position origin (createEdgeGroupNode "fan-out" (Position 10 20) "x")].
Proof.
  destruct (created_edge_group_node_roundtrip "fan-out" (Position 10 20) "x" eq_refl)
    as (_ & _ & g & Hgroups & Hid & _ & Hnode).
  exists g. split; [exact Hgroups|]. split; [exact Hid | exact Hnode].
Defined.

(** X10. An executor node made by the page survives graph to document and
    back.  For every token, the node built by the executor arm of the
    creation handlers comes back, from a graph holding it alone, under the
    same id at the same position, embedding the factory's executor with
    the position written to its metadata.  Its node type comes back as the
    token's base type only when the factory has an arm for it, and as
    ["executor"] otherwise. *)
Theorem created_executor_node_roundtrip now baseType presetKey p id wid :
  ∃ e data,
    nodeToExecutor (new_executor_node baseType presetKey p id) = Some e ∧
    (graph_roundtrip now [new_executor_node baseType presetKey p id] [] wid).1 =
      [ RfNode id
          (Some (if bool_decide (baseType ∈ known_node_types) then baseType else "executor"))
          p data ] ∧
    d_executor data = Some (stamp_position p e) ∧
    d_variant data = d_variant (n_data (new_executor_node baseType presetKey p id)).
Proof.
  destruct (new_executor_node_executors baseType presetKey p id)
    as (e & Hexecutors & Hexecutor & Hid & He).
  set (node := new_executor_node baseType presetKey p id) in *.
  set (d := reactFlowToWorkflow now [node] [] wid None).
  assert (Hgroups : node_groups node = []).
  { unfold node_groups.
    destruct (created_payload_is_executor baseType e) as [Hexec _].
    subst node. unfold new_executor_node. simpl. rewrite <- He.
    by rewrite (isExecutor_not_group _ Hexec). }
  assert (Hd : w_executors d = [stamp_position p e] ∧ w_edgeGroups d = None).
  { subst d. rewrite reactFlowToWorkflow_unfold. simpl.
    by rewrite !app_nil_r, Hexecutors, Hgroups. }
  destruct Hd as [Hd_executors Hd_groups].
  destruct (executor_node_single d (stamp_position p e)) as (data & Hdata & Hsingle).
  exists e, data. split; [done|]. split; [|split].
  - unfold graph_roundtrip. fold d. unfold workflowToReactFlow.
    rewrite Hd_executors, Hd_groups. simpl. rewrite app_nil_r, Hsingle. simpl.
    subst d. rewrite read_position_exported, Hid.
    pose proof (positions_lookup_unique [node] node (NoDup_singleton _)
                  (list_elem_of_here _ _)) as Hposition.
    change (n_id node) with id in Hposition. rewrite Hposition. simpl.
    replace (getNodeTypeFromExecutor (stamp_position p e))
      with (getNodeTypeFromExecutor e) by done.
    by rewrite He, factory_node_type.
  - by apply executor_payload_is_executor in Hdata as [_ ?].
  - subst node. unfold new_executor_node. simpl. rewrite <- He.
    rewrite He in Hdata. apply (created_variant_agrees _ _ _ _ _ _ _ Hdata).
Qed.

(** X11. Clicking a library item and dragging it make the same node,
    except for the legacy items.  For every token whose base type is not
    [textBlock], [attribute] or [workflow], [handleAddNode] and
    [handleDrop] create the same node.  For [textBlock] and [attribute]
    (both in the library) only [handleDrop] has an arm: dropped, the item
    gets its legacy payload; clicked, it takes the executor arm and becomes
    a node of that type embedding an executor of the base type
    ["executor"], which [reactFlowToWorkflow] exports. *)
Theorem click_and_drop_differ_on_legacy_items nanoid defaultTextBlockData
    defaultAttributeNodeData defaultWorkflowStepData nds baseType presetKey p k :
  (baseType ≠ "textBlock" → baseType ≠ "attribute" → baseType ≠ "workflow" →
   added_node nanoid defaultWorkflowStepData nds baseType presetKey p k =
   dropped_node nanoid defaultTextBlockData defaultAttributeNodeData defaultWorkflowStepData
     nds baseType presetKey p k) ∧
  (baseType = "textBlock" ∨ baseType = "attribute" →
   n_data (dropped_node nanoid defaultTextBlockData defaultAttributeNodeData
             defaultWorkflowStepData nds baseType presetKey p k)
     = (if String.eqb baseType "textBlock" then defaultTextBlockData
        else defaultAttributeNodeData) ∧
   n_type (added_node nanoid defaultWorkflowStepData nds baseType presetKey p k)
     = Some baseType ∧
   ∃ e, node_executors (added_node nanoid defaultWorkflowStepData nds baseType presetKey p k)
          = [stamp_position p e] ∧
        ex_id e = nanoid k ∧
        ex_type e = "executor").
Proof.
  split.
  - intros H1 H2 H3. unfold added_node, dropped_node.
    apply String.eqb_neq in H1, H2, H3. by rewrite H1, H2, H3.
  - intros Hlegacy.
    assert (Hadded : added_node nanoid defaultWorkflowStepData nds baseType presetKey p k
                     = new_executor_node baseType presetKey p (nanoid k)).
    { unfold added_node. by destruct Hlegacy as [-> | ->]. }
    rewrite Hadded.
    split; [unfold dropped_node; by destruct Hlegacy as [-> | ->]|].
    split; [done|].
    destruct (new_executor_node_executors baseType presetKey p (nanoid k))
      as (e & Hexecutors & _ & Hid & He).
    exists e. split; [done|]. split; [done|].
    rewrite He. by destruct Hlegacy as [-> | ->].
Qed.

(** ** New agents and the scaffold *)

Lemma new_agent_without_preset presetKey p id :
  lookup_preset (Some (Options None presetKey)) = None →
  findPresetKey (new_executor_node "magentic-agent-executor" presetKey p id) = VUndefined.
Proof.
  intros Hnone. unfold new_executor_node, findPresetKey.
  destruct (created_payload_is_executor "magentic-agent-executor"
              (createExecutorFromNodeType "magentic-agent-executor" id
                 (Some (str_or (label <$> find_preset presetKey)
                          ("New " +:+ "magentic-agent-executor")))
                 (Some (Options None presetKey)))) as [_ Hpayload].
  simpl n_data. rewrite Hpayload.
  unfold createExecutorFromNodeType. rewrite Hnone. by vm_compute.
Qed.

(** X12. An agent taken from the library is recognised by the scaffold
    handler exactly when its token names a preset.  The node created for
    the token [magentic-agent-executor:key] of a preset passes the test by
    which the scaffold handler looks for the agent of that preset, so a
    later scaffold reuses it; the node created for a token whose preset
    part is missing or names no preset passes the test of no preset. *)
Theorem library_agent_recognised_by_scaffold p id :
  (∀ preset, preset ∈ MAGENTIC_AGENT_PRESETS →
     is_preset_agent preset
       (new_executor_node (parseNodeTypeToken ("magentic-agent-executor:" +:+ key preset)).1
          (parseNodeTypeToken ("magentic-agent-executor:" +:+ key preset)).2 p id) = true) ∧
  (∀ presetKey preset,
     lookup_preset (Some (Options None presetKey)) = None →
     is_preset_agent preset (new_executor_node "magentic-agent-executor" presetKey p id)
       = false).
Proof.
  split.
  - intros preset Hin. unfold MAGENTIC_AGENT_PRESETS in Hin.
    repeat (apply elem_of_cons in Hin as [->|Hin]; [by vm_compute|]).
    by apply elem_of_nil in Hin.
  - intros presetKey preset Hnone. unfold is_preset_agent.
    rewrite (new_agent_without_preset _ _ _ Hnone). apply andb_false_r.
Qed.

Lemma library_agent_recognised_by_scaffold_witness :
  is_preset_agent (Preset "coder" "" "" "" [] "" None)
    (new_executor_node "magentic-agent-executor" (Some "reviewer") origin "n1") = false.
Proof.
  apply (proj2 (library_agent_recognised_by_scaffold origin "n1")). reflexivity.
Defined.

(** ** History *)

Lemma saved_history_length c nodes edges :
  history_ok c →
  length (take (S (c_historyIndex c)) (c_history c) ++ [(nodes, edges)])
    = S (S (c_historyIndex c)).
Proof.
  intros [Hcursor _]. rewrite length_app, length_take, Nat.min_l by lia. simpl. lia.
Qed.

Lemma saveToHistory_ok nodes edges c :
  history_ok c →
  history_ok (saveToHistory nodes edges c) ∧
  current_snapshot (saveToHistory nodes edges c) = Some (nodes, edges) ∧
  S (c_historyIndex (saveToHistory nodes edges c))
    = length (c_history (saveToHistory nodes edges c)).
Proof.
  intros Hok. pose proof (saved_history_length c nodes edges Hok) as Hlength.
  destruct Hok as [Hcursor Hbound].
  unfold history_ok, current_snapshot, saveToHistory. simpl.
  rewrite length_drop, Hlength, lookup_drop.
  split; [lia|]. split; [|lia].
  apply list_lookup_middle. rewrite length_take. lia.
Qed.

Lemma saveToHistory_previous nodes edges c :
  history_ok c →
  c_history (saveToHistory nodes edges c) !! (c_historyIndex (saveToHistory nodes edges c) - 1)
    = current_snapshot c.
Proof.
  intros Hok. pose proof (saved_history_length c nodes edges Hok) as Hlength.
  destruct Hok as [Hcursor Hbound].
  unfold current_snapshot, saveToHistory. simpl.
  rewrite lookup_drop, Hlength.
  replace (S (S (c_historyIndex c)) - 50 + _) with (c_historyIndex c) by lia.
  rewrite lookup_app_l by (rewrite length_take; lia).
  apply lookup_take_lt. lia.
Qed.

(** X13. Saving a snapshot keeps the history well formed and puts the
    cursor on the new snapshot, which is the last one: at most 50 snapshots
    are kept (the oldest is dropped from a full history), the snapshot
    under the cursor is the graph just saved, undo is enabled and redo is
    not, whatever snapshots lay after the cursor before. *)
Theorem saveToHistory_lands_on_last_snapshot nodes edges c :
  history_ok c →
  let c' := saveToHistory nodes edges c in
  history_ok c' ∧
  current_snapshot c' = Some (nodes, edges) ∧
  canUndo c' = true ∧
  canRedo c' = false.
Proof.
  intros Hok.
  destruct (saveToHistory_ok nodes edges c Hok) as (Hok' & Hcurrent & Hlast).
  simpl. split; [done|]. split; [done|].
  unfold canUndo, canRedo. rewrite <- Hlast. split.
  - apply Nat.ltb_lt. unfold saveToHistory. simpl. lia.
  - apply Nat.ltb_ge. lia.
Qed.

Lemma saveToHistory_lands_on_last_snapshot_witness :
  current_snapshot (saveToHistory [] joined_edges joined_canvas) = Some ([], joined_edges) ∧
  canRedo (saveToHistory [] joined_edges joined_canvas) = false.
Proof.
  destruct (saveToHistory_lands_on_last_snapshot [] joined_edges joined_canvas)
    as (_ & Hcurrent & _ & Hredo).
  - unfold history_ok. simpl. lia.
  - split; [exact Hcurrent | exact Hredo].
Defined.

(** X14. Undo after a save puts the snapshot that was under the cursor
    before the save back on the canvas, also when the save dropped the
    oldest snapshot of a full history, and leaves redo enabled. *)
Theorem undo_after_save_restores_previous nodes edges c :
  history_ok c →
  ∃ c', onUndo (saveToHistory nodes edges c) = Some c' ∧
        current_snapshot c = Some (c_nodes c', c_edges c') ∧
        c_history c' = c_history (saveToHistory nodes edges c) ∧
        canRedo c' = true.
Proof.
  intros Hok.
  destruct (saveToHistory_ok nodes edges c Hok) as (Hok' & _ & Hlast).
  pose proof (saveToHistory_previous nodes edges c Hok) as Hprevious.
  assert (Hpositive : 0 < c_historyIndex (saveToHistory nodes edges c))
    by (unfold saveToHistory; simpl; lia).
  revert Hok' Hlast Hprevious Hpositive.
  generalize (saveToHistory nodes edges c). intros c1 Hok' Hlast Hprevious Hpositive.
  unfold onUndo, canUndo.
  destruct (Nat.ltb_spec 0 (c_historyIndex c1)); [|lia].
  rewrite Hprevious.
  destruct (current_snapshot c) as [[nodes0 edges0]|] eqn:Hcurrent.
  - eexists. split; [done|]. simpl. split; [done|]. split; [done|].
    unfold canRedo. simpl. apply Nat.ltb_lt. lia.
  - destruct Hok as [Hcursor _]. unfold current_snapshot in Hcurrent.
    apply lookup_ge_None in Hcurrent. lia.
Qed.

Lemma undo_after_save_restores_previous_witness :
  ∃ c', onUndo (saveToHistory [] [] joined_canvas) = Some c' ∧
        c_nodes c' = joined_nodes ∧ c_edges c' = joined_edges.
Proof.
  destruct (undo_after_save_restores_previous [] [] joined_canvas)
    as (c' & Hundo & Hcurrent & _).
  - unfold history_ok. simpl. lia.
  - exists c'. split; [exact Hundo|].
    injection Hcurrent as Hnodes Hedges. split; [symmetry; exact Hnodes | symmetry; exact Hedges].
Defined.

(** X15. Redo undoes undo: from a well-formed history with undo enabled,
    undo followed by redo succeeds, returns the cursor to where it was and
    leaves the snapshots untouched; the canvas then shows the snapshot
    under the cursor (which is the graph of before the undo only if that
    graph had been saved). *)
Theorem redo_after_undo_returns c :
  history_ok c →
  canUndo c = true →
  ∃ c1 c2,
    onUndo c = Some c1 ∧
    onRedo c1 = Some c2 ∧
    c_historyIndex c2 = c_historyIndex c ∧
    c_history c2 = c_history c ∧
    current_snapshot c = Some (c_nodes c2, c_edges c2).
Proof.
  intros [Hcursor Hbound] Hundo. unfold onUndo. rewrite Hundo.
  apply Nat.ltb_lt in Hundo.
  destruct (lookup_lt_is_Some_2 (c_history c) (c_historyIndex c - 1)) as [state1 Hstate1];
    [lia|].
  destruct (lookup_lt_is_Some_2 (c_history c) (c_historyIndex c)) as [state Hstate]; [done|].
  rewrite Hstate1. eexists _, _. split; [done|].
  unfold onRedo, canRedo. simpl.
  replace (c_historyIndex c - 1 + 1) with (c_historyIndex c) by lia.
  rewrite Hstate.
  destruct (Nat.ltb_spec (c_historyIndex c - 1) (length (c_history c) - 1)); [|lia].
  split; [done|]. simpl. split; [done|]. split; [done|].
  unfold current_snapshot. rewrite Hstate. by destruct state.
Qed.

Lemma redo_after_undo_returns_witness :
  ∃ c1 c2,
    onUndo (saveToHistory [] [] joined_canvas) = Some c1 ∧
    onRedo c1 = Some c2 ∧
    c_historyIndex c2 = 1.
Proof.
  destruct (redo_after_undo_returns (saveToHistory [] [] joined_canvas))
    as (c1 & c2 & Hundo & Hredo & Hcursor & _).
  - unfold history_ok. simpl. lia.
  - reflexivity.
  - exists c1, c2. split; [exact Hundo|]. split; [exact Hredo | exact Hcursor].
Defined.

Section PageProperties.

Variable nanoid : nat → string.
Variable circle_point : position → nat → nat → position.
Variable offset_position : position → position.
Variable defaultTextBlockData : node_data.
Variable defaultAttributeNodeData : node_data.
Variable defaultWorkflowStepData : string → option string → option string → node_data.

Lemma history_ok_same c c' :
  c_history c' = c_history c → c_historyIndex c' = c_historyIndex c →
  history_ok c → history_ok c'.
Proof. unfold history_ok. by intros -> ->. Qed.

Lemma onUndo_ok c c' : history_ok c → onUndo c = Some c' → history_ok c'.
Proof.
  intros [Hcursor Hbound]. unfold onUndo, canUndo.
  destruct (Nat.ltb_spec 0 (c_historyIndex c)); [|by intros [= <-]].
  destruct (c_history c !! _); [|done]. intros [= <-].
  unfold history_ok. simpl. lia.
Qed.

Lemma onRedo_ok c c' : history_ok c → onRedo c = Some c' → history_ok c'.
Proof.
  intros [Hcursor Hbound]. unfold onRedo, canRedo.
  destruct (Nat.ltb_spec (c_historyIndex c) (length (c_history c) - 1)); [|by intros [= <-]].
  destruct (c_history c !! _); [|done]. intros [= <-].
  unfold history_ok. simpl. lia.
Qed.

Lemma page_step_history_ok c c' :
  page_step nanoid circle_point offset_position defaultTextBlockData
    defaultAttributeNodeData defaultWorkflowStepData c c' →
  history_ok c → history_ok c'.
Proof.
  intros Hstep Hok.
  destruct Hstep as [nodeType p c|nodeType center c|edgeId p c|nodeType c|center c
                    |nodeId updates c|nodeId c|nodeId c|nextNodes significant c
                    |newEdges c|nodes edges c|c c' Hundo|c c' Hredo].
  - unfold handleDrop. destruct (String.eqb nodeType ""); [done|].
    destruct (parseNodeTypeToken nodeType). by apply saveToHistory_ok.
  - unfold handleAddNode. destruct center; [|done].
    destruct (parseNodeTypeToken nodeType). by apply saveToHistory_ok.
  - done.
  - unfold handleInsertNodeOnEdge. destruct (c_dropdown c) as [[edgeId p]|]; [|done].
    destruct (find _ _); [|done].
    destruct (parseNodeTypeToken nodeType).
    eapply history_ok_same; [done..|]. by apply saveToHistory_ok.
  - unfold addMagenticScaffold.
    destruct (handleAddMagenticScaffold _ _ _ _) as [[nodes edges] k]. done.
  - done.
  - by apply saveToHistory_ok.
  - unfold onDuplicate. destruct (find _ _); [|done]. by apply saveToHistory_ok.
  - unfold handleNodesChangeWrapper. destruct significant; [|done]. by apply saveToHistory_ok.
  - by apply saveToHistory_ok.
  - done.
  - by eapply onUndo_ok.
  - by eapply onRedo_ok.
Qed.

(** X16. The history stays well formed under every action of the page.
    After any sequence of actions from the first render (drops, additions,
    insertions on an edge, the scaffold, updates, deletions, duplications,
    node and edge changes of the canvas library, imports, undo and redo)
    the cursor points at a snapshot, at most 50 snapshots are kept, and
    neither undo nor redo reads a missing snapshot. *)
Theorem history_well_formed_always initialNodes initialEdges c :
  rtc (page_step nanoid circle_point offset_position defaultTextBlockData
         defaultAttributeNodeData defaultWorkflowStepData)
      (initial_canvas initialNodes initialEdges) c →
  history_ok c ∧ is_Some (onUndo c) ∧ is_Some (onRedo c).
Proof.
  intros Hsteps.
  assert (Hok : history_ok c).
  { revert c Hsteps. apply rtc_ind_r.
    - unfold history_ok. simpl. lia.
    - intros c1 c2 _ Hstep Hok. by eapply page_step_history_ok. }
  split; [done|]. destruct Hok as [Hcursor Hbound].
  unfold onUndo, onRedo, canUndo, canRedo. split.
  - destruct (Nat.ltb_spec 0 (c_historyIndex c)); [|done].
    destruct (lookup_lt_is_Some_2 (c_history c) (c_historyIndex c - 1)) as [state ->]; [lia|].
    done.
  - destruct (Nat.ltb_spec (c_historyIndex c) (length (c_history c) - 1)); [|done].
    destruct (lookup_lt_is_Some_2 (c_history c) (c_historyIndex c + 1)) as [state ->]; [lia|].
    done.
Qed.

End PageProperties.

Lemma history_well_formed_always_witness :
  history_ok (onDelete "a" joined_canvas) ∧
  is_Some (onUndo (onDelete "a" joined_canvas)) ∧
  is_Some (onRedo (onDelete "a" joined_canvas)).
Proof.
  apply (history_well_formed_always sample_nanoid sample_circle sample_offset
           sample_payload sample_payload (λ _ _ _, sample_payload)
           joined_nodes joined_edges).
  apply rtc_once. apply step_delete.
Defined.

(** ** Edits of the graph *)

Lemma inserted_node_kind nanoid baseType presetKey p k :
  n_position (inserted_node nanoid baseType presetKey p k) = p ∧
  isEdgeGroupNode (n_data (inserted_node nanoid baseType presetKey p k))
    = isEdgeGroupNodeType baseType.
Proof.
  unfold inserted_node.
  destruct (isEdgeGroupNodeType baseType) eqn:Hgroup.
  - unfold isEdgeGroupNodeType in Hgroup. rewrite !orb_true_iff, !String.eqb_eq in Hgroup.
    by destruct Hgroup as [[->| ->]| ->].
  - split; [done|]. unfold new_executor_node. simpl.
    apply isExecutor_not_group, created_payload_is_executor.
Qed.

Lemma has_edge_here source target id type data edges :
  has_edge source target (RfEdge id source target type data :: edges) = true.
Proof. unfold has_edge. simpl. by rewrite !String.eqb_refl. Qed.

(** X17. Inserting a node on an edge replaces the edge by a path of two
    edges through the new node.  When the edge under the dropdown is on
    the canvas, one node is appended at the dropdown's position (an
    edge-group node exactly for an edge-group token), the source of the
    edge is joined to the new node and the new node to the target of the
    edge, no edge keeps the id of the replaced edge (the two new ids being
    different from it), every other edge stays, the new graph is the
    snapshot saved, and the dropdown is closed.  When no edge has that id,
    only the dropdown changes. *)
Theorem insert_on_edge_replaces_edge nanoid nodeType c edgeId p :
  history_ok c →
  c_dropdown c = Some (edgeId, p) →
  nanoid (S (c_ids c)) ≠ edgeId →
  nanoid (S (S (c_ids c))) ≠ edgeId →
  let c' := handleInsertNodeOnEdge nanoid nodeType c in
  match find (λ e, String.eqb (re_id e) edgeId) (c_edges c) with
  | Some edge =>
      ∃ newNode,
        c_nodes c' = c_nodes c ++ [newNode] ∧
        n_position newNode = p ∧
        isEdgeGroupNode (n_data newNode)
          = isEdgeGroupNodeType (parseNodeTypeToken nodeType).1 ∧
        has_edge (re_source edge) (n_id newNode) (c_edges c') = true ∧
        has_edge (n_id newNode) (re_target edge) (c_edges c') = true ∧
        (∀ e, e ∈ c_edges c' → re_id e ≠ edgeId) ∧
        (∀ e, e ∈ c_edges c → re_id e ≠ edgeId → e ∈ c_edges c') ∧
        current_snapshot c' = Some (c_nodes c', c_edges c') ∧
        c_dropdown c' = None
  | None => c' = set_dropdown None c
  end.
Proof.
  intros Hok Hdropdown Hfresh1 Hfresh2. simpl.
  unfold handleInsertNodeOnEdge. rewrite Hdropdown.
  destruct (find _ (c_edges c)) as [edge|]; [|done].
  destruct (parseNodeTypeToken nodeType) as [baseType presetKey]. simpl.
  destruct (inserted_node_kind nanoid baseType presetKey p (c_ids c)) as [Hposition Hkind].
  set (newNode := inserted_node nanoid baseType presetKey p (c_ids c)) in *.
  exists newNode. split; [done|]. split; [done|]. split; [done|].
  split; [|split; [|split; [|split; [|split]]]].
  - rewrite has_edge_app. apply orb_true_iff. right. apply has_edge_here.
  - rewrite has_edge_app. apply orb_true_iff. right.
    unfold has_edge. simpl. rewrite !String.eqb_refl. simpl. apply orb_true_r.
  - intros e He. apply elem_of_app in He as [He|He].
    + by apply list_elem_of_filter in He as [? _].
    + apply elem_of_cons in He as [->|He]; [done|].
      apply elem_of_cons in He as [->|He]; [done|]. by apply elem_of_nil in He.
  - intros e He Hid. apply elem_of_app. left. by apply list_elem_of_filter.
  - match goal with
    | |- current_snapshot (set_dropdown _ (saveToHistory ?n ?e ?c0)) = _ =>
        destruct (saveToHistory_ok n e c0) as (_ & Hsaved & _); [done | exact Hsaved]
    end.
  - done.
Qed.

Lemma insert_on_edge_replaces_edge_witness :
  ∃ newNode,
    c_nodes (handleInsertNodeOnEdge sample_nanoid "fan-out"
               (handleEdgeHover "e1" (Position 100 0) joined_canvas))
      = joined_nodes ++ [newNode] ∧
    has_edge "a" (n_id newNode)
      (c_edges (handleInsertNodeOnEdge sample_nanoid "fan-out"
                  (handleEdgeHover "e1" (Position 100 0) joined_canvas))) = true.
Proof.
  destruct (insert_on_edge_replaces_edge sample_nanoid "fan-out"
              (handleEdgeHover "e1" (Position 100 0) joined_canvas) "e1" (Position 100 0))
    as (newNode & Hnodes & _ & _ & Hsource & _).
  - unfold history_ok. simpl. lia.
  - reflexivity.
  - by vm_compute.
  - by vm_compute.
  - exists newNode. split; [exact Hnodes | exact Hsource].
Defined.

Lemma update_node_same_frame nodeId updates node :
  n_id (update_node nodeId updates node) = n_id node ∧
  n_type (update_node nodeId updates node) = n_type node ∧
  n_position (update_node nodeId updates node) = n_position node ∧
  node_groups (update_node nodeId updates node) = node_groups node.
Proof.
  unfold update_node.
  destruct (String.eqb (n_id node) nodeId && isExecutorNode node); [|done].
  by destruct (d_executor (n_data node)).
Qed.

Lemma update_node_groups nodeId updates nodes :
  (update_node nodeId updates <$> nodes) ≫= node_groups = nodes ≫= node_groups.
Proof.
  induction nodes as [|node nodes IH]; [done|].
  rewrite fmap_cons, !bind_cons, IH.
  by destruct (update_node_same_frame nodeId updates node) as (_ & _ & _ & ->).
Qed.

(** X18. An update from the properties panel touches executors only.  It
    changes no node id, type or position, no node with another id, no edge
    and no history entry; in the node it addresses, when that is an
    executor node embedding an executor, the embedded executor becomes the
    executor with the update applied.  The document derived from the graph
    keeps its edges, its edge groups and its metadata block with both
    position maps. *)
Theorem node_update_touches_executors_only now nodeId updates c :
  let c' := handleNodeUpdate nodeId updates c in
  node_places (c_nodes c') = node_places (c_nodes c) ∧
  n_type <$> c_nodes c' = n_type <$> c_nodes c ∧
  (∀ i node, c_nodes c !! i = Some node → n_id node ≠ nodeId →
     c_nodes c' !! i = Some node) ∧
  (∀ i node e,
     c_nodes c !! i = Some node → n_id node = nodeId →
     isExecutorNode node = true → d_executor (n_data node) = Some e →
     ∃ node', c_nodes c' !! i = Some node' ∧
              nodeToExecutor node' = Some (apply_updates updates e)) ∧
  c_edges c' = c_edges c ∧
  c_history c' = c_history c ∧
  c_historyIndex c' = c_historyIndex c ∧
  w_edges (currentWorkflow now c') = w_edges (currentWorkflow now c) ∧
  w_edgeGroups (currentWorkflow now c') = w_edgeGroups (currentWorkflow now c) ∧
  w_metadata (currentWorkflow now c') = w_metadata (currentWorkflow now c).
Proof.
  simpl.
  assert (Hplaces : node_places (update_node nodeId updates <$> c_nodes c)
                    = node_places (c_nodes c)).
  { unfold node_places. rewrite <- list_fmap_compose. apply list_fmap_ext.
    intros i node _. simpl.
    by destruct (update_node_same_frame nodeId updates node) as (-> & _ & -> & _). }
  split; [done|]. split; [|split; [|split]].
  - rewrite <- list_fmap_compose. apply list_fmap_ext. intros i node _. simpl.
    by destruct (update_node_same_frame nodeId updates node) as (_ & -> & _).
  - intros i node Hnode Hid. rewrite list_lookup_fmap, Hnode. simpl. f_equal.
    unfold update_node.
    destruct (String.eqb_spec (n_id node) nodeId); [done|]. done.
  - intros i node e Hnode Hid Hexecutor Hpayload.
    eexists. split; [by rewrite list_lookup_fmap, Hnode|].
    unfold update_node. rewrite Hid, String.eqb_refl, Hexecutor, Hpayload. simpl.
    unfold nodeToExecutor. simpl.
    unfold isExecutorNode in Hexecutor. unfold isExecutorNodeData. simpl.
    by rewrite Hexecutor.
  - split; [done|]. split; [done|]. split; [done|].
    unfold currentWorkflow, handleNodeUpdate. simpl.
    rewrite !reactFlowToWorkflow_unfold. simpl.
    split; [done|]. split.
    + by rewrite update_node_groups.
    + by rewrite (positions_of_places _ _ Hplaces).
Qed.

(** X19. Duplicating an executor node duplicates the executor's id.  The
    copy gets a fresh node id and an offset position but the payload of
    the original, so the document derived from the graph gains one
    executor, which carries the id of the original's executor: the executor
    ids of the document are no longer distinct.  The executors of the
    document are those of before followed by the duplicated one, the
    [position] entry of their metadata apart (original and copy write it
    through the one metadata object they share). *)
Theorem duplicate_repeats_executor_id nanoid offset_position now nodeId c node e :
  find (λ n, String.eqb (n_id n) nodeId) (c_nodes c) = Some node →
  isExecutorNodeData (n_data node) = true →
  d_executor (n_data node) = Some e →
  let c' := onDuplicate nanoid offset_position nodeId c in
  ∃ copy,
    c_nodes c' = c_nodes c ++ [copy] ∧
    n_id copy = nanoid (c_ids c) ∧
    n_data copy = n_data node ∧
    Forall2 same_executor_up_to_position
      (w_executors (currentWorkflow now c) ++ [e]) (w_executors (currentWorkflow now c')) ∧
    ¬ NoDup (ex_id <$> w_executors (currentWorkflow now c')).
Proof.
  intros Hfind Hexecutor Hpayload. simpl.
  unfold onDuplicate. rewrite Hfind.
  apply find_Some_elem in Hfind as [Hnode _].
  eexists. split; [done|]. split; [done|]. split; [done|].
  unfold currentWorkflow. simpl. rewrite !reactFlowToWorkflow_unfold. simpl.
  assert (Hcopy : node_executors (duplicate_of offset_position node (nanoid (c_ids c)))
                  = [stamp_position (offset_position (n_position node)) e]).
  { unfold node_executors, nodeToExecutor, duplicate_of. simpl.
    by rewrite Hexecutor, Hpayload. }
  rewrite bind_app. simpl. rewrite app_nil_r, Hcopy.
  split.
  - apply Forall2_app.
    + apply Forall_Forall2_diag, Forall_forall. intros e0 _.
      apply same_executor_up_to_position_refl.
    + constructor; [apply stamp_position_same | constructor].
  - rewrite fmap_app. simpl. intros Hnodup.
    apply NoDup_app in Hnodup as (_ & Hdisjoint & _).
    apply (Hdisjoint (ex_id e)); [|apply list_elem_of_here].
    apply list_elem_of_fmap. exists (stamp_position (n_position node) e). split; [done|].
    apply list_elem_of_bind. exists node. split; [|done].
    unfold node_executors, nodeToExecutor. rewrite Hexecutor, Hpayload.
    apply list_elem_of_here.
Qed.

Lemma duplicate_repeats_executor_id_witness :
  ¬ NoDup (ex_id <$> w_executors
             (currentWorkflow "2025-01-01T00:00:00.000Z"
                (onDuplicate sample_nanoid sample_offset "a" joined_canvas))).
Proof.
  destruct (duplicate_repeats_executor_id sample_nanoid sample_offset
              "2025-01-01T00:00:00.000Z" "a" joined_canvas
              (new_executor_node "agent-executor" None (Position 0 0) "a")
              (createExecutorFromNodeType "agent-executor" "a"
                 (Some "New agent-executor") (Some (Options None None))))
    as (copy & _ & _ & _ & _ & Hnodup).
  - reflexivity.
  - reflexivity.
  - reflexivity.
  - exact Hnodup.
Defined.

(** X20. Deleting a node removes the node and nothing else.  Every node
    with the given id leaves the graph, the other nodes stay, and the edges
    are untouched: when the executor nodes carry the ids of their
    executors, the derived document then has no executor with that id but
    still every edge it had, including the edges from or to the deleted
    node. *)
Theorem delete_keeps_incident_edges now nodeId c :
  ids_consistent (c_nodes c) →
  let c' := onDelete nodeId c in
  (nodeId ∉ n_id <$> c_nodes c') ∧
  (∀ node, node ∈ c_nodes c → n_id node ≠ nodeId → node ∈ c_nodes c') ∧
  c_edges c' = c_edges c ∧
  (nodeId ∉ ex_id <$> w_executors (currentWorkflow now c')) ∧
  w_edges (currentWorkflow now c') = w_edges (currentWorkflow now c).
Proof.
  intros Hids. simpl. unfold onDelete, currentWorkflow. simpl.
  rewrite !reactFlowToWorkflow_unfold. simpl.
  split; [|split; [|split; [done|split; [|done]]]].
  - intros Hin. apply list_elem_of_fmap in Hin as (node & Hid & Hnode).
    by apply list_elem_of_filter in Hnode as [? _].
  - intros node Hnode Hid. by apply list_elem_of_filter.
  - intros Hin. apply list_elem_of_fmap in Hin as (e & Hid & He).
    apply list_elem_of_bind in He as (node & He & Hnode).
    apply list_elem_of_filter in Hnode as [Hne Hnode].
    unfold node_executors in He.
    destruct (isExecutorNodeData (n_data node)); [|by apply elem_of_nil in He].
    destruct (nodeToExecutor node) as [e0|] eqn:Hexecutor; [|by apply elem_of_nil in He].
    apply list_elem_of_singleton in He as ->.
    apply Hne. rewrite Hid. simpl. symmetry. by apply Hids.
Qed.

Lemma delete_keeps_incident_edges_witness :
  ("a" ∉ ex_id <$> w_executors
                     (currentWorkflow "2025-01-01T00:00:00.000Z" (onDelete "a" joined_canvas))) ∧
  e_source <$> w_edges
                 (currentWorkflow "2025-01-01T00:00:00.000Z" (onDelete "a" joined_canvas))
    = ["a"].
Proof.
  destruct (delete_keeps_incident_edges "2025-01-01T00:00:00.000Z" "a" joined_canvas)
    as (_ & _ & _ & Hexecutors & Hedges).
  - intros node e Hnode Hexecutor.
    apply elem_of_cons in Hnode as [->|Hnode]; [by injection Hexecutor as <-|].
    apply elem_of_cons in Hnode as [->|Hnode]; [by injection Hexecutor as <-|].
    by apply elem_of_nil in Hnode.
  - split; [exact Hexecutors|]. rewrite Hedges. reflexivity.
Defined.

(** * Properties of the executor editors *)

Lemma preset_map_fold presets (m : gmap string MagenticAgentPreset) k p :
  foldl (λ acc preset, <[key preset := preset]> acc) m presets !! k = Some p →
  (p ∈ presets ∧ key p = k) ∨ m !! k = Some p.
Proof.
  revert m. induction presets as [|preset presets IH]; intros m Hlook; [by right|].
  simpl in Hlook. destruct (IH _ Hlook) as [[Hin Hkey]|Hm].
  - left. split; [by apply list_elem_of_further | done].
  - destruct (decide (key preset = k)) as [Heq|Hne].
    + rewrite <- Heq, lookup_insert_eq in Hm. injection Hm as ->.
      left. split; [apply list_elem_of_here | done].
    + rewrite lookup_insert_ne in Hm by done. by right.
Qed.

Lemma preset_map_lookup k p :
  MAGENTIC_AGENT_PRESET_MAP !! k = Some p → p ∈ MAGENTIC_AGENT_PRESETS ∧ key p = k.
Proof.
  intros Hlook. by destruct (preset_map_fold _ _ _ _ Hlook) as [?|?].
Qed.

Lemma magentic_block_merged e patch :
  magentic_block (mergeMetadata e patch)
  = patch ∪ magentic_block (default ∅ (ex_metadata e)).
Proof. unfold mergeMetadata, magentic_block at 1, get. by rewrite lookup_insert_eq. Qed.

Lemma get_union_patch (patch current : obj) k v :
  patch !! k = Some v → get (patch ∪ current) k = v.
Proof. intros Hk. unfold get. by rewrite (lookup_union_Some_l _ _ _ v). Qed.

Lemma findPresetKey_updated nodeId updates node e metadata :
  n_id node = nodeId → isExecutorNode node = true → d_executor (n_data node) = Some e →
  u_metadata updates = Some (Some metadata) →
  findPresetKey (update_node nodeId updates node) =
    if nullish (get (magentic_block metadata) "presetKey") then
      if nullish (get (magentic_block metadata) "preset") then VUndefined
      else get (magentic_block metadata) "preset"
    else get (magentic_block metadata) "presetKey".
Proof.
  intros Hid Hexecutor Hpayload Hmetadata.
  unfold update_node. rewrite Hid, String.eqb_refl, Hexecutor, Hpayload. simpl.
  unfold findPresetKey. simpl. rewrite Hmetadata. simpl.
  unfold magentic_block, prop. by destruct (get metadata "magentic").
Qed.

(** X21. A preset chosen in the agent editor is shown and recognised.  For
    every key of the preset table, [handlePresetChange] sends an update
    after which the selector shows the chosen key, the executor has the
    role of the preset, and (once [handleNodeUpdate] has applied the update
    to a magentic agent node embedding the executor) the node passes the
    test by which the scaffold handler finds the agent of that preset. *)
Theorem chosen_preset_shown_and_recognised value preset e nodeId node :
  MAGENTIC_AGENT_PRESET_MAP !! value = Some preset →
  ∃ updates,
    handlePresetChange value e = Some updates ∧
    presetValue (apply_updates updates e) = VStr value ∧
    get (ex_fields (apply_updates updates e)) "agentRole" = VStr (agentRole preset) ∧
    (n_id node = nodeId → isExecutorNode node = true →
     has_type node "magentic-agent-executor" = true →
     d_executor (n_data node) = Some e →
     is_preset_agent preset (update_node nodeId updates node) = true).
Proof.
  intros Hlook. destruct (preset_map_lookup _ _ Hlook) as [Hin Hkey].
  assert (Hcustom : String.eqb value "custom" = false).
  { apply String.eqb_neq. intros ->. unfold MAGENTIC_AGENT_PRESETS in Hin.
    repeat (apply elem_of_cons in Hin as [->|Hin]; [done|]). by apply elem_of_nil in Hin. }
  assert (Hnonempty : String.eqb value "" = false).
  { apply String.eqb_neq. intros ->. unfold MAGENTIC_AGENT_PRESETS in Hin.
    repeat (apply elem_of_cons in Hin as [->|Hin]; [done|]). by apply elem_of_nil in Hin. }
  unfold handlePresetChange. rewrite Hcustom, Hlook, Hkey.
  eexists. split; [done|].
  assert (Hshown : get (magentic_block (mergeMetadata e
            (<["presetKey" := VStr value]>
            (<["agentRole" := VStr (agentRole preset)]>
            (<["capabilities" := strings_value (capabilities preset)]>
            (<["toolIds" := strings_value (default [] (toolIds preset))]> ∅)))))) "presetKey"
          = VStr value).
  { rewrite magentic_block_merged. apply get_union_patch. by rewrite lookup_insert_eq. }
  split; [|split].
  - unfold presetValue, apply_updates. simpl. rewrite Hshown. simpl. by rewrite Hnonempty.
  - unfold apply_updates. simpl. apply get_union_patch. by rewrite lookup_insert_eq.
  - intros Hid Hexecutor Htype Hpayload. unfold is_preset_agent.
    erewrite findPresetKey_updated; [|done|done|done|simpl; reflexivity].
    rewrite Hshown. simpl.
    destruct (update_node_same_frame nodeId
                {| u_id := None; u_type := None;
                   u_label := Some (Some (label preset));
                   u_description := Some (Some (description preset));
                   u_metadata := Some (Some (mergeMetadata e
                     (<["presetKey" := VStr value]>
                     (<["agentRole" := VStr (agentRole preset)]>
                     (<["capabilities" := strings_value (capabilities preset)]>
                     (<["toolIds" := strings_value (default [] (toolIds preset))]> ∅))))));
                   u_fields :=
                     <["agentRole" := VStr (agentRole preset)]>
                       (<["capabilities" := strings_value (capabilities preset)]>
                       (<["systemPrompt" := VStr (systemPrompt preset)]>
                       (<["tools" := preset_tools preset]> ∅))) |} node)
      as (_ & Hsame & _).
    unfold has_type in *. rewrite Hsame, Htype. simpl.
    rewrite Hkey. apply String.eqb_refl.
Qed.

Lemma chosen_preset_shown_and_recognised_witness :
  ∃ updates,
    handlePresetChange "coder"
      (createExecutorFromNodeType "magentic-agent-executor" "n1" None None) = Some updates ∧
    presetValue
      (apply_updates updates
         (createExecutorFromNodeType "magentic-agent-executor" "n1" None None))
      = VStr "coder".
Proof.
  destruct (chosen_preset_shown_and_recognised "coder"
              (Preset "coder" "Coder Agent"
                 "Writes and runs code to fulfil assigned subtasks." "coder"
                 ["code-generation"; "code-execution"]
                 "You are responsible for writing and executing code to achieve the assigned goal. Produce correct, well-tested programs and explain results."
                 (Some ["hosted-code-interpreter"]))
              (createExecutorFromNodeType "magentic-agent-executor" "n1" None None)
              "n1" (new_executor_node "magentic-agent-executor" None origin "n1"))
    as (updates & Hupdates & Hshown & _).
  - reflexivity.
  - exists updates. split; [exact Hupdates | exact Hshown].
Defined.

(** X22. Choosing [Custom] after a preset is not shown.  [Custom] only
    writes a null preset key; the selector then falls back to the preset
    whose role the executor has, and the role is still the one the preset
    wrote.  So after a preset and then [Custom], the selector shows the
    preset again. *)
Theorem custom_after_preset_shows_preset value preset e :
  MAGENTIC_AGENT_PRESET_MAP !! value = Some preset →
  ∃ chosen custom,
    handlePresetChange value e = Some chosen ∧
    handlePresetChange "custom" (apply_updates chosen e) = Some custom ∧
    get (magentic_block
           (default ∅ (ex_metadata (apply_updates custom (apply_updates chosen e)))))
        "presetKey" = VNull ∧
    presetValue (apply_updates custom (apply_updates chosen e)) = VStr value.
Proof.
  intros Hlook. destruct (preset_map_lookup _ _ Hlook) as [Hin Hkey].
  assert (Hcustom : String.eqb value "custom" = false).
  { apply String.eqb_neq. intros ->. unfold MAGENTIC_AGENT_PRESETS in Hin.
    repeat (apply elem_of_cons in Hin as [->|Hin]; [done|]). by apply elem_of_nil in Hin. }
  unfold handlePresetChange at 1. rewrite Hcustom, Hlook.
  eexists _, _. split; [done|]. split; [done|].
  assert (Hnull : ∀ e', get (magentic_block (mergeMetadata e' (<["presetKey" := VNull]> ∅)))
                          "presetKey" = VNull).
  { intros e'. rewrite magentic_block_merged. apply get_union_patch.
    by rewrite lookup_insert_eq. }
  split; [apply Hnull|].
  unfold presetValue. simpl ex_metadata. simpl default. rewrite Hnull. simpl.
  assert (Hrole : get (∅ ∪ (<["agentRole" := VStr (agentRole preset)]>
                        (<["capabilities" := strings_value (capabilities preset)]>
                        (<["systemPrompt" := VStr (systemPrompt preset)]>
                        (<["tools" := preset_tools preset]> ∅))) ∪ ex_fields e)) "agentRole"
                  = VStr (agentRole preset)).
  { rewrite (left_id ∅ _). apply get_union_patch. by rewrite lookup_insert_eq. }
  rewrite Hrole. rewrite <- Hkey. clear -Hin.
  unfold MAGENTIC_AGENT_PRESETS in Hin.
  repeat (apply elem_of_cons in Hin as [->|Hin]; [by vm_compute|]).
  by apply elem_of_nil in Hin.
Qed.

Lemma custom_after_preset_shows_preset_witness :
  ∃ chosen custom,
    handlePresetChange "web"
      (createExecutorFromNodeType "magentic-agent-executor" "n1" None None) = Some chosen ∧
    handlePresetChange "custom"
      (apply_updates chosen
         (createExecutorFromNodeType "magentic-agent-executor" "n1" None None))
      = Some custom ∧
    presetValue
      (apply_updates custom
         (apply_updates chosen
            (createExecutorFromNodeType "magentic-agent-executor" "n1" None None)))
      = VStr "web".
Proof.
  destruct (custom_after_preset_shows_preset "web"
              (Preset "web" "Web Surfer Agent"
                 "Searches and summarizes web sources to gather external facts." "web-surfer"
                 ["web-search"; "summarization"]
                 "You are the web research specialist. Use browsing tools to gather and summarise authoritative information that helps the team."
                 (Some ["web-browser"; "http-client"]))
              (createExecutorFromNodeType "magentic-agent-executor" "n1" None None))
    as (chosen & custom & Hchosen & Hcustom & _ & Hshown).
  - reflexivity.
  - exists chosen, custom. split; [exact Hchosen|]. split; [exact Hcustom | exact Hshown].
Defined.

(** X23. Choosing [Custom] hides the agent from the scaffold.  Once
    [handleNodeUpdate] has applied the update sent for [Custom], the node
    passes the scaffold handler's test for no preset (the handler will add
    a new agent for the preset the node stood for), unless the executor's
    metadata still has the older [magentic.preset] entry, which the handler
    reads when the preset key is null. *)
Theorem custom_choice_hides_agent e nodeId node preset :
  nullish (get (magentic_block (default ∅ (ex_metadata e))) "preset") = true →
  n_id node = nodeId →
  isExecutorNode node = true →
  d_executor (n_data node) = Some e →
  ∃ updates,
    handlePresetChange "custom" e = Some updates ∧
    findPresetKey (update_node nodeId updates node) = VUndefined ∧
    is_preset_agent preset (update_node nodeId updates node) = false.
Proof.
  intros Hlegacy Hid Hexecutor Hpayload.
  eexists. split; [done|].
  assert (Hkey : findPresetKey (update_node nodeId
            {| u_id := None; u_type := None; u_label := None; u_description := None;
               u_metadata := Some (Some (mergeMetadata e (<["presetKey" := VNull]> ∅)));
               u_fields := ∅ |} node) = VUndefined).
  { erewrite findPresetKey_updated; [|done|done|done|simpl; reflexivity].
    rewrite magentic_block_merged.
    rewrite (get_union_patch _ _ "presetKey" VNull) by (by rewrite lookup_insert_eq).
    simpl. unfold get at 1 2.
    rewrite lookup_union_r by (by rewrite lookup_insert_ne).
    fold (get (magentic_block (default ∅ (ex_metadata e))) "preset").
    by rewrite Hlegacy. }
  split; [done|]. unfold is_preset_agent. rewrite Hkey. apply andb_false_r.
Qed.

Lemma custom_choice_hides_agent_witness :
  ∃ updates,
    handlePresetChange "custom"
      (createExecutorFromNodeType "magentic-agent-executor" "n1" (Some "Coder Agent")
         (Some (Options None (Some "coder")))) = Some updates ∧
    findPresetKey
      (update_node "n1" updates
         (new_executor_node "magentic-agent-executor" (Some "coder") origin "n1"))
      = VUndefined.
Proof.
  destruct (custom_choice_hides_agent
              (createExecutorFromNodeType "magentic-agent-executor" "n1" (Some "Coder Agent")
                 (Some (Options None (Some "coder"))))
              "n1" (new_executor_node "magentic-agent-executor" (Some "coder") origin "n1")
              (Preset "coder" "" "" "" [] "" None))
    as (updates & Hupdates & Hkey & _).
  - reflexivity.
  - reflexivity.
  - reflexivity.
  - reflexivity.
  - exists updates. split; [exact Hupdates | exact Hkey].
Defined.

(** X24. Instructions typed in the properties panel.  For an agent or a
    magentic agent the text is sent as the system prompt and, when it is
    not empty, is what the panel shows next.  For a magentic orchestrator
    the text is sent as the description and no other field changes, so the
    panel keeps showing a system prompt or instructions the executor may
    have.  For every other executor type no update is sent. *)
Theorem instructions_typed_in_panel value data e :
  let executorType := panel_executorType data e in
  (executorType = "agent-executor" ∨ executorType = "magentic-agent-executor" →
   ∃ updates,
     handleInstructionsChange value data e = Some updates ∧
     (value ≠ "" → getInstructionsValue (apply_updates updates e) = VStr value)) ∧
  (executorType = "magentic-orchestrator-executor" →
   ∃ updates,
     handleInstructionsChange value data e = Some updates ∧
     ex_description (apply_updates updates e) = Some value ∧
     ex_fields (apply_updates updates e) = ex_fields e) ∧
  (executorType ≠ "agent-executor" → executorType ≠ "magentic-agent-executor" →
   executorType ≠ "magentic-orchestrator-executor" →
   handleInstructionsChange value data e = None).
Proof.
  simpl. unfold handleInstructionsChange. split; [|split].
  - intros Htype.
    assert (String.eqb (panel_executorType data e) "agent-executor"
            || String.eqb (panel_executorType data e) "magentic-agent-executor" = true) as ->.
    { apply orb_true_iff. rewrite !String.eqb_eq. exact Htype. }
    eexists. split; [done|]. intros Hvalue.
    unfold getInstructionsValue, apply_updates. simpl.
    rewrite (get_union_patch _ _ "systemPrompt" (VStr value)) by (by rewrite lookup_insert_eq).
    simpl. by apply String.eqb_neq in Hvalue as ->.
  - intros ->. simpl. eexists. split; [done|]. split; [done|].
    unfold apply_updates. simpl. by rewrite (left_id ∅ _).
  - intros H1 H2 H3. apply String.eqb_neq in H1, H2, H3. by rewrite H1, H2, H3.
Qed.

(** X25. The orchestrator editor writes a setting and its mirror together.
    After each of its three handlers, the executor's own field holds the
    chosen value, the entry of the same name under [metadata.magentic]
    holds it too, and the editor shows it. *)
Theorem orchestrator_settings_mirrored value e :
  let planned := apply_updates (handlePlanningStrategy value e) e in
  let tracked := apply_updates (handleProgressTracking value e) e in
  let looped := apply_updates (handleHumanLoop value e) e in
  get (ex_fields planned) "planningStrategy" = VStr value ∧
  get (magentic_block (default ∅ (ex_metadata planned))) "planningStrategy" = VStr value ∧
  (value ≠ "" → shown_planningStrategy planned = VStr value) ∧
  shown_progressTracking tracked = String.eqb value "true" ∧
  get (magentic_block (default ∅ (ex_metadata tracked))) "progressTracking"
    = VBool (String.eqb value "true") ∧
  shown_humanInTheLoop looped = String.eqb value "true" ∧
  get (magentic_block (default ∅ (ex_metadata looped))) "humanInTheLoop"
    = VBool (String.eqb value "true").
Proof.
  simpl. unfold shown_progressTracking, shown_humanInTheLoop, shown_planningStrategy. simpl.
  rewrite !magentic_block_merged.
  rewrite !(get_union_patch _ _ "planningStrategy" (VStr value))
    by (by rewrite lookup_insert_eq).
  rewrite !(get_union_patch _ _ "progressTracking" (VBool (String.eqb value "true")))
    by (by rewrite lookup_insert_eq).
  rewrite !(get_union_patch _ _ "humanInTheLoop" (VBool (String.eqb value "true")))
    by (by rewrite lookup_insert_eq).
  split; [done|]. split; [done|].
  split; [intros Hvalue; simpl; by apply String.eqb_neq in Hvalue as ->|].
  by destruct (String.eqb value "true").
Qed.

Lemma mergeMetadata_keeps_other_entries e patch :
  get (mergeMetadata e patch) "source" = VStr "agent-framework" ∧
  (∀ k, k ≠ "source" → k ≠ "magentic" →
     mergeMetadata e patch !! k = default ∅ (ex_metadata e) !! k) ∧
  (∀ j, magentic_block (mergeMetadata e patch) !! j =
        match patch !! j with
        | Some v => Some v
        | None => magentic_block (default ∅ (ex_metadata e)) !! j
        end).
Proof.
  split; [|split].
  - unfold mergeMetadata, get. rewrite lookup_insert_ne by done.
    by rewrite lookup_insert_eq.
  - intros k Hsource Hmagentic. unfold mergeMetadata.
    by rewrite !lookup_insert_ne.
  - intros j. rewrite magentic_block_merged.
    destruct (patch !! j) as [v|] eqn:Hpatch.
    + by apply lookup_union_Some_l.
    + by apply lookup_union_r.
Qed.

(** X26. No editor handler loses metadata.  After the update sent by any
    handler of the agent editor or of the orchestrator editor (a preset or
    [Custom], the agent role, the planning strategy, progress tracking, the
    human loop), the executor keeps its id and type, its metadata has
    [source] set to ["agent-framework"], and every top-level metadata entry
    other than [source] and [magentic] (the node position among them) is
    what it was. *)
Theorem editors_keep_other_metadata value e updates k :
  handlePresetChange value e = Some updates ∨
  updates = handleAgentRoleChange value e ∨
  updates = handlePlanningStrategy value e ∨
  updates = handleProgressTracking value e ∨
  updates = handleHumanLoop value e →
  k ≠ "source" → k ≠ "magentic" →
  ex_id (apply_updates updates e) = ex_id e ∧
  ex_type (apply_updates updates e) = ex_type e ∧
  get (default ∅ (ex_metadata (apply_updates updates e))) "source" = VStr "agent-framework" ∧
  default ∅ (ex_metadata (apply_updates updates e)) !! k = default ∅ (ex_metadata e) !! k.
Proof.
  intros Hupdates Hsource Hmagentic.
  assert (Hmerged : ∃ patch,
            u_id updates = None ∧ u_type updates = None ∧
            u_metadata updates = Some (Some (mergeMetadata e patch))).
  { destruct Hupdates as [Hpreset|[->|[->|[->| ->]]]]; try (by eexists).
    unfold handlePresetChange in Hpreset.
    destruct (String.eqb value "custom"); [injection Hpreset as <-; by eexists|].
    destruct (MAGENTIC_AGENT_PRESET_MAP !! value); [|done].
    injection Hpreset as <-. by eexists. }
  destruct Hmerged as (patch & Hid & Htype & Hmetadata).
  destruct (mergeMetadata_keeps_other_entries e patch) as (Hsrc & Hkeep & _).
  unfold apply_updates. simpl. rewrite Hid, Htype, Hmetadata. simpl.
  split; [done|]. split; [done|]. split; [done|]. by apply Hkeep.
Qed.

Lemma editors_keep_other_metadata_witness :
  default ∅ (ex_metadata
               (apply_updates (handleAgentRoleChange "reviewer" (stamp_position (Position 3 4)
                    (createExecutorFromNodeType "magentic-agent-executor" "n1" None None)))
                  (stamp_position (Position 3 4)
                     (createExecutorFromNodeType "magentic-agent-executor" "n1" None None))))
    !! "position" = Some (position_value (Position 3 4)).
Proof.
  destruct (editors_keep_other_metadata "reviewer"
              (stamp_position (Position 3 4)
                 (createExecutorFromNodeType "magentic-agent-executor" "n1" None None))
              (handleAgentRoleChange "reviewer"
                 (stamp_position (Position 3 4)
                    (createExecutorFromNodeType "magentic-agent-executor" "n1" None None)))
              "position") as (_ & _ & _ & Hkept).
  - right. left. reflexivity.
  - discriminate.
  - discriminate.
  - rewrite Hkept. reflexivity.
Defined.

(** * Properties of the comma-separated lists *)

Lemma trim_start_clean s : starts_clean (trim_start s).
Proof.
  induction s as [|c s IH]; [done|]. simpl.
  by destruct (is_white_space c) eqn:Hc.
Qed.

Lemma trim_start_id s : starts_clean s → trim_start s = s.
Proof. destruct s as [|c s]; [done|]. simpl. by intros ->. Qed.

Lemma trim_start_suffix s : ∃ blanks, s = blanks ++ trim_start s.
Proof.
  induction s as [|c s [blanks IH]]; [by exists []|]. simpl.
  destruct (is_white_space c).
  - exists (c :: blanks). simpl. by rewrite <- IH.
  - by exists [].
Qed.

Lemma trim_clean_both s :
  starts_clean (trim s) ∧ starts_clean (reverse (trim s)).
Proof.
  unfold trim. rewrite reverse_involutive.
  split; [|apply trim_start_clean].
  pose proof (trim_start_clean s) as Hclean.
  destruct (trim_start_suffix (reverse (trim_start s))) as [blanks Hsuffix].
  apply (f_equal reverse) in Hsuffix.
  rewrite reverse_involutive, reverse_app in Hsuffix.
  destruct (reverse (trim_start (reverse (trim_start s)))) as [|c rest]; [done|].
  rewrite Hsuffix in Hclean. exact Hclean.
Qed.

Lemma trim_fixed s :
  starts_clean s → starts_clean (reverse s) → trim s = s.
Proof.
  intros Hs Hrev. unfold trim.
  by rewrite (trim_start_id s), (trim_start_id (reverse s)), reverse_involutive.
Qed.

Lemma trim_idempotent s : trim (trim s) = trim s.
Proof. destruct (trim_clean_both s). by apply trim_fixed. Qed.

Lemma trim_blank_first s : trim (blank :: s) = trim s.
Proof. done. Qed.

Lemma trim_start_sublist s c : c ∈ trim_start s → c ∈ s.
Proof.
  destruct (trim_start_suffix s) as [blanks Hs]. intros Hc.
  rewrite Hs. apply elem_of_app. by right.
Qed.

Lemma trim_sublist s c : c ∈ trim s → c ∈ s.
Proof.
  unfold trim. rewrite elem_of_reverse. intros Hc.
  apply trim_start_sublist in Hc. rewrite elem_of_reverse in Hc.
  by apply trim_start_sublist.
Qed.

Lemma split_units_cons sep s : ∃ piece pieces, split_units sep s = piece :: pieces.
Proof.
  induction s as [|c s (piece & pieces & IH)]; simpl; [eauto|].
  destruct (c =? sep)%N; [eauto|]. rewrite IH. eauto.
Qed.

Lemma split_units_plain sep s : sep ∉ s → split_units sep s = [s].
Proof.
  induction s as [|c s IH]; [done|]. intros Hsep.
  apply not_elem_of_cons in Hsep as [Hne Hsep]. simpl.
  destruct (N.eqb_spec c sep); [done|]. by rewrite IH.
Qed.

Lemma split_units_app sep s rest :
  sep ∉ s → split_units sep (s ++ sep :: rest) = s :: split_units sep rest.
Proof.
  induction s as [|c s IH]; simpl.
  - intros _. by rewrite N.eqb_refl.
  - intros Hsep. apply not_elem_of_cons in Hsep as [Hne Hsep].
    destruct (N.eqb_spec c sep); [done|]. by rewrite IH.
Qed.

Lemma split_units_free sep s piece : piece ∈ split_units sep s → sep ∉ piece.
Proof.
  revert piece. induction s as [|c s IH]; intros piece; simpl.
  - intros Hpiece. apply list_elem_of_singleton in Hpiece as ->. apply not_elem_of_nil.
  - destruct (N.eqb_spec c sep) as [->|Hne].
    + intros Hpiece. apply elem_of_cons in Hpiece as [->|Hpiece];
        [apply not_elem_of_nil | by apply IH].
    + destruct (split_units_cons sep s) as (first & pieces & Hsplit).
      rewrite Hsplit in *. intros Hpiece.
      apply elem_of_cons in Hpiece as [->|Hpiece].
      * apply not_elem_of_cons. split; [done|]. apply IH, list_elem_of_here.
      * by apply IH, list_elem_of_further.
Qed.

Lemma split_joined v vs :
  Forall (λ s, comma ∉ s) (v :: vs) →
  split_units comma (join [comma; blank] (v :: vs)) = v :: ((blank ::.) <$> vs).
Proof.
  revert v. induction vs as [|v' vs IH]; intros v Hfree.
  - simpl. apply split_units_plain. by apply Forall_inv in Hfree.
  - apply Forall_cons in Hfree as [Hv Hfree].
    change (join [comma; blank] (v :: v' :: vs))
      with (v ++ comma :: blank :: join [comma; blank] (v' :: vs)).
    rewrite split_units_app by done.
    change (split_units comma (blank :: join [comma; blank] (v' :: vs)))
      with (match split_units comma (join [comma; blank] (v' :: vs)) with
            | piece :: pieces => (blank :: piece) :: pieces
            | [] => [[blank]]
            end).
    by rewrite IH.
Qed.

Lemma parsed_plain vs :
  Forall plain_entry vs → List.filter non_empty (trim <$> vs) = vs.
Proof.
  induction 1 as [|v vs (Hne & _ & Htrim) _ IH]; [done|].
  rewrite fmap_cons. cbn [List.filter]. rewrite Htrim, IH. by destruct v.
Qed.

Lemma comma_separated_plain vs :
  Forall plain_entry vs → fromCommaSeparated (toCommaSeparated (Some vs)) = vs.
Proof.
  intros Hplain. destruct vs as [|v vs]; [done|].
  unfold fromCommaSeparated, toCommaSeparated.
  rewrite split_joined.
  - rewrite fmap_cons, <- list_fmap_compose.
    rewrite (list_fmap_ext (trim ∘ (blank ::.)) trim vs) by done.
    by apply (parsed_plain (v :: vs)).
  - eapply Forall_impl; [exact Hplain|]. by intros s (_ & ? & _).
Qed.

Lemma fromCommaSeparated_plain value : Forall plain_entry (fromCommaSeparated value).
Proof.
  unfold fromCommaSeparated. apply Forall_forall. intros s Hs.
  apply list_elem_of_In, filter_In in Hs as [Hs Hne].
  apply list_elem_of_In, list_elem_of_fmap in Hs as (piece & -> & Hpiece).
  split; [by destruct (trim piece)|]. split.
  - intros Hcomma. apply trim_sublist in Hcomma.
    by apply (split_units_free comma value piece).
  - apply trim_idempotent.
Qed.

(** X27. A list of plain entries survives the agent editor: joining it for
    display and parsing the displayed text gives the list back, when every
    entry is non-empty, has no comma and has no white space at either end
    (the empty list included). *)
Theorem comma_separated_roundtrip vs :
  Forall plain_entry vs →
  fromCommaSeparated (toCommaSeparated (Some vs)) = vs.
Proof. apply comma_separated_plain. Qed.

Lemma comma_separated_roundtrip_witness :
  fromCommaSeparated (toCommaSeparated (Some sample_capabilities)) = sample_capabilities.
Proof.
  apply comma_separated_roundtrip.
  unfold sample_capabilities.
  constructor; [|constructor; [|constructor]];
    (split; [done|]; split; [apply (bool_decide_unpack _); by vm_compute | by vm_compute]).
Defined.

(** X28. Parsing normalises.  Whatever text is typed, every entry parsed
    from it is plain (non-empty, without a comma, without white space at
    either end), so displaying the parsed list and parsing it again gives
    the same list. *)
Theorem comma_separated_normalises value :
  Forall plain_entry (fromCommaSeparated value) ∧
  fromCommaSeparated (toCommaSeparated (Some (fromCommaSeparated value)))
    = fromCommaSeparated value.
Proof.
  split; [apply fromCommaSeparated_plain|].
  apply comma_separated_plain, fromCommaSeparated_plain.
Qed.

(** * Further properties of the magentic scaffold *)

Section ScaffoldExtras.

Variable nanoid : nat → string.
Variable circle_point : position → nat → nat → position.

Lemma ensureEdge_extends source target st :
  ∃ added, (ensureEdge nanoid source target st).1 = st.1 ++ added ∧
           Forall (λ edge, re_type edge = Some "animated" ∧ re_data edge = None) added.
Proof.
  destruct st as [edges k]. unfold ensureEdge.
  destruct (existsb _ edges); simpl.
  - exists []. by rewrite app_nil_r.
  - eexists. split; [done|]. by repeat constructor.
Qed.

Lemma ensure_agent_edges_extends orchestratorId agents st :
  ∃ added,
    (foldl (ensure_agent_edges nanoid orchestratorId) st agents).1 = st.1 ++ added ∧
    Forall (λ edge, re_type edge = Some "animated" ∧ re_data edge = None) added.
Proof.
  revert st. induction agents as [|agent agents IH]; intros st.
  - exists []. by rewrite app_nil_r.
  - simpl. destruct (IH (ensure_agent_edges nanoid orchestratorId st agent))
      as (added & -> & Hadded).
    unfold ensure_agent_edges.
    destruct (ensureEdge_extends orchestratorId (n_id agent) st) as (added1 & Hadded1 & Hall1).
    destruct (ensureEdge_extends (n_id agent) orchestratorId
                (ensureEdge nanoid orchestratorId (n_id agent) st))
      as (added2 & -> & Hall2).
    rewrite Hadded1. exists (added1 ++ added2 ++ added).
    split; [by rewrite <- !app_assoc|].
    apply Forall_app. split; [done|]. by apply Forall_app.
Qed.

Local Arguments ensure_agents : simpl never.
Local Arguments MAGENTIC_AGENT_PRESETS : simpl never.
Local Arguments length : simpl never.

Lemma scaffold_extends center nodes edges k nodes1 edges1 k1 :
  fresh_ids nanoid k (S (length MAGENTIC_AGENT_PRESETS)) (n_id <$> nodes) →
  handleAddMagenticScaffold nanoid circle_point (Some center) (nodes, edges, k)
    = (nodes1, edges1, k1) →
  (∃ ext, skeleton <$> nodes1 = (skeleton <$> nodes) ++ ext) ∧
  (∃ added, edges1 = edges ++ added ∧
            Forall (λ edge, re_type edge = Some "animated" ∧ re_data edge = None) added).
Proof.
  intros Hfresh.
  assert (Hnodup : NoDup (n_id <$> nodes)).
  { unfold fresh_ids in Hfresh. by apply NoDup_app in Hfresh as (_ & _ & ?). }
  unfold handleAddMagenticScaffold.
  rewrite map_from_nodes by done.
  destruct (map_from_nodes_keyed nodes Hnodup) as [Hkeyed0 Hvalues0].
  set (m0 := (λ node, (n_id node, node)) <$> nodes) in *.
  assert (Hkeys0 : m0.*1 = n_id <$> nodes).
  { pose proof Hkeyed0 as [Hk _]. by rewrite Hk, Hvalues0. }
  destruct (find (λ node, has_type node "magentic-orchestrator-executor") nodes)
    as [found|] eqn:Hfind.
  - apply find_Some_elem in Hfind as [Hin _]. rewrite <- Hvalues0 in Hin.
    destruct (map_set_replace (with_position (n_position found) found) found m0
                Hkeyed0 Hin eq_refl) as [Hkeyed1 Hsk1].
    simpl in Hkeyed1, Hsk1. simpl.
    set (m1 := map_set (n_id found) _ m0) in *.
    assert (Hfresh1 : fresh_ids nanoid k (length MAGENTIC_AGENT_PRESETS) m1.*1).
    { rewrite (skeleton_keys m0 m1), Hkeys0 by done. by apply fresh_ids_skip. }
    destruct (ensure_agents nanoid circle_point (n_position found)
                (length MAGENTIC_AGENT_PRESETS) 0 MAGENTIC_AGENT_PRESETS m1 k)
      as [[agents m2] k2] eqn:Hrun.
    destruct (ensure_agents_fresh _ _ _ _ _ _ _ _ _ _ _ (reflexivity _) Hkeyed1 Hfresh1 Hrun)
      as (Hkeyed2 & [ext Hext] & Hfound).
    pose proof (ensure_agent_edges_extends (n_id found) agents (edges, k2)) as Hadded.
    destruct (foldl (ensure_agent_edges nanoid (n_id found)) (edges, k2) agents)
      as [edges' k'] eqn:Hedges.
    intros [= <- <- <-]. unfold map_values. split; [|done].
    exists ext. by rewrite Hext, Hsk1, Hvalues0.
  - set (orchestrator := new_orchestrator_node center (nanoid k)).
    assert (Hfreshk : nanoid k ∉ m0.*1).
    { rewrite Hkeys0. by eapply fresh_ids_head. }
    destruct (map_set_append (nanoid k)
                (with_position (n_position orchestrator) orchestrator) m0
                Hkeyed0 eq_refl Hfreshk) as [Hkeyed1 Hsk1].
    simpl in Hkeyed1, Hsk1. simpl.
    assert (Hfresh1 : fresh_ids nanoid (S k) (length MAGENTIC_AGENT_PRESETS)
                        (map_set (nanoid k) (with_position center orchestrator) m0).*1).
    { rewrite map_set_fresh by done. rewrite fmap_app, Hkeys0.
      by apply fresh_ids_take. }
    set (m1 := map_set (nanoid k) (with_position _ orchestrator) _) in *.
    destruct (ensure_agents nanoid circle_point center
                (length MAGENTIC_AGENT_PRESETS) 0 MAGENTIC_AGENT_PRESETS m1 (S k))
      as [[agents m2] k2] eqn:Hrun.
    destruct (ensure_agents_fresh _ _ _ _ _ _ _ _ _ _ _ (reflexivity _) Hkeyed1 Hfresh1 Hrun)
      as (Hkeyed2 & [ext Hext] & Hfound).
    pose proof (ensure_agent_edges_extends (nanoid k) agents (edges, k2)) as Hadded.
    destruct (foldl (ensure_agent_edges nanoid (nanoid k)) (edges, k2) agents)
      as [edges' k'] eqn:Hedges.
    intros [= <- <- <-]. unfold map_values. split; [|done].
    eexists. rewrite Hext, Hsk1, Hvalues0. by rewrite <- app_assoc.
Qed.

(** X29. One application of the scaffold handler builds the team.  When
    the identifiers it draws are new, the resulting graph has distinct node
    ids, an orchestrator node, and for every preset a node that passes the
    handler's own test for the agent of that preset and is joined to the
    orchestrator by an edge in each direction. *)
Theorem scaffold_builds_the_team center nodes edges k :
  fresh_ids nanoid k (S (length MAGENTIC_AGENT_PRESETS)) (n_id <$> nodes) →
  let result := handleAddMagenticScaffold nanoid circle_point (Some center) (nodes, edges, k) in
  NoDup (n_id <$> result.1.1) ∧
  ∃ orchestrator,
    orchestrator ∈ result.1.1 ∧
    has_type orchestrator "magentic-orchestrator-executor" = true ∧
    ∀ preset, preset ∈ MAGENTIC_AGENT_PRESETS →
      ∃ agent,
        agent ∈ result.1.1 ∧
        is_preset_agent preset agent = true ∧
        has_edge (n_id orchestrator) (n_id agent) result.1.2 = true ∧
        has_edge (n_id agent) (n_id orchestrator) result.1.2 = true.
Proof.
  intros Hfresh.
  destruct (handleAddMagenticScaffold nanoid circle_point (Some center) (nodes, edges, k))
    as [[nodes1 edges1] k1] eqn:Hrun.
  destruct (scaffold_first nanoid circle_point center nodes edges k nodes1 edges1 k1
              Hfresh Hrun) as (Hnodup & o & agents & Horchestrator & Hfound & Hjoined).
  simpl. split; [done|].
  rewrite find_orchestrator_skeleton in Horchestrator.
  destruct (find (λ node, has_type node "magentic-orchestrator-executor") nodes1)
    as [orchestrator|] eqn:Hfind; [|done].
  injection Horchestrator as <-.
  apply find_Some_elem in Hfind as [Hin Htype].
  exists orchestrator. split; [done|]. split; [done|].
  intros preset Hpreset.
  apply list_elem_of_lookup in Hpreset as [i Hpreset].
  unfold agents_found in Hfound.
  destruct (Forall2_lookup_l _ _ _ _ _ Hfound Hpreset) as (agent & Hagent & s & Hs & Hid).
  rewrite find_agent_skeleton in Hs.
  destruct (find (is_preset_agent preset) nodes1) as [node|] eqn:Hnode; [|done].
  injection Hs as <-.
  apply find_Some_elem in Hnode as [Hnode Hmatch].
  exists node. split; [done|]. split; [done|].
  unfold agents_joined in Hjoined. rewrite Forall_forall in Hjoined.
  simpl in Hid. rewrite Hid. simpl. apply Hjoined.
  apply list_elem_of_fmap. exists agent. split; [done|].
  by apply list_elem_of_lookup_2 in Hagent.
Qed.

(** X30. The scaffold handler only adds.  When the identifiers it draws
    are new, every node of the graph is still there, in the same order and
    with the same id, type and preset key, the new nodes coming after
    them; every edge is still there, in the same order, the new edges
    coming after them, each an animated edge without data. *)
Theorem scaffold_only_adds center nodes edges k :
  fresh_ids nanoid k (S (length MAGENTIC_AGENT_PRESETS)) (n_id <$> nodes) →
  let result := handleAddMagenticScaffold nanoid circle_point (Some center) (nodes, edges, k) in
  (∃ ext, skeleton <$> result.1.1 = (skeleton <$> nodes) ++ ext) ∧
  (∃ added, result.1.2 = edges ++ added ∧
            Forall (λ edge, re_type edge = Some "animated" ∧ re_data edge = None) added).
Proof.
  intros Hfresh.
  destruct (handleAddMagenticScaffold nanoid circle_point (Some center) (nodes, edges, k))
    as [[nodes1 edges1] k1] eqn:Hrun.
  apply (scaffold_extends center nodes edges k nodes1 edges1 k1 Hfresh Hrun).
Qed.

End ScaffoldExtras.

Lemma scaffold_builds_the_team_witness :
  ∃ orchestrator,
    orchestrator ∈ (handleAddMagenticScaffold sample_nanoid sample_circle (Some origin)
                      ([], [], 0)).1.1 ∧
    has_type orchestrator "magentic-orchestrator-executor" = true.
Proof.
  destruct (scaffold_builds_the_team sample_nanoid sample_circle origin [] [] 0)
    as (_ & orchestrator & Hin & Htype & _).
  - apply (bool_decide_unpack _). by vm_compute.
  - exists orchestrator. split; [exact Hin | exact Htype].
Defined.

Lemma scaffold_only_adds_witness :
  ∃ added,
    (handleAddMagenticScaffold sample_nanoid sample_circle (Some origin)
       (joined_nodes, joined_edges, 0)).1.2 = joined_edges ++ added.
Proof.
  destruct (scaffold_only_adds sample_nanoid sample_circle origin joined_nodes joined_edges 0)
    as (_ & added & Hadded & _).
  - apply (bool_decide_unpack _). by vm_compute.
  - exists added. exact Hadded.
Defined.
